(** * Netpbm: a shallow embedding of the PBM / PGM / PPM toolkit

    The Go package [Netpbm] (files [pbm.go], [pgm.go], [ppm.go]) is embedded
    function by function.  Go's [int] is a 64-bit two's complement integer,
    modelled as [Z] with the wrap-around written out where the source does
    arithmetic; [uint8] samples are [Z] in [0, 255]; [float64] is the
    primitive binary64 type of Rocq.  A slice is a [list]; indexing outside
    its length is a run-time panic, modelled by the [Panic] outcome. *)

From Stdlib Require Import ZArith Lia Bool String Ascii DecimalString DecimalPos
  DecimalFacts Floats Uint63.
From stdpp Require Import base tactics option list.

Set Warnings "-inexact-float".
Local Open Scope Z_scope.

(** ** Outcomes: a returned value, or a run-time panic *)

Inductive result (A : Type) : Type :=
| Ok (a : A)
| Panic.
Arguments Ok {A} a.
Arguments Panic {A}.

Definition bind {A B} (r : result A) (k : A -> result B) : result B :=
  match r with
  | Ok a => k a
  | Panic => Panic
  end.

Declare Scope go_scope.
Delimit Scope go_scope with go.
Notation "'let*' x := e 'in' k" := (bind e (fun x => k))
  (at level 10, x pattern, e at level 200, k at level 200) : go_scope.
Local Open Scope go_scope.

(** ** Slices *)

(** [l[i]]: a panic unless [0 <= i < len(l)]. *)
Definition index {A} (l : list A) (i : Z) : result A :=
  if (0 <=? i) && (i <? Z.of_nat (length l))
  then match l !! Z.to_nat i with
       | Some a => Ok a
       | None => Panic
       end
  else Panic.

(** [l[i] = v]: a panic unless [0 <= i < len(l)]. *)
Definition store {A} (l : list A) (i : Z) (v : A) : result (list A) :=
  if (0 <=? i) && (i <? Z.of_nat (length l))
  then Ok (<[Z.to_nat i := v]> l)
  else Panic.

(** [make([]T, n)]: [n] zero values; a panic when [n] is negative. *)
Definition make {A} (n : Z) (zero : A) : result (list A) :=
  if n <? 0 then Panic else Ok (replicate (Z.to_nat n) zero).

(** [d[y][x]] and [d[y][x] = v] on a slice of slices. *)
Definition index2 {A} (d : list (list A)) (y x : Z) : result A :=
  let* row := index d y in index row x.

Definition store2 {A} (d : list (list A)) (y x : Z) (v : A)
  : result (list (list A)) :=
  let* row := index d y in
  let* row' := store row x v in
  store d y row'.

(** [l[i], l[j] = l[j], l[i]]: both right-hand sides are read, then the
    two stores are done from left to right. *)
Definition swap {A} (l : list A) (i j : Z) : result (list A) :=
  let* a := index l j in
  let* b := index l i in
  let* l := store l i a in
  store l j b.

(** [d[y1][x1], d[y2][x2] = d[y2][x2], d[y1][x1]]. *)
Definition swap2 {A} (d : list (list A)) (y1 x1 y2 x2 : Z)
  : result (list (list A)) :=
  let* a := index2 d y2 x2 in
  let* b := index2 d y1 x1 in
  let* d := store2 d y1 x1 a in
  store2 d y2 x2 b.

(** ** Loops *)

(** [n] iterations of [body], the counter starting at [i] and stepping by
    one: [for k := i; k < i + n; k++ { s = body(k, s) }]. *)
Fixpoint loop {S} (n : nat) (i : Z) (body : Z -> S -> result S) (s : S)
  : result S :=
  match n with
  | O => Ok s
  | S n' => let* s' := body i s in loop n' (i + 1) body s'
  end.

(** [for k := lo; k < hi; k++]. *)
Definition for_lt {S} (lo hi : Z) (body : Z -> S -> result S) (s : S)
  : result S :=
  loop (Z.to_nat (hi - lo)) lo body s.

(** [for k := lo; k <= hi; k++]. *)
Definition for_le {S} (lo hi : Z) (body : Z -> S -> result S) (s : S)
  : result S :=
  loop (Z.to_nat (hi - lo + 1)) lo body s.

(** A loop that a [return] inside its body can leave: the body yields the
    next state, or the value returned. *)
Fixpoint loop_until {S E} (n : nat) (i : Z) (body : Z -> S -> result (S + E))
  (s : S) : result (S + E) :=
  match n with
  | O => Ok (inl s)
  | S n' =>
      let* r := body i s in
      match r with
      | inl s' => loop_until n' (i + 1) body s'
      | inr e => Ok (inr e)
      end
  end.

Definition for_lt_until {S E} (lo hi : Z) (body : Z -> S -> result (S + E))
  (s : S) : result (S + E) :=
  loop_until (Z.to_nat (hi - lo)) lo body s.

(** [make([][]T, n)] followed by [d[i] = make([]T, m)] for every [i]. *)
Definition make2 {A} (n m : Z) (zero : A) : result (list (list A)) :=
  let* d := make n [] in
  for_lt 0 (Z.of_nat (length d))
    (fun i d => let* row := make m zero in store d i row) d.

(** ** Machine integers *)

(** Go's [int] on a 64-bit target: the representative in [-2^63, 2^63). *)
Definition wrap64 (z : Z) : Z := (z + 2 ^ 63) mod 2 ^ 64 - 2 ^ 63.
Definition int_add (a b : Z) : Z := wrap64 (a + b).
Definition int_sub (a b : Z) : Z := wrap64 (a - b).
Definition int_mul (a b : Z) : Z := wrap64 (a * b).
Definition int_neg (a : Z) : Z := wrap64 (- a).

(** [uint16(v)] of an unsigned value. *)
Definition uint16 (v : Z) : Z := v mod 2 ^ 16.
(** [uint8(v)] of an integer value. *)
Definition uint8 (v : Z) : Z := v mod 2 ^ 8.

(** ** float64 *)

Module F64.

Definition t := float.

(** [float64(i)] for an [int] (or [uint8]) [i]: round to nearest even. *)
Definition of_int (i : Z) : float :=
  if i =? - 2 ^ 63 then (- 0x1p63)%float
  else if i <? 0 then PrimFloat.opp (of_uint63 (Uint63.of_Z (- i)))
  else of_uint63 (Uint63.of_Z i).

(** The integer part of a finite float, rounding toward zero. *)
Definition trunc (f : float) : option Z :=
  match Prim2SF f with
  | S754_zero _ => Some 0
  | S754_finite s m e =>
      let a := if (0 <=? e) then Z.shiftl (Z.pos m) e
               else Z.shiftr (Z.pos m) (- e) in
      Some (if s then - a else a)
  | S754_infinity _ | S754_nan => None
  end.

(** [int(f)]: truncation; for a NaN, an infinity or a value outside the
    [int] range the Go specification leaves the result to the
    implementation, and amd64 yields the smallest [int]. *)
Definition to_int (f : float) : Z :=
  match trunc f with
  | Some z => if (- 2 ^ 63 <=? z) && (z <? 2 ^ 63) then z else - 2 ^ 63
  | None => - 2 ^ 63
  end.

(** [uint8(f)]: truncation, then the low eight bits. *)
Definition to_uint8 (f : float) : Z := uint8 (to_int f).

(** [a > b]. *)
Definition gtb (a b : float) : bool := PrimFloat.ltb b a.

Definition is_pos_inf (f : float) : bool := PrimFloat.eqb f infinity.
Definition is_neg_inf (f : float) : bool := PrimFloat.eqb f neg_infinity.
Definition signbit (f : float) : bool := PrimFloat.get_sign f.

(** [math.Abs]. *)
Definition Abs (f : float) : float := PrimFloat.abs f.

(** [math.Max], with its special cases. *)
Definition Max (x y : float) : float :=
  if is_pos_inf x || is_pos_inf y then infinity
  else if PrimFloat.is_nan x || PrimFloat.is_nan y then nan
  else if PrimFloat.eqb x 0 && PrimFloat.eqb x y
       then (if signbit x then y else x)
  else if gtb x y then x else y.

(** [math.Min], with its special cases. *)
Definition Min (x y : float) : float :=
  if is_neg_inf x || is_neg_inf y then neg_infinity
  else if PrimFloat.is_nan x || PrimFloat.is_nan y then nan
  else if PrimFloat.eqb x 0 && PrimFloat.eqb x y
       then (if signbit x then x else y)
  else if PrimFloat.ltb x y then x else y.

End F64.

(** ** Byte strings *)

(** A Go [string] or [[]byte] holds bytes. *)
Abbreviation bytes := (list ascii).

Definition lit (s : string) : bytes := list_ascii_of_string s.
Definition nl : ascii := "010"%char.
Definition code (a : ascii) : Z := Z.of_N (N_of_ascii a).
Definition byte_of (z : Z) : ascii := ascii_of_N (Z.to_N (z mod 256)).

Definition bytes_eqb (a b : bytes) : bool :=
  String.eqb (string_of_list_ascii a) (string_of_list_ascii b).

(** *** Unicode white space

    [unicode.IsSpace], the [isSpace] of [bufio] and the space table of
    [fmt] agree: tab, newline, vertical tab, form feed, carriage return,
    space, U+0085, U+00A0, U+1680, U+2000..U+200A, U+2028, U+2029, U+202F,
    U+205F and U+3000.  [space_width s] is the length in bytes of the UTF-8
    encoding of such a rune at the head of [s], and [0] when [s] does not
    start with one. *)
Definition ascii_space (c : Z) : bool :=
  ((9 <=? c) && (c <=? 13)) || (c =? 32).

Definition space_width (s : bytes) : nat :=
  match map code (take 3 s) with
  | [] => O
  | c0 :: rest =>
      if ascii_space c0 then 1%nat
      else match rest with
           | c1 :: rest' =>
               if (c0 =? 194) && ((c1 =? 133) || (c1 =? 160)) then 2%nat
               else match rest' with
                    | c2 :: _ =>
                        if (c0 =? 225) && (c1 =? 154) && (c2 =? 128)
                        then 3%nat
                        else if (c0 =? 226) && (c1 =? 128)
                                && (((128 <=? c2) && (c2 <=? 138))
                                    || (c2 =? 168) || (c2 =? 169)
                                    || (c2 =? 175))
                        then 3%nat
                        else if (c0 =? 226) && (c1 =? 129) && (c2 =? 159)
                        then 3%nat
                        else if (c0 =? 227) && (c1 =? 128) && (c2 =? 128)
                        then 3%nat
                        else O
                    | [] => O
                    end
           | [] => O
           end
  end.

(** The same for a rune at the end of [s], as [utf8.DecodeLastRune] finds
    it. *)
Definition last_space_width (s : bytes) : nat :=
  let n := length s in
  if (1 <=? space_width (drop (n - 1) s))%nat then 1%nat
  else if (2 <=? n)%nat && (space_width (drop (n - 2) s) =? 2)%nat then 2%nat
  else if (3 <=? n)%nat && (space_width (drop (n - 3) s) =? 3)%nat then 3%nat
  else 0%nat.

(** *** package strings *)

Fixpoint trim_left (fuel : nat) (s : bytes) : bytes :=
  match fuel with
  | O => s
  | S fuel' =>
      match space_width s with
      | O => s
      | w => trim_left fuel' (drop w s)
      end
  end.

Fixpoint trim_right (fuel : nat) (s : bytes) : bytes :=
  match fuel with
  | O => s
  | S fuel' =>
      match last_space_width s with
      | O => s
      | w => trim_right fuel' (take (length s - w) s)
      end
  end.

(** [strings.TrimSpace]; every step removes at least one byte, so
    [length s] steps are enough. *)
Definition TrimSpace (s : bytes) : bytes :=
  let s := trim_left (length s) s in
  trim_right (length s) s.

(** [strings.Fields]: the maximal runs of bytes between white-space runes.
    [skip] counts the bytes of a white-space rune still to pass, [cur] is
    the field being read. *)
Fixpoint fields_from (s : bytes) (skip : nat) (cur : bytes) : list bytes :=
  match s with
  | [] => match cur with [] => [] | _ => [cur] end
  | a :: s' =>
      match skip with
      | S k => fields_from s' k cur
      | O =>
          match space_width s with
          | O => fields_from s' 0 (cur ++ [a])
          | S k => match cur with
                   | [] => fields_from s' k []
                   | _ => cur :: fields_from s' k []
                   end
          end
      end
  end.

Definition Fields (s : bytes) : list bytes := fields_from s 0 [].

(** [strings.Split(s, " ")]: cut at every space byte; never empty. *)
Fixpoint split_space (s : bytes) (cur : bytes) : list bytes :=
  match s with
  | [] => [cur]
  | a :: s' =>
      if code a =? 32 then cur :: split_space s' []
      else split_space s' (cur ++ [a])
  end.

Definition Split_space (s : bytes) : list bytes := split_space s [].

(** *** package strconv *)

Inductive NumError : Type :=
| ErrSyntax
| ErrRange.

Definition is_digit (a : ascii) : bool := (48 <=? code a) && (code a <=? 57).

(** The value of a non-empty string of decimal digits. *)
Definition digits_value (s : bytes) : option Z :=
  match s with
  | [] => None
  | _ => if forallb is_digit s
         then Some (fold_left (fun n a => 10 * n + (code a - 48)) s 0)
         else None
  end.

(** [strconv.ParseUint(s, 10, 8)]: the value and the error; an
    out-of-range value is reported as the largest [uint8]. *)
Definition ParseUint8 (s : bytes) : Z * option NumError :=
  match digits_value s with
  | None => (0, Some ErrSyntax)
  | Some n => if n <=? 255 then (n, None) else (255, Some ErrRange)
  end.

(** [strconv.ParseInt(s, 10, 64)] and [strconv.Atoi(s)] on a 64-bit target:
    an optional sign, then digits; an out-of-range value is reported as the
    nearest [int]. *)
Definition Atoi (s : bytes) : Z * option NumError :=
  let '(neg, ds) :=
    match s with
    | a :: s' => if code a =? 45 then (true, s')
                 else if code a =? 43 then (false, s')
                 else (false, s)
    | [] => (false, s)
    end in
  match digits_value ds with
  | None => (0, Some ErrSyntax)
  | Some n =>
      if neg then if n <=? 2 ^ 63 then (- n, None) else (- 2 ^ 63, Some ErrRange)
      else if n <? 2 ^ 63 then (n, None) else (2 ^ 63 - 1, Some ErrRange)
  end.

(** *** package fmt *)

(** The verbs [%d] and [%s]. *)
Definition fmt_d (z : Z) : bytes :=
  lit (NilZero.string_of_int (Z.to_int z)).

(** [SkipSpace] of a scan that does not treat newlines as space: white
    space is passed; a newline is an error ([None]). *)
Fixpoint skip_space (fuel : nat) (s : bytes) : option bytes :=
  match fuel with
  | O => Some s
  | S fuel' =>
      match s with
      | [] => Some s
      | a :: s' =>
          if (code a =? 13) && (match s' with
                                | b :: _ => code b =? 10
                                | [] => false
                                end)
          then skip_space fuel' s'
          else if code a =? 10 then None
          else match space_width s with
               | O => Some s
               | w => skip_space fuel' (drop w s)
               end
      end
  end.

(** The leading digits of [s], and what follows them. *)
Fixpoint span_digits (s : bytes) : bytes * bytes :=
  match s with
  | a :: s' =>
      if is_digit a
      then let '(ds, rest) := span_digits s' in (a :: ds, rest)
      else ([], s)
  | [] => ([], [])
  end.

(** The token of the verb [%d]: an optional sign and at least one digit;
    the rest of the input is returned with its value. *)
Definition scan_int (s : bytes) : option (Z * bytes) :=
  match skip_space (length s) s with
  | None => None
  | Some s =>
      let '(sign, s1) :=
        match s with
        | a :: s' => if (code a =? 43) || (code a =? 45) then ([a], s')
                     else ([], s)
        | [] => ([], s)
        end in
      let '(ds, rest) := span_digits s1 in
      match ds with
      | [] => None
      | _ => match Atoi (sign ++ ds) with
             | (n, None) => Some (n, rest)
             | (_, Some _) => None
             end
      end
  end.

(** [fmt.Sscanf(s, "%d %d", &a, &b)]: [None] stands for its error.  The
    space of the format asks for white space in the input (or its end). *)
Definition Sscanf_d_d (s : bytes) : option (Z * Z) :=
  match skip_space (length s) s with
  | None => None
  | Some s =>
      match scan_int s with
      | None => None
      | Some (a, s) =>
          match s with
          | c :: _ => if (space_width s =? 0)%nat || (code c =? 10) then None
                      else
                        match skip_space (length s) s with
                        | None => None
                        | Some s =>
                            match scan_int s with
                            | None => None
                            | Some (b, _) => Some (a, b)
                            end
                        end
          | [] => None
          end
      end
  end.

(** *** package bufio: Reader

    [bufio.NewReader(file)] keeps a buffer of 4096 bytes.  The model holds
    the bytes buffered and not yet consumed, and the bytes still in the
    file; the file delivers as many bytes as a read asks for until it is
    exhausted. *)

Module Reader.

Record t : Type := mk { buf : bytes; rd : bytes }.

Definition size : nat := 4096.

Definition NewReader (file : bytes) : t := mk [] file.

(** The bytes of [s] up to and including the first [delim]. *)
Fixpoint cut (delim : ascii) (s : bytes) : option (bytes * bytes) :=
  match s with
  | [] => None
  | a :: s' =>
      if Ascii.eqb a delim then Some ([a], s')
      else match cut delim s' with
           | Some (line, rest) => Some (a :: line, rest)
           | None => None
           end
  end.

(** [ReadString(delim)]: search the buffer; when the delimiter is not
    there, hand over a full buffer as a fragment or fill the buffer from
    the file, and search again; at the end of the file return what was
    read with [io.EOF] ([false]).  [frags] are the fragments so far. *)
Fixpoint read_string (fuel : nat) (delim : ascii) (frags : bytes) (b : t)
  : bytes * bool * t :=
  match cut delim (buf b) with
  | Some (line, rest) => (frags ++ line, true, mk rest (rd b))
  | None =>
      match fuel with
      | O => (frags ++ buf b, false, mk [] (rd b))
      | S fuel' =>
          match rd b with
          | [] => (frags ++ buf b, false, mk [] [])
          | _ =>
              if (size <=? length (buf b))%nat
              then read_string fuel' delim (frags ++ buf b) (mk [] (rd b))
              else
                let n := (size - length (buf b))%nat in
                read_string fuel' delim frags
                  (mk (buf b ++ take n (rd b)) (drop n (rd b)))
          end
      end
  end.

(** Every other step at least consumes a byte of the file. *)
Definition ReadString (delim : ascii) (b : t) : bytes * bool * t :=
  read_string (2 * length (rd b) + 2) delim [] b.

(** [Read(p)] with [len(p) = n]: the bytes come from the buffer, after at
    most one read of the file; fewer than [n] may be returned.  The result
    is the bytes read and whether the error is [nil]. *)
Definition Read (n : nat) (b : t) : bytes * bool * t :=
  match n with
  | O => ([], true, b)
  | _ =>
      match buf b with
      | [] =>
          match rd b with
          | [] => ([], false, b)
          | _ =>
              if (size <=? n)%nat
              then (take n (rd b), true, mk [] (drop n (rd b)))
              else
                let filled := take size (rd b) in
                (take n filled, true, mk (drop n filled) (drop size (rd b)))
          end
      | _ => (take n (buf b), true, mk (drop n (buf b)) (rd b))
      end
  end.

End Reader.

(** *** package bufio: Scanner

    A token must fit in the scanner's buffer, which grows to
    [MaxScanTokenSize] bytes and no further.  When it does not, [Scan]
    fails once with an empty token, the next [Scan] yields the bytes held in
    the buffer, and the scanner then stops for good. *)

Module Scanner.

Definition MaxScanTokenSize : nat := 65536.

Inductive mode : Type :=
| Running
| TooLong
| Stopped.

(** [text] is what [Text()] returns. *)
Record t : Type := mk { input : bytes; text : bytes; state : mode }.

Definition NewScanner (file : bytes) : t := mk file [] Running.

Definition Text (s : t) : bytes := text s.

Definition dropCR (line : bytes) : bytes :=
  match last line with
  | Some a => if code a =? 13 then take (length line - 1) line else line
  | None => line
  end.

(** The first line of [s] without its newline, and what follows it. *)
Fixpoint cut_line (s : bytes) : option (bytes * bytes) :=
  match s with
  | [] => None
  | a :: s' =>
      if code a =? 10 then Some ([], s')
      else match cut_line s' with
           | Some (line, rest) => Some (a :: line, rest)
           | None => None
           end
  end.

(** [Scan()] with the default split function [ScanLines]. *)
Definition ScanLine (s : t) : bool * t :=
  match state s with
  | Stopped => (false, mk (input s) [] Stopped)
  | TooLong =>
      (true, mk [] (dropCR (take MaxScanTokenSize (input s))) Stopped)
  | Running =>
      match input s with
      | [] => (false, mk [] [] Stopped)
      | _ =>
          let window := take MaxScanTokenSize (input s) in
          match cut_line window with
          | Some (line, _) =>
              (true, mk (drop (S (length line)) (input s)) (dropCR line)
                        Running)
          | None =>
              if (MaxScanTokenSize <=? length (input s))%nat
              then (false, mk (input s) [] TooLong)
              else (true, mk [] (dropCR (input s)) Running)
          end
      end
  end.

(** The bytes of [s] before its first white-space rune, and the offset
    just after that rune. *)
Fixpoint cut_word (s : bytes) (pos : nat) : option (nat * nat) :=
  match s with
  | [] => None
  | _ :: s' =>
      match space_width s with
      | O => cut_word s' (S pos)
      | w => Some (pos, (pos + w)%nat)
      end
  end.

(** [Scan()] after [Split(bufio.ScanWords)]: leading white space is
    consumed first. *)
Definition ScanWord (s : t) : bool * t :=
  match state s with
  | Stopped => (false, mk (input s) [] Stopped)
  | TooLong =>
      (true, mk [] (take MaxScanTokenSize (input s)) Stopped)
  | Running =>
      let inp := trim_left (length (input s)) (input s) in
      match inp with
      | [] => (false, mk [] [] Stopped)
      | _ =>
          match cut_word inp 0 with
          | Some (len, next) =>
              if (next <=? MaxScanTokenSize)%nat
              then (true, mk (drop next inp) (take len inp) Running)
              else (false, mk inp [] TooLong)
          | None =>
              if (MaxScanTokenSize <=? length inp)%nat
              then (false, mk inp [] TooLong)
              else (true, mk [] inp Running)
          end
      end
  end.

End Scanner.

(** ** The image types *)

(** [type Pixel struct { R, G, B uint8 }] *)
Record Pixel : Type := mkPixel { R : Z; G : Z; B : Z }.

(** [type Point struct { X, Y int }] *)
Record Point : Type := mkPoint { X : Z; Y : Z }.

Definition zeroPixel : Pixel := mkPixel 0 0 0.

(** The luminosity expression of [ToPGM] and [ToPBM]:
    [0.299*float64(R) + 0.587*float64(G) + 0.114*float64(B)], every product
    and sum rounded to binary64, summed left to right. *)
Definition luminosity (p : Pixel) : float :=
  (0.299 * F64.of_int (R p) + 0.587 * F64.of_int (G p)
   + 0.114 * F64.of_int (B p))%float.

(** ** Errors returned by the decoders *)

Inductive error : Type :=
| ErrReadingMagic                         (* error reading magic number *)
| ErrInvalidMagic (magic : bytes)         (* invalid magic number *)
| ErrReadingDimensions                    (* error reading dimensions *)
| ErrInvalidDimensions                    (* invalid dimensions *)
| ErrReadingData (y : Z)                  (* error reading data at line y *)
| ErrIndexOutOfRange (y : Z)              (* index out of range at line y *)
| ErrUnexpectedEOF (y : Z)                (* unexpected end of file at line y *)
| ErrShortRow (y expected got : Z)        (* ... expected e bytes, got n *)
| ErrNum (e : NumError) (token : bytes).  (* an error of strconv *)

(** What a decoder hands back: Go's pair of a pointer and an error. *)
Definition decoded (A : Type) : Type := (option A * option error)%type.

(** ** pbm.go: bitmaps *)

Module PBM.

(** [type PBM struct { data [][]bool; width, height int; magicNumber string }] *)
Record t : Type := mk {
  data : list (list bool);
  width : Z;
  height : Z;
  magicNumber : string
}.

Definition set_data (pbm : t) (d : list (list bool)) : t :=
  mk d (width pbm) (height pbm) (magicNumber pbm).

(** [func (pbm *PBM) Size() (int, int)] *)
Definition Size (pbm : t) : Z * Z := (width pbm, height pbm).

(** [func (pbm *PBM) At(x, y int) bool] *)
Definition At (pbm : t) (x y : Z) : result bool := index2 (data pbm) y x.

(** [func (pbm *PBM) Set(x, y int, value bool)] *)
Definition Set_ (pbm : t) (x y : Z) (value : bool) : result t :=
  let* d := store2 (data pbm) y x value in Ok (set_data pbm d).

(** [func (pbm *PBM) Invert()] *)
Definition Invert (pbm : t) : result t :=
  for_lt 0 (height pbm) (fun y pbm =>
    for_lt 0 (width pbm) (fun x pbm =>
      let* v := index2 (data pbm) y x in
      let* d := store2 (data pbm) y x (negb v) in
      Ok (set_data pbm d)) pbm) pbm.

(** [func (pbm *PBM) Flip()]: every row is mirrored, pair by pair. *)
Definition Flip (pbm : t) : result t :=
  for_lt 0 (height pbm) (fun y pbm =>
    for_lt 0 (Z.quot (width pbm) 2) (fun x pbm =>
      let* d := swap2 (data pbm) y x y (width pbm - x - 1) in
      Ok (set_data pbm d)) pbm) pbm.

(** [func (pbm *PBM) Flop()]: every column is mirrored, pair by pair. *)
Definition Flop (pbm : t) : result t :=
  for_lt 0 (width pbm) (fun x pbm =>
    for_lt 0 (Z.quot (height pbm) 2) (fun y pbm =>
      let* d := swap2 (data pbm) y x (height pbm - y - 1) x in
      Ok (set_data pbm d)) pbm) pbm.

(** [func (pbm *PBM) SetMagicNumber(magicNumber string)] *)
Definition SetMagicNumber (pbm : t) (m : string) : t :=
  mk (data pbm) (width pbm) (height pbm) m.

(** The two header lines of [Save]. *)
Definition header (pbm : t) : bytes :=
  lit (magicNumber pbm) ++ [nl]
  ++ fmt_d (width pbm) ++ lit " " ++ fmt_d (height pbm) ++ [nl].

(** The P1 branch of [Save]: ["1 "] or ["0 "] per sample, a newline per
    row. *)
Definition save_ascii (pbm : t) (out : bytes) : result bytes :=
  for_lt 0 (height pbm) (fun y out =>
    let* out :=
      for_lt 0 (width pbm) (fun x out =>
        let* v := index2 (data pbm) y x in
        Ok (out ++ (if v : bool then lit "1 " else lit "0 "))) out in
    Ok (out ++ lit "" ++ [nl])) out.

(** The P4 branch of [Save]: bits packed from the high end, a byte
    written when it is full or the row ends. *)
Definition save_binary (pbm : t) (out : bytes) : result bytes :=
  for_lt 0 (height pbm) (fun y out =>
    let* st :=
      for_lt 0 (width pbm) (fun x '(currentByte, out) =>
        let bitIndex := 7 - Z.rem x 8 in
        let* v := index2 (data pbm) y x in
        let bitValue := if v : bool then 1 else 0 in
        let currentByte :=
          Z.lor currentByte (uint8 (Z.shiftl bitValue bitIndex)) in
        if (Z.rem (x + 1) 8 =? 0) || (x =? width pbm - 1)
        then Ok (0, out ++ [byte_of currentByte])
        else Ok (currentByte, out)) (0, out) in
    Ok (snd st)) out.

(** [func (pbm *PBM) Save(filename string) error]: the bytes written to
    the file. *)
Definition Save (pbm : t) : result bytes :=
  let out := header pbm in
  if String.eqb (magicNumber pbm) "P1" then save_ascii pbm out
  else if String.eqb (magicNumber pbm) "P4" then save_binary pbm out
  else Ok out.

(** The grid invariant: [height] rows of [width] samples each. *)
Definition wf (pbm : t) : Prop :=
  0 <= width pbm /\ 0 <= height pbm /\
  length (data pbm) = Z.to_nat (height pbm) /\
  Forall (fun row => length row = Z.to_nat (width pbm)) (data pbm).

End PBM.

(** ** pgm.go: graymaps *)

Module PGM.

(** [type PGM struct { data [][]uint8; width, height int;
                       magicNumber string; max uint }] *)
Record t : Type := mk {
  data : list (list Z);
  width : Z;
  height : Z;
  magicNumber : string;
  max : Z
}.

Definition set_data (pgm : t) (d : list (list Z)) : t :=
  mk d (width pgm) (height pgm) (magicNumber pgm) (max pgm).

(** [func (pgm *PGM) Size() (int, int)] *)
Definition Size (pgm : t) : Z * Z := (width pgm, height pgm).

(** [func (pgm *PGM) Set(x, y int, value uint8)] *)
Definition Set_ (pgm : t) (x y : Z) (value : Z) : result t :=
  let* d := store2 (data pgm) y x value in Ok (set_data pgm d).

(** [func (pgm *PGM) Invert()]: [uint8(pgm.max) - pgm.data[i][j]], in
    [uint8] arithmetic. *)
Definition Invert (pgm : t) : result t :=
  for_lt 0 (height pgm) (fun i pgm =>
    for_lt 0 (width pgm) (fun j pgm =>
      let* v := index2 (data pgm) i j in
      let* d := store2 (data pgm) i j (uint8 (uint8 (max pgm) - v)) in
      Ok (set_data pgm d)) pgm) pgm.

(** [func (pgm *PGM) Flip()] *)
Definition Flip (pgm : t) : result t :=
  for_lt 0 (height pgm) (fun i pgm =>
    for_lt 0 (Z.quot (width pgm) 2) (fun j pgm =>
      let* d := swap2 (data pgm) i j i (width pgm - j - 1) in
      Ok (set_data pgm d)) pgm) pgm.

(** [func (pgm *PGM) Flop()] *)
Definition Flop (pgm : t) : result t :=
  for_lt 0 (Z.quot (height pgm) 2) (fun i pgm =>
    for_lt 0 (width pgm) (fun j pgm =>
      let* d := swap2 (data pgm) i j (height pgm - i - 1) j in
      Ok (set_data pgm d)) pgm) pgm.

(** [func (pgm *PGM) SetMagicNumber(magicNumber string)] *)
Definition SetMagicNumber (pgm : t) (m : string) : t :=
  mk (data pgm) (width pgm) (height pgm) m (max pgm).

(** [func (pgm *PGM) SetMaxValue(maxValue uint)] *)
Definition SetMaxValue (pgm : t) (maxValue : Z) : t :=
  mk (data pgm) (width pgm) (height pgm) (magicNumber pgm) maxValue.

(** [func (pgm *PGM) At(x, y int) uint8] *)
Definition At (pgm : t) (x y : Z) : result Z := index2 (data pgm) y x.

(** [func (pgm *PGM) Save(filename string) error]: the bytes written. *)
Definition Save (pgm : t) : result bytes :=
  let out :=
    lit (magicNumber pgm) ++ [nl]
    ++ fmt_d (width pgm) ++ lit " " ++ fmt_d (height pgm) ++ [nl]
    ++ fmt_d (max pgm) ++ [nl] in
  for_lt 0 (height pgm) (fun i out =>
    let* out :=
      for_lt 0 (width pgm) (fun j out =>
        let* v := index2 (data pgm) i j in
        Ok (out ++ fmt_d v ++ lit " ")) out in
    Ok (out ++ [nl])) out.

(** [func (pgm *PGM) Rotate90CW()] *)
Definition Rotate90CW (pgm : t) : result t :=
  let* rotatedData := make (width pgm) [] in
  let* rotatedData :=
    for_lt 0 (width pgm) (fun i rot =>
      let* row := make (height pgm) 0 in store rot i row) rotatedData in
  let* rotatedData :=
    for_lt 0 (width pgm) (fun i rot =>
      for_lt 0 (height pgm) (fun j rot =>
        let* v := index2 (data pgm) (height pgm - j - 1) i in
        store2 rot i j v) rot) rotatedData in
  Ok (mk rotatedData (height pgm) (width pgm) (magicNumber pgm) (max pgm)).

(** [func (pgm *PGM) ToPBM() *PBM] *)
Definition ToPBM (pgm : t) : result PBM.t :=
  let* pbmData := make (height pgm) [] in
  let* pbmData :=
    for_lt 0 (height pgm) (fun i d =>
      let* row := make (width pgm) false in
      let* d := store d i row in
      for_lt 0 (width pgm) (fun j d =>
        let* v := index2 (data pgm) i j in
        store2 d i j (uint16 (max pgm) / 2 <? uint16 v)) d) pbmData in
  Ok (PBM.mk pbmData (width pgm) (height pgm) "P4").

(** The grid invariant; [max] is a [uint]. *)
Definition wf (pgm : t) : Prop :=
  0 <= width pgm /\ 0 <= height pgm /\
  length (data pgm) = Z.to_nat (height pgm) /\
  Forall (fun row => length row = Z.to_nat (width pgm)) (data pgm).

(** Samples are [uint8] values. *)
Definition samples_uint8 (pgm : t) : Prop :=
  Forall (Forall (fun v => 0 <= v < 256)) (data pgm).

End PGM.

(** ** ppm.go: pixmaps *)

Module PPM.

(** [type PPM struct { data [][]Pixel; width, height int;
                       magicNumber string; max uint8 }] *)
Record t : Type := mk {
  data : list (list Pixel);
  width : Z;
  height : Z;
  magicNumber : string;
  max : Z
}.

Definition set_data (ppm : t) (d : list (list Pixel)) : t :=
  mk d (width ppm) (height ppm) (magicNumber ppm) (max ppm).

(** [func (ppm *PPM) At(x, y int) Pixel] *)
Definition At (ppm : t) (x y : Z) : result Pixel := index2 (data ppm) y x.

(** [func (ppm *PPM) Set(x, y int, value Pixel)]:
    [ppm.data[y][x] = value], with no bounds check of its own. *)
Definition Set_ (ppm : t) (x y : Z) (value : Pixel) : result t :=
  let* d := store2 (data ppm) y x value in Ok (set_data ppm d).

(** [func (ppm *PPM) Save(filename string) error]: the bytes written. *)
Definition Save (ppm : t) : result bytes :=
  let out :=
    lit (magicNumber ppm) ++ [nl]
    ++ fmt_d (width ppm) ++ lit " " ++ fmt_d (height ppm) ++ [nl]
    ++ fmt_d (max ppm) ++ [nl] in
  for_lt 0 (height ppm) (fun i out =>
    let* out :=
      for_lt 0 (width ppm) (fun j out =>
        let* p := index2 (data ppm) i j in
        Ok (out ++ fmt_d (R p) ++ lit " " ++ fmt_d (G p) ++ lit " "
                ++ fmt_d (B p) ++ lit " ")) out in
    Ok (out ++ [nl])) out.

(** [func (ppm *PPM) Rotate90CW()] *)
Definition Rotate90CW (ppm : t) : result t :=
  let* newData := make2 (width ppm) (height ppm) zeroPixel in
  let* newData :=
    for_lt 0 (height ppm) (fun i nd =>
      for_lt 0 (width ppm) (fun j nd =>
        let* v := index2 (data ppm) i j in
        store2 nd j (height ppm - 1 - i) v) nd) newData in
  Ok (mk newData (height ppm) (width ppm) (magicNumber ppm) (max ppm)).

(** [func (ppm *PPM) ToPGM() *PGM] *)
Definition ToPGM (ppm : t) : result PGM.t :=
  let* pgmData := make (height ppm) [] in
  let* pgmData :=
    for_lt 0 (Z.of_nat (length pgmData)) (fun i d =>
      let* row := make (width ppm) 0 in
      let* d := store d i row in
      for_lt 0 (width ppm) (fun j d =>
        let* p := index2 (data ppm) i j in
        store2 d i j (F64.to_uint8 (luminosity p))) d) pgmData in
  Ok (PGM.mk pgmData (width ppm) (height ppm) "P2" (max ppm)).

(** [func (ppm *PPM) ToPBM() *PBM] *)
Definition ToPBM (ppm : t) : result PBM.t :=
  let* pbmData := make (height ppm) [] in
  let* pbmData :=
    for_lt 0 (Z.of_nat (length pbmData)) (fun i d =>
      let* row := make (width ppm) false in
      let* d := store d i row in
      for_lt 0 (width ppm) (fun j d =>
        let* p := index2 (data ppm) i j in
        store2 d i j (F64.gtb (luminosity p) 128)) d) pbmData in
  Ok (PBM.mk pbmData (width ppm) (height ppm) "P1").

(** [func (ppm *PPM) DrawLine(p1, p2 Point, color Pixel)] *)
Definition DrawLine (ppm : t) (p1 p2 : Point) (color : Pixel) : result t :=
  let deltaX := int_sub (X p2) (X p1) in
  let deltaY := int_sub (Y p2) (Y p1) in
  let steps :=
    F64.to_int (F64.Max (F64.Abs (F64.of_int deltaX))
                        (F64.Abs (F64.of_int deltaY))) in
  let xIncrement := (F64.of_int deltaX / F64.of_int steps)%float in
  let yIncrement := (F64.of_int deltaY / F64.of_int steps)%float in
  let x := F64.of_int (X p1) in
  let y := F64.of_int (Y p1) in
  let* st :=
    for_le 0 steps (fun _ '(ppm, (x, y)) =>
      let* ppm := Set_ ppm (F64.to_int x) (F64.to_int y) color in
      Ok (ppm, ((x + xIncrement)%float, (y + yIncrement)%float)))
      (ppm, (x, y)) in
  Ok (fst st).

(** [func (ppm *PPM) DrawRectangle(p1 Point, width, height int, color Pixel)] *)
Definition DrawRectangle (ppm : t) (p1 : Point) (width height : Z)
    (color : Pixel) : result t :=
  let p2 := mkPoint (int_add (X p1) width) (Y p1) in
  let p3 := mkPoint (int_add (X p1) width) (int_add (Y p1) height) in
  let p4 := mkPoint (X p1) (int_add (Y p1) height) in
  let* ppm := DrawLine ppm p1 p2 color in
  let* ppm := DrawLine ppm p2 p3 color in
  let* ppm := DrawLine ppm p3 p4 color in
  DrawLine ppm p4 p1 color.

(** [func (ppm *PPM) DrawFilledRectangle(p1 Point, width, height int, color Pixel)] *)
Definition DrawFilledRectangle (ppm : t) (p1 : Point) (width height : Z)
    (color : Pixel) : result t :=
  for_lt 0 height (fun i ppm =>
    for_lt 0 width (fun j ppm =>
      Set_ ppm (int_add (X p1) j) (int_add (Y p1) i) color) ppm) ppm.

(** [func (ppm *PPM) DrawCircle(center Point, radius int, color Pixel)] *)
Definition DrawCircle (ppm : t) (center : Point) (radius : Z)
    (color : Pixel) : result t :=
  for_le (int_neg radius) radius (fun x ppm =>
    for_le (int_neg radius) radius (fun y ppm =>
      if int_add (int_mul x x) (int_mul y y) <=? int_mul radius radius
      then Set_ ppm (int_add (X center) x) (int_add (Y center) y) color
      else Ok ppm) ppm) ppm.


(** [func (ppm *PPM) DrawTriangle(p1, p2, p3 Point, color Pixel)] *)
Definition DrawTriangle (ppm : t) (p1 p2 p3 : Point) (color : Pixel)
  : result t :=
  let* ppm := DrawLine ppm p1 p2 color in
  let* ppm := DrawLine ppm p2 p3 color in
  DrawLine ppm p3 p1 color.

(** [sort.Slice(vertices, func(i, j int) bool { return vertices[i].Y <
    vertices[j].Y })] on three elements: below twelve elements the
    library sorts by insertion. *)
Definition insert_by_Y (p : Point) (sorted : list Point) : list Point :=
  (fix ins (l : list Point) : list Point :=
     match l with
     | [] => [p]
     | q :: l' => if Y p <? Y q then q :: ins l' else p :: q :: l'
     end) sorted.

(** Insertion sort as the library runs it: element [i] sinks below its
    left neighbours while it is strictly smaller.  [rev_prefix] holds the
    sorted prefix, largest first. *)
Fixpoint insertion_sort (rev_prefix rest : list Point) : list Point :=
  match rest with
  | [] => rev rev_prefix
  | p :: rest' => insertion_sort (insert_by_Y p rev_prefix) rest'
  end.

Definition sort_by_Y (vertices : list Point) : list Point :=
  insertion_sort [] vertices.

(** One scan pass of [DrawFilledTriangle]: rows [ylo..yhi], the two edge
    abscissas advancing by their slopes. *)
Definition fill_rows (ppm : t) (ylo yhi : Z) (x1 x2 s1 s2 : float)
    (color : Pixel) : result (t * (float * float)) :=
  for_le ylo yhi (fun y '(ppm, (x1, x2)) =>
    let* ppm :=
      for_le (F64.to_int (F64.Min x1 x2)) (F64.to_int (F64.Max x1 x2))
        (fun x ppm => Set_ ppm x y color) ppm in
    Ok (ppm, ((x1 + s1)%float, (x2 + s2)%float)))
    (ppm, (x1, x2)).

(** [func (ppm *PPM) DrawFilledTriangle(p1, p2, p3 Point, color Pixel)] *)
Definition DrawFilledTriangle (ppm : t) (p1 p2 p3 : Point) (color : Pixel)
  : result t :=
  let vertices := sort_by_Y [p1; p2; p3] in
  let* v0 := index vertices 0 in
  let* v1 := index vertices 1 in
  let* v2 := index vertices 2 in
  let slope1 := (F64.of_int (int_sub (X v1) (X v0))
                 / F64.of_int (int_sub (Y v1) (Y v0)))%float in
  let slope2 := (F64.of_int (int_sub (X v2) (X v0))
                 / F64.of_int (int_sub (Y v2) (Y v0)))%float in
  let x1 := F64.of_int (X v0) in
  let x2 := F64.of_int (X v0) in
  let* (ppm, (_, x2)) :=
    fill_rows ppm (Y v0) (Y v1) x1 x2 slope1 slope2 color in
  let slope3 := (F64.of_int (int_sub (X v2) (X v1))
                 / F64.of_int (int_sub (Y v2) (Y v1)))%float in
  let x1 := F64.of_int (X v1) in
  let* st :=
    fill_rows ppm (int_add (Y v1) 1) (Y v2) x1 x2 slope3 slope2 color in
  Ok (fst st).

(** [func (ppm *PPM) DrawPolygon(points []Point, color Pixel)] *)
Definition DrawPolygon (ppm : t) (points : list Point) (color : Pixel)
  : result t :=
  let n := Z.of_nat (length points) in
  for_lt 0 n (fun i ppm =>
    let* p1 := index points i in
    let* p2 := index points (Z.rem (i + 1) n) in
    DrawLine ppm p1 p2 color) ppm.

(** The bounding box of [DrawFilledPolygon]:
    [(minX, minY, maxX, maxY)], started at [points[0]]. *)
Definition bounding_box (points : list Point) : result (Z * Z * Z * Z) :=
  let* p0 := index points 0 in
  Ok (fold_left (fun '(minX, minY, maxX, maxY) p =>
        let minX := if X p <? minX then X p else minX in
        let maxX := if maxX <? X p then X p else maxX in
        let minY := if Y p <? minY then Y p else minY in
        let maxY := if maxY <? Y p then Y p else maxY in
        (minX, minY, maxX, maxY))
      points (X p0, Y p0, X p0, Y p0)).

(** The edge pass of [DrawFilledPolygon]: one abscissa per row, the last
    edge that crosses a row overwriting the earlier ones. *)
Definition edge_intersections (points : list Point) (minY maxY : Z)
  : result (list Z) :=
  let n := Z.of_nat (length points) in
  let* intersections := make (int_add (int_sub maxY minY) 1) 0 in
  for_lt 0 n (fun i intersections =>
    let* p1 := index points i in
    let* p2 := index points (Z.rem (i + 1) n) in
    let yMin := F64.to_int (F64.Min (F64.of_int (Y p1)) (F64.of_int (Y p2))) in
    let yMax := F64.to_int (F64.Max (F64.of_int (Y p1)) (F64.of_int (Y p2))) in
    if yMin =? yMax then Ok intersections
    else
      for_le yMin yMax (fun y intersections =>
        let xIntersection :=
          F64.to_int
            (F64.of_int (X p1)
             + F64.of_int (int_sub y yMin)
               * (F64.of_int (X p2) - F64.of_int (X p1))
               / (F64.of_int (Y p2) - F64.of_int (Y p1)))%float in
        store intersections (int_sub y minY) xIntersection) intersections)
    intersections.

(** [func (ppm *PPM) DrawFilledPolygon(points []Point, color Pixel)] *)
Definition DrawFilledPolygon (ppm : t) (points : list Point) (color : Pixel)
  : result t :=
  let* (minX, minY, maxX, maxY) := bounding_box points in
  let* intersections := edge_intersections points minY maxY in
  for_le 0 (int_sub maxY minY) (fun y ppm =>
    let* xi := index intersections y in
    if xi =? 0 then Ok ppm
    else
      for_le xi (int_sub maxX minX) (fun x ppm =>
        Set_ ppm (int_add x minX) (int_add y minY) color) ppm) ppm.

(** [func (ppm *PPM) Size() (int, int)] *)
Definition Size (ppm : t) : Z * Z := (width ppm, height ppm).

(** [func (ppm *PPM) Invert()]: three assignments per pixel, one per
    channel, each [ppm.max - channel] in [uint8] arithmetic. *)
Definition Invert (ppm : t) : result t :=
  for_lt 0 (height ppm) (fun i ppm =>
    for_lt 0 (width ppm) (fun j ppm =>
      let* p := index2 (data ppm) i j in
      let* d := store2 (data ppm) i j
                  (mkPixel (uint8 (max ppm - R p)) (G p) (B p)) in
      let ppm := set_data ppm d in
      let* p := index2 (data ppm) i j in
      let* d := store2 (data ppm) i j
                  (mkPixel (R p) (uint8 (max ppm - G p)) (B p)) in
      let ppm := set_data ppm d in
      let* p := index2 (data ppm) i j in
      let* d := store2 (data ppm) i j
                  (mkPixel (R p) (G p) (uint8 (max ppm - B p))) in
      Ok (set_data ppm d)) ppm) ppm.

(** [func (ppm *PPM) Flip()] *)
Definition Flip (ppm : t) : result t :=
  for_lt 0 (height ppm) (fun i ppm =>
    for_lt 0 (Z.quot (width ppm) 2) (fun j ppm =>
      let* d := swap2 (data ppm) i j i (width ppm - 1 - j) in
      Ok (set_data ppm d)) ppm) ppm.

(** [func (ppm *PPM) Flop()]: whole rows are exchanged. *)
Definition Flop (ppm : t) : result t :=
  for_lt 0 (Z.quot (height ppm) 2) (fun i ppm =>
    let* d := swap (data ppm) i (height ppm - 1 - i) in
    Ok (set_data ppm d)) ppm.

(** [func (ppm *PPM) SetMagicNumber(magicNumber string)] *)
Definition SetMagicNumber (ppm : t) (m : string) : t :=
  mk (data ppm) (width ppm) (height ppm) m (max ppm).

(** [func (ppm *PPM) SetMaxValue(maxValue uint8)] *)
Definition SetMaxValue (ppm : t) (maxValue : Z) : t :=
  mk (data ppm) (width ppm) (height ppm) (magicNumber ppm) maxValue.

(** The grid invariant: [height] rows of [width] pixels, both [int]s. *)
Definition wf (ppm : t) : Prop :=
  0 <= width ppm /\ 0 <= height ppm /\
  length (data ppm) = Z.to_nat (height ppm) /\
  Forall (fun row => length row = Z.to_nat (width ppm)) (data ppm).

End PPM.

(** ** The decoders *)

(** The body of the row loop of [ReadPBM] for P1: one line per row; its
    fields are the samples. *)
Definition read_ascii_row (width : Z) (y : Z)
  (st : Reader.t * list (list bool))
  : result (Reader.t * list (list bool) + error) :=
  let '(reader, data) := st in
  let '(line, ok, reader) := Reader.ReadString nl reader in
  if negb ok then Ok (inr (ErrReadingData y)) else
  let fields := Fields line in
  let* r :=
    for_lt_until 0 (Z.of_nat (length fields)) (fun x data =>
      let* field := index fields x in
      if width <=? x then Ok (inr (ErrIndexOutOfRange y)) else
      let* data := store2 data y x (bytes_eqb field (lit "1")) in
      Ok (inl data)) data in
  match r with
  | inl data => Ok (inl (reader, data))
  | inr e => Ok (inr e)
  end.

(** The body of the row loop of [ReadPBM] for P4: one [Read] per row, then
    the bits from the high end of each byte. *)
Definition read_binary_row (width expectedBytesPerRow : Z) (y : Z)
  (st : Reader.t * list (list bool))
  : result (Reader.t * list (list bool) + error) :=
  let '(reader, data) := st in
  let* row := make expectedBytesPerRow "000"%char in
  let '(got, ok, reader) :=
    Reader.Read (Z.to_nat expectedBytesPerRow) reader in
  let n := Z.of_nat (length got) in
  let row := got ++ drop (length got) row in
  if negb ok then Ok (inr (ErrUnexpectedEOF y)) else
  if n <? expectedBytesPerRow
  then Ok (inr (ErrShortRow y expectedBytesPerRow n)) else
  let* data :=
    for_lt 0 width (fun x data =>
      let byteIndex := Z.quot x 8 in
      let bitIndex := 7 - Z.rem x 8 in
      let* b := index row byteIndex in
      let decimalValue := code b in
      let bitValue := Z.land (Z.shiftr decimalValue bitIndex) 1 in
      store2 data y x (negb (bitValue =? 0))) data in
  Ok (inl (reader, data)).

(** [func ReadPBM(filename string)], returning a [PBM] pointer and an
    [error], from the bytes of the opened file. *)
Definition ReadPBM (file : bytes) : result (decoded PBM.t) :=
  let reader := Reader.NewReader file in
  let '(magicNumber, ok, reader) := Reader.ReadString nl reader in
  if negb ok then Ok (None, Some ErrReadingMagic) else
  let magicNumber := TrimSpace magicNumber in
  if negb (bytes_eqb magicNumber (lit "P1"))
     && negb (bytes_eqb magicNumber (lit "P4"))
  then Ok (None, Some (ErrInvalidMagic magicNumber)) else
  let '(dimensions, ok, reader) := Reader.ReadString nl reader in
  if negb ok then Ok (None, Some ErrReadingDimensions) else
  match Sscanf_d_d (TrimSpace dimensions) with
  | None => Ok (None, Some ErrInvalidDimensions)
  | Some (width, height) =>
      let* data := make2 height width false in
      let* r :=
        if bytes_eqb magicNumber (lit "P1") then
          for_lt_until 0 height (read_ascii_row width) (reader, data)
        else if bytes_eqb magicNumber (lit "P4") then
          let expectedBytesPerRow := Z.quot (int_add width 7) 8 in
          for_lt_until 0 height (read_binary_row width expectedBytesPerRow)
            (reader, data)
        else Ok (inl (reader, data)) in
      match r with
      | inl (_, data) =>
          Ok (Some (PBM.mk data width height (string_of_list_ascii magicNumber)),
              None)
      | inr e => Ok (None, Some e)
      end
  end.

(** [func ReadPGM(filename string)], returning a [PGM] pointer and an
    [error]. *)
Definition ReadPGM (file : bytes) : result (decoded PGM.t) :=
  let scanner := Scanner.NewScanner file in
  let '(_, scanner) := Scanner.ScanLine scanner in
  let magicNumber := TrimSpace (Scanner.Text scanner) in
  let '(_, scanner) := Scanner.ScanLine scanner in
  let sizeLine := Split_space (TrimSpace (Scanner.Text scanner)) in
  let* w := index sizeLine 0 in
  match Atoi w with
  | (_, Some e) => Ok (None, Some (ErrNum e w))
  | (width, None) =>
      let* h := index sizeLine 1 in
      match Atoi h with
      | (_, Some e) => Ok (None, Some (ErrNum e h))
      | (height, None) =>
          let '(_, scanner) := Scanner.ScanLine scanner in
          let m := TrimSpace (Scanner.Text scanner) in
          match Atoi m with
          | (_, Some e) => Ok (None, Some (ErrNum e m))
          | (maxValue, None) =>
              let* data := make height [] in
              let* r :=
                for_lt_until 0 height (fun i '(scanner, data) =>
                  let* fresh := make width 0 in
                  let* data := store data i fresh in
                  let '(_, scanner) := Scanner.ScanLine scanner in
                  let row := Fields (Scanner.Text scanner) in
                  let* r :=
                    for_lt_until 0 width (fun j data =>
                      let* tok := index row j in
                      match ParseUint8 tok with
                      | (_, Some e) => Ok (inr (ErrNum e tok))
                      | (value, None) =>
                          let* data := store2 data i j (uint8 value) in
                          Ok (inl data)
                      end) data in
                  match r with
                  | inl data => Ok (inl (scanner, data))
                  | inr e => Ok (inr e)
                  end) (scanner, data) in
              match r with
              | inl (_, data) =>
                  Ok (Some (PGM.mk data width height
                              (string_of_list_ascii magicNumber)
                              (maxValue mod 2 ^ 64)),
                      None)
              | inr e => Ok (None, Some e)
              end
          end
      end
  end.

(** [func ReadPPM(filename string)], returning a [PPM] pointer and an
    [error]: every conversion error is discarded ([_]); only the value is
    kept. *)
Definition ReadPPM (file : bytes) : result (decoded PPM.t) :=
  let scanner := Scanner.NewScanner file in
  let '(_, scanner) := Scanner.ScanWord scanner in
  let magicNumber := Scanner.Text scanner in
  let '(_, scanner) := Scanner.ScanWord scanner in
  let width := fst (Atoi (Scanner.Text scanner)) in
  let '(_, scanner) := Scanner.ScanWord scanner in
  let height := fst (Atoi (Scanner.Text scanner)) in
  let '(_, scanner) := Scanner.ScanWord scanner in
  let maxValue := fst (Atoi (Scanner.Text scanner)) in
  let max := uint8 maxValue in
  let* data := make2 height width zeroPixel in
  let* st :=
    for_lt 0 height (fun i st =>
      for_lt 0 width (fun j '(scanner, data) =>
        let '(_, scanner) := Scanner.ScanWord scanner in
        let r := fst (ParseUint8 (Scanner.Text scanner)) in
        let '(_, scanner) := Scanner.ScanWord scanner in
        let g := fst (ParseUint8 (Scanner.Text scanner)) in
        let '(_, scanner) := Scanner.ScanWord scanner in
        let b := fst (ParseUint8 (Scanner.Text scanner)) in
        let* data := store2 data i j (mkPixel r g b) in
        Ok (scanner, data)) st) (scanner, data) in
  Ok (Some (PPM.mk (snd st) width height (string_of_list_ascii magicNumber) max),
      None).

(** ** Grids seen cell by cell *)

(** [d] has [h] rows of [w] samples. *)
Definition shape {A} (d : list (list A)) (h w : nat) : Prop :=
  length d = h /\ Forall (fun row => length row = w) d.

(** The sample in row [y], column [x], when there is one. *)
Definition cell {A} (d : list (list A)) (y x : nat) : option A :=
  match d !! y with
  | Some row => row !! x
  | None => None
  end.

(** [d] with the sample at row [y], column [x] replaced. *)
Definition set_cell {A} (d : list (list A)) (y x : nat) (v : A)
  : list (list A) :=
  alter (fun row => <[x := v]> row) y d.




(** ** The pixels a drawing operation visits

    No drawing operation reads the grid: each is a sequence of [Set] calls
    whose coordinates depend on the geometry alone.  The functions below
    list those coordinates, in the order of the calls. *)

(** [ppm.Set(p.X, p.Y, color)] for every point of [pts], in order. *)
Fixpoint draw_points (ppm : PPM.t) (pts : list Point) (color : Pixel)
  : result PPM.t :=
  match pts with
  | [] => Ok ppm
  | p :: pts' =>
      let* ppm := PPM.Set_ ppm (X p) (Y p) color in
      draw_points ppm pts' color
  end.

Definition in_bounds (ppm : PPM.t) (p : Point) : Prop :=
  0 <= X p < PPM.width ppm /\ 0 <= Y p < PPM.height ppm.

(** The counter values of [n] iterations starting at [lo]. *)
Fixpoint counters (n : nat) (lo : Z) : list Z :=
  match n with
  | O => []
  | S n' => lo :: counters n' (lo + 1)
  end.

Definition range_lt (lo hi : Z) : list Z := counters (Z.to_nat (hi - lo)) lo.
Definition range_le (lo hi : Z) : list Z :=
  counters (Z.to_nat (hi - lo + 1)) lo.

(** The lists [f a], for [a] in [l], one after the other; a panic of one
    [f a] is a panic of the whole. *)
Fixpoint collect {A B} (f : A -> result (list B)) (l : list A)
  : result (list B) :=
  match l with
  | [] => Ok []
  | a :: l' =>
      let* b := f a in
      let* bs := collect f l' in
      Ok (b ++ bs)
  end.

(** The sample points of [DrawLine]'s loop. *)
Fixpoint line_walk (n : nat) (x y xIncrement yIncrement : float)
  : list Point :=
  match n with
  | O => []
  | S n' =>
      mkPoint (F64.to_int x) (F64.to_int y)
      :: line_walk n' (x + xIncrement)%float (y + yIncrement)%float
           xIncrement yIncrement
  end.

Definition line_points (p1 p2 : Point) : list Point :=
  let deltaX := int_sub (X p2) (X p1) in
  let deltaY := int_sub (Y p2) (Y p1) in
  let steps :=
    F64.to_int (F64.Max (F64.Abs (F64.of_int deltaX))
                        (F64.Abs (F64.of_int deltaY))) in
  line_walk (Z.to_nat (steps - 0 + 1)) (F64.of_int (X p1)) (F64.of_int (Y p1))
    (F64.of_int deltaX / F64.of_int steps)%float
    (F64.of_int deltaY / F64.of_int steps)%float.

Definition rectangle_points (p1 : Point) (width height : Z) : list Point :=
  let p2 := mkPoint (int_add (X p1) width) (Y p1) in
  let p3 := mkPoint (int_add (X p1) width) (int_add (Y p1) height) in
  let p4 := mkPoint (X p1) (int_add (Y p1) height) in
  line_points p1 p2 ++ line_points p2 p3 ++ line_points p3 p4
  ++ line_points p4 p1.

Definition filled_rectangle_points (p1 : Point) (width height : Z)
  : list Point :=
  i ← range_lt 0 height;
  j ← range_lt 0 width;
  [mkPoint (int_add (X p1) j) (int_add (Y p1) i)].

Definition circle_points (center : Point) (radius : Z) : list Point :=
  x ← range_le (int_neg radius) radius;
  y ← range_le (int_neg radius) radius;
  if int_add (int_mul x x) (int_mul y y) <=? int_mul radius radius
  then [mkPoint (int_add (X center) x) (int_add (Y center) y)]
  else [].

Definition triangle_points (p1 p2 p3 : Point) : list Point :=
  line_points p1 p2 ++ line_points p2 p3 ++ line_points p3 p1.

(** The pixels of one scan pass of [DrawFilledTriangle], with the edge
    abscissas it leaves behind. *)
Fixpoint rows_walk (n : nat) (y : Z) (x1 x2 s1 s2 : float)
  : list Point * (float * float) :=
  match n with
  | O => ([], (x1, x2))
  | S n' =>
      let row :=
        (fun x => mkPoint x y)
        <$> range_le (F64.to_int (F64.Min x1 x2))
              (F64.to_int (F64.Max x1 x2)) in
      let '(rest, xs) :=
        rows_walk n' (y + 1) (x1 + s1)%float (x2 + s2)%float s1 s2 in
      (row ++ rest, xs)
  end.

Definition filled_triangle_points (p1 p2 p3 : Point) : result (list Point) :=
  let vertices := PPM.sort_by_Y [p1; p2; p3] in
  let* v0 := index vertices 0 in
  let* v1 := index vertices 1 in
  let* v2 := index vertices 2 in
  let slope1 := (F64.of_int (int_sub (X v1) (X v0))
                 / F64.of_int (int_sub (Y v1) (Y v0)))%float in
  let slope2 := (F64.of_int (int_sub (X v2) (X v0))
                 / F64.of_int (int_sub (Y v2) (Y v0)))%float in
  let '(top, (_, x2)) :=
    rows_walk (Z.to_nat (Y v1 - Y v0 + 1)) (Y v0)
      (F64.of_int (X v0)) (F64.of_int (X v0)) slope1 slope2 in
  let slope3 := (F64.of_int (int_sub (X v2) (X v1))
                 / F64.of_int (int_sub (Y v2) (Y v1)))%float in
  let '(bottom, _) :=
    rows_walk (Z.to_nat (Y v2 - int_add (Y v1) 1 + 1)) (int_add (Y v1) 1)
      (F64.of_int (X v1)) x2 slope3 slope2 in
  Ok (top ++ bottom).

Definition polygon_points (points : list Point) : result (list Point) :=
  let n := Z.of_nat (length points) in
  collect (fun i =>
    let* p1 := index points i in
    let* p2 := index points (Z.rem (i + 1) n) in
    Ok (line_points p1 p2)) (range_lt 0 n).

Definition filled_polygon_points (points : list Point)
  : result (list Point) :=
  let* (minX, minY, maxX, maxY) := PPM.bounding_box points in
  let* intersections := PPM.edge_intersections points minY maxY in
  collect (fun y =>
    let* xi := index intersections y in
    if xi =? 0 then Ok []
    else Ok ((fun x => mkPoint (int_add x minX) (int_add y minY))
             <$> range_le xi (int_sub maxX minX)))
    (range_le 0 (int_sub maxY minY)).

#[global] Instance Point_eq_dec : EqDecision Point.
Proof. solve_decision. Defined.

#[global] Instance byte_eq_dec : EqDecision ascii := Ascii.ascii_dec.

(** The offsets the circle operations colour: inside the bounding square of
    side [2*radius+1] and within the radius. *)
Definition in_disc (radius dx dy : Z) : Prop :=
  - radius <= dx <= radius /\ - radius <= dy <= radius /\
  dx * dx + dy * dy <= radius * radius.

#[global] Instance in_disc_dec radius dx dy : Decision (in_disc radius dx dy).
Proof. unfold in_disc. apply _. Defined.

(** ** Reading the decoders *)

(** The unread part of the stream: buffered bytes, then the file. *)
Definition unread (b : Reader.t) : bytes := Reader.buf b ++ Reader.rd b.

(** What is left to do before the file is exhausted. *)
Definition reader_measure (b : Reader.t) : nat :=
  (2 * length (Reader.rd b)
   + (if (Reader.size <=? length (Reader.buf b))%nat then 1 else 0))%nat.


(** The two magic numbers [ReadPBM] accepts. *)
Definition bitmap_magic (m : bytes) : Prop := m = lit "P1" \/ m = lit "P4".


(** ** Grids rearranged in place *)

(** [d'] is [d] with the cells of the region [D] taken from where [sigma]
    says, and the other cells untouched. *)
Definition moved {A} (sigma : Z -> Z -> Z * Z) (D : Z -> Z -> Prop)
  (h w : Z) (d d' : list (list A)) : Prop :=
  shape d' (Z.to_nat h) (Z.to_nat w) /\
  forall r c, 0 <= r < h -> 0 <= c < w ->
    (D r c ->
     cell d' (Z.to_nat r) (Z.to_nat c)
     = cell d (Z.to_nat (sigma r c).1) (Z.to_nat (sigma r c).2)) /\
    (~ D r c ->
     cell d' (Z.to_nat r) (Z.to_nat c) = cell d (Z.to_nat r) (Z.to_nat c)).

(** ** Decimal numerals *)

(** The value of the decimal digits [d] read after a prefix of value
    [acc]. *)
Fixpoint uint_value (d : Decimal.uint) (acc : Z) : Z :=
  match d with
  | Decimal.Nil => acc
  | Decimal.D0 l => uint_value l (10 * acc + 0)
  | Decimal.D1 l => uint_value l (10 * acc + 1)
  | Decimal.D2 l => uint_value l (10 * acc + 2)
  | Decimal.D3 l => uint_value l (10 * acc + 3)
  | Decimal.D4 l => uint_value l (10 * acc + 4)
  | Decimal.D5 l => uint_value l (10 * acc + 5)
  | Decimal.D6 l => uint_value l (10 * acc + 6)
  | Decimal.D7 l => uint_value l (10 * acc + 7)
  | Decimal.D8 l => uint_value l (10 * acc + 8)
  | Decimal.D9 l => uint_value l (10 * acc + 9)
  end.

(** A numeral as [fmt] prints it: at least one byte, all of them digits. *)
Definition numeral (s : bytes) : Prop := s <> [] /\ forallb is_digit s = true.

(** A byte of a word: ASCII, printable, not white space. *)
Definition plain (a : ascii) : Prop := 33 <= code a < 128.

(** ** The text of the ASCII encodings *)

(** The rows as the ASCII encoders write them: the text of every sample,
    and a newline after every row. *)
Definition ascii_rows {A} (f : A -> bytes) (d : list (list A)) : bytes :=
  concat (map (fun row => concat (map f row) ++ [nl]) d).

(** A sample of a bitmap, of a graymap and of a pixmap, each number
    followed by one space. *)
Definition bit_text (v : bool) : bytes := if v then lit "1 " else lit "0 ".
Definition sample_text (v : Z) : bytes := fmt_d v ++ lit " ".
Definition pixel_text (p : Pixel) : bytes :=
  fmt_d (R p) ++ lit " " ++ fmt_d (G p) ++ lit " " ++ fmt_d (B p) ++ lit " ".

(** ** Streams of words *)

(** Every byte of [s] is ASCII white space. *)
Definition spaces (s : bytes) : Prop :=
  Forall (fun a => ascii_space (code a) = true) s.

(** [words s ts]: the stream [s] holds the words [ts], each followed by a
    white-space byte, with any white space before them. *)
Inductive words : bytes -> list bytes -> Prop :=
| words_nil s : spaces s -> words s []
| words_cons ws tok c rest ts :
    spaces ws -> tok <> [] -> Forall plain tok ->
    ascii_space (code c) = true ->
    words rest ts ->
    words (ws ++ tok ++ c :: rest) (tok :: ts).

(** The three words of a pixel, and the pixels whose channels are
    [uint8] values. *)
Definition pixel_words (p : Pixel) : list bytes :=
  [fmt_d (R p); fmt_d (G p); fmt_d (B p)].

Definition uint8_pixel (p : Pixel) : Prop :=
  0 <= R p < 256 /\ 0 <= G p < 256 /\ 0 <= B p < 256.

(** ** Packed rows *)

(** [bs] holds the samples of [row] eight to a byte, the first sample in
    the high bit, as the P4 encoding has them. *)
Definition packs (row : list bool) (bs : bytes) : Prop :=
  Z.of_nat (length bs) = (Z.of_nat (length row) + 7) / 8 /\
  forall x v, 0 <= x -> row !! Z.to_nat x = Some v ->
    exists b, bs !! Z.to_nat (x / 8) = Some b /\
              Z.testbit (code b) (7 - x mod 8) = v.

(** While a row is packed: the pending byte [cur] holds the first [r]
    samples of byte [k], and the bytes written hold the samples they
    cover. *)
Definition bits_ok (row : list bool) (cur k r : Z) : Prop :=
  forall j, 0 <= j < 8 ->
    Z.testbit cur j = true <->
    (7 - j < r /\ row !! Z.to_nat (8 * k + 7 - j) = Some true).

Definition bytes_ok (row : list bool) (bs : bytes) : Prop :=
  forall k r v, 0 <= k < Z.of_nat (length bs) -> 0 <= r < 8 ->
    row !! Z.to_nat (8 * k + r) = Some v ->
    exists b, bs !! Z.to_nat k = Some b /\ Z.testbit (code b) (7 - r) = v.

(** ** Sample images *)

(** A [w] by [h] pixmap of black pixels. *)
Definition blank (w h : nat) : PPM.t :=
  PPM.mk (replicate h (replicate w zeroPixel)) (Z.of_nat w) (Z.of_nat h)
    "P3" 255.

Definition red : Pixel := mkPixel 255 0 0.

(** The bitmap stream of the specification's scenario, and the stream it
    announces for the inverted image. *)
Definition scenario_stream : bytes :=
  lit "P1" ++ nl :: lit "3 2" ++ nl :: lit "1 0 1" ++ nl :: lit "0 1 0" ++ [nl].

Definition scenario_announced : bytes :=
  lit "P1" ++ nl :: lit "3 2" ++ nl :: lit "0 1 0" ++ nl :: lit "1 0 1" ++ [nl].

(** A 512 by 64 binary bitmap: ten header bytes and 64 rows of 64 bytes. *)
Definition wide_bitmap : PBM.t :=
  PBM.mk (replicate 64 (replicate 512 false)) 512 64 "P4".

(** The luminosity formula in exact arithmetic:
    [floor(0.299 R + 0.587 G + 0.114 B)]. *)
Definition exact_gray (p : Pixel) : Z :=
  (299 * R p + 587 * G p + 114 * B p) / 1000.

(** The 256 values of a [uint8] channel. *)
Definition channel_values : list Z := Z.of_nat <$> seq 0 256.

(** For every pixel of [uint8] channels, compare the threshold test of
    [PPM.ToPBM] with the exact comparison [299 R + 587 G + 114 B > 128000].
    The products of a channel are tabulated once. *)
Definition threshold_agrees : bool :=
  let tr := (fun r => ((0.299 * F64.of_int r)%float, 299 * r))
            <$> channel_values in
  let tg := (fun g => ((0.587 * F64.of_int g)%float, 587 * g))
            <$> channel_values in
  let tb := (fun b => ((0.114 * F64.of_int b)%float, 114 * b))
            <$> channel_values in
  forallb (fun '(fr, wr) =>
    forallb (fun '(fg, wg) =>
      forallb (fun '(fb, wb) =>
        Bool.eqb (F64.gtb (fr + fg + fb) 128) (128000 <? wr + wg + wb))
        tb) tg) tr.

(** Every [uint8] prints in at most three digits. *)
Definition sample_lengths_ok : bool :=
  forallb (fun v => (length (fmt_d v) <=? 3)%nat) channel_values.

(** * Properties *)

(** ** Slices and loops *)

Section slices.
Context {A : Type}.
Implicit Types (l : list A) (d : list (list A)).

Lemma index_lookup l (n : nat) a :
  l !! n = Some a -> index l (Z.of_nat n) = Ok a.
Proof.
  intros H. unfold index. pose proof (lookup_lt_Some _ _ _ H).
  rewrite Nat2Z.id, H.
  destruct (Z.leb_spec 0 (Z.of_nat n)); [|lia].
  destruct (Z.ltb_spec (Z.of_nat n) (Z.of_nat (length l))); [done|lia].
Qed.

Lemma index_Ok l i a :
  index l i = Ok a <-> 0 <= i /\ l !! Z.to_nat i = Some a.
Proof.
  unfold index. split.
  - destruct (Z.leb_spec 0 i); simpl; [|done].
    destruct (Z.ltb_spec i (Z.of_nat (length l))); [|done].
    destruct (l !! Z.to_nat i); [|done]. intros [= ->]. done.
  - intros [Hi H]. pose proof (lookup_lt_Some _ _ _ H).
    destruct (Z.leb_spec 0 i); [|lia].
    destruct (Z.ltb_spec i (Z.of_nat (length l))); [|lia].
    simpl. by rewrite H.
Qed.

Lemma index_Panic l i :
  index l i = Panic <-> ~ (0 <= i < Z.of_nat (length l)).
Proof.
  unfold index. split.
  - destruct (Z.leb_spec 0 i); simpl; [|lia].
    destruct (Z.ltb_spec i (Z.of_nat (length l))); [|lia].
    destruct (lookup_lt_is_Some_2 l (Z.to_nat i)) as [a ->]; [lia|done].
  - intros H. destruct (Z.leb_spec 0 i); simpl; [|done].
    destruct (Z.ltb_spec i (Z.of_nat (length l))); [lia|done].
Qed.

Lemma store_Ok l i v :
  0 <= i < Z.of_nat (length l) ->
  store l i v = Ok (<[Z.to_nat i := v]> l).
Proof.
  intros H. unfold store.
  destruct (Z.leb_spec 0 i); [|lia].
  destruct (Z.ltb_spec i (Z.of_nat (length l))); [done|lia].
Qed.

Lemma store_Panic l i v :
  store l i v = Panic <-> ~ (0 <= i < Z.of_nat (length l)).
Proof.
  unfold store.
  destruct (Z.leb_spec 0 i); simpl; [|split; [lia|done]].
  destruct (Z.ltb_spec i (Z.of_nat (length l))); split; (done || lia).
Qed.

Lemma make_Ok (n : Z) (zero : A) :
  0 <= n -> make n zero = Ok (replicate (Z.to_nat n) zero).
Proof. intros H. unfold make. destruct (Z.ltb_spec n 0); [lia|done]. Qed.

End slices.

Section loops.
Context {S : Type}.

Lemma loop_inv (P : nat -> S -> Prop) n lo (body : Z -> S -> result S) s :
  P O s ->
  (forall k s, (k < n)%nat -> P k s ->
     exists s', body (lo + Z.of_nat k) s = Ok s' /\ P (Datatypes.S k) s') ->
  exists s', loop n lo body s = Ok s' /\ P n s'.
Proof.
  revert P lo s. induction n as [|n IH]; intros P lo s H0 Hstep.
  - exists s. done.
  - destruct (Hstep O s) as (s1 & Hb & H1); [lia|done|].
    rewrite Z.add_0_r in Hb. simpl. rewrite Hb. simpl.
    apply (IH (fun k => P (Datatypes.S k))); [done|].
    intros k s2 Hk Hs2. destruct (Hstep (Datatypes.S k) s2) as (s3 & Hb3 & H3);
      [lia|done|].
    exists s3. split; [|done]. rewrite <- Hb3. f_equal. lia.
Qed.

Lemma for_lt_inv (P : Z -> S -> Prop) lo hi (body : Z -> S -> result S) s :
  lo <= hi ->
  P lo s ->
  (forall k s, lo <= k < hi -> P k s ->
     exists s', body k s = Ok s' /\ P (k + 1) s') ->
  exists s', for_lt lo hi body s = Ok s' /\ P hi s'.
Proof.
  intros Hle H0 Hstep. unfold for_lt.
  destruct (loop_inv (fun k => P (lo + Z.of_nat k)) (Z.to_nat (hi - lo))
              lo body s) as (s' & Hl & Hp).
  - by rewrite Z.add_0_r.
  - intros k s1 Hk Hs1.
    destruct (Hstep (lo + Z.of_nat k) s1) as (s2 & Hb & H2); [lia|done|].
    exists s2. split; [done|]. cbv beta.
    replace (lo + Z.of_nat (Datatypes.S k)) with (lo + Z.of_nat k + 1) by lia.
    done.
  - exists s'. split; [done|]. cbv beta in Hp.
    replace (lo + Z.of_nat (Z.to_nat (hi - lo))) with hi in Hp by lia. done.
Qed.

End loops.

(** ** Grids *)

Section grids.
Context {A : Type}.
Implicit Types (d : list (list A)).

Lemma shape_row d h w y row :
  shape d h w -> d !! y = Some row -> length row = w.
Proof.
  intros [_ Hf] Hy. rewrite Forall_lookup in Hf. by apply (Hf y).
Qed.

Lemma cell_Some_lt d h w y x v :
  shape d h w -> cell d y x = Some v -> (y < h)%nat /\ (x < w)%nat.
Proof.
  intros Hs. unfold cell. destruct (d !! y) as [row|] eqn:Hy; [|done].
  intros Hx. pose proof (shape_row _ _ _ _ _ Hs Hy).
  apply lookup_lt_Some in Hy, Hx. destruct Hs. lia.
Qed.

Lemma cell_lt_is_Some d h w y x :
  shape d h w -> (y < h)%nat -> (x < w)%nat -> is_Some (cell d y x).
Proof.
  intros Hs Hy Hx. unfold cell.
  destruct (lookup_lt_is_Some_2 d y) as [row Hr]; [destruct Hs; lia|].
  rewrite Hr. apply lookup_lt_is_Some_2.
  by rewrite (shape_row _ _ _ _ _ Hs Hr).
Qed.

Lemma index2_cell d y x v :
  0 <= y -> 0 <= x -> cell d (Z.to_nat y) (Z.to_nat x) = Some v ->
  index2 d y x = Ok v.
Proof.
  intros Hy Hx. unfold cell, index2.
  destruct (d !! Z.to_nat y) as [row|] eqn:Hr; [|done]. intros Hc.
  assert (index d y = Ok row) as -> by by apply index_Ok.
  simpl. by apply index_Ok.
Qed.

Lemma index2_Ok d y x v :
  index2 d y x = Ok v <->
  0 <= y /\ 0 <= x /\ cell d (Z.to_nat y) (Z.to_nat x) = Some v.
Proof.
  split; [|intros (?&?&?); by apply index2_cell].
  unfold index2, cell. destruct (index d y) as [row|] eqn:Hr; [|done].
  apply index_Ok in Hr as [? ->]. simpl. rewrite index_Ok. tauto.
Qed.

Lemma store2_set_cell d h w y x v :
  shape d h w -> 0 <= y < Z.of_nat h -> 0 <= x < Z.of_nat w ->
  store2 d y x v = Ok (set_cell d (Z.to_nat y) (Z.to_nat x) v).
Proof.
  intros Hs Hy Hx. unfold store2, set_cell.
  destruct (lookup_lt_is_Some_2 d (Z.to_nat y)) as [row Hr];
    [destruct Hs; lia|].
  assert (index d y = Ok row) as -> by (apply index_Ok; split; [lia|done]).
  simpl. pose proof (shape_row _ _ _ _ _ Hs Hr).
  rewrite store_Ok by lia. simpl.
  rewrite store_Ok by (destruct Hs; lia). f_equal.
  apply list_eq. intros i.
  destruct (decide (i = Z.to_nat y)) as [->|Hne].
  - rewrite list_lookup_insert_eq by (by eapply lookup_lt_Some).
    by rewrite list_lookup_alter_eq, Hr.
  - rewrite list_lookup_insert_ne by done.
    by rewrite list_lookup_alter_ne.
Qed.

Lemma store2_Panic d h w y x v :
  shape d h w ->
  store2 d y x v = Panic <->
  ~ (0 <= y < Z.of_nat h /\ 0 <= x < Z.of_nat w).
Proof.
  intros Hs. split.
  - intros Hp [Hy Hx]. by rewrite (store2_set_cell d h w) in Hp.
  - intros Hn. unfold store2. destruct (index d y) as [row|] eqn:Hr; [|done].
    simpl. apply index_Ok in Hr as [Hy Hr].
    pose proof (shape_row _ _ _ _ _ Hs Hr). pose proof (lookup_lt_Some _ _ _ Hr).
    destruct (store row x v) eqn:Hst; [|done].
    exfalso. apply Hn. destruct Hs as [Hl _]. split; [lia|].
    destruct (decide (0 <= x < Z.of_nat w)); [done|].
    assert (store row x v = Panic) by (apply store_Panic; lia). congruence.
Qed.

Lemma shape_set_cell d h w y x v :
  shape d h w -> shape (set_cell d y x v) h w.
Proof.
  intros [Hl Hf]. unfold set_cell. split; [by rewrite length_alter|].
  apply Forall_alter; [done|]. intros row _ Hrow. by rewrite length_insert.
Qed.

Lemma cell_set_cell d h w y x v r c :
  shape d h w -> (y < h)%nat -> (x < w)%nat ->
  cell (set_cell d y x v) r c =
  if decide (r = y /\ c = x) then Some v else cell d r c.
Proof.
  intros Hs Hy Hx. unfold cell, set_cell.
  destruct (decide (r = y)) as [->|Hne].
  - rewrite list_lookup_alter_eq.
    destruct (lookup_lt_is_Some_2 d y) as [row Hr]; [destruct Hs; lia|].
    rewrite Hr. simpl. pose proof (shape_row _ _ _ _ _ Hs Hr).
    destruct (decide (c = x)) as [->|Hc].
    + rewrite list_lookup_insert_eq by lia. by rewrite decide_True.
    + rewrite list_lookup_insert_ne by done. rewrite decide_False; [done|tauto].
  - rewrite list_lookup_alter_ne by done. rewrite decide_False; [done|tauto].
Qed.

Lemma grid_ext d1 d2 h w :
  shape d1 h w -> shape d2 h w ->
  (forall r c, (r < h)%nat -> (c < w)%nat -> cell d1 r c = cell d2 r c) ->
  d1 = d2.
Proof.
  intros H1 H2 Hc. apply list_eq. intros r.
  destruct (decide (r < h)%nat) as [Hr|Hr].
  - destruct (lookup_lt_is_Some_2 d1 r) as [row1 Hr1]; [destruct H1; lia|].
    destruct (lookup_lt_is_Some_2 d2 r) as [row2 Hr2]; [destruct H2; lia|].
    rewrite Hr1, Hr2. f_equal. apply list_eq. intros c.
    destruct (decide (c < w)%nat) as [Hw|Hw].
    + specialize (Hc r c Hr Hw). unfold cell in Hc. by rewrite Hr1, Hr2 in Hc.
    + rewrite !lookup_ge_None_2; [done| |].
      * rewrite (shape_row _ _ _ _ _ H2 Hr2). lia.
      * rewrite (shape_row _ _ _ _ _ H1 Hr1). lia.
  - rewrite !lookup_ge_None_2; [done| |]; [destruct H2|destruct H1]; lia.
Qed.

Lemma shape_replicate h w (zero : A) :
  shape (replicate h (replicate w zero)) h w.
Proof.
  split; [by rewrite length_replicate|].
  apply Forall_replicate. by rewrite length_replicate.
Qed.

Lemma cell_replicate h w (zero : A) r c :
  (r < h)%nat -> (c < w)%nat ->
  cell (replicate h (replicate w zero)) r c = Some zero.
Proof.
  intros Hr Hc. unfold cell. rewrite lookup_replicate_2 by done.
  by rewrite lookup_replicate_2.
Qed.

End grids.

(** ** A quarter turn, on any grid *)

Section rotation.
Context {A : Type}.
Implicit Types (d nd : list (list A)).

Lemma make_rows_Ok (n m : Z) (zero : A) d0 :
  0 <= n -> 0 <= m -> length d0 = Z.to_nat n ->
  for_lt 0 n (fun i d => let* row := make m zero in store d i row) d0
  = Ok (replicate (Z.to_nat n) (replicate (Z.to_nat m) zero)).
Proof.
  intros Hn Hm Hl.
  destruct (for_lt_inv
    (fun k d => length d = Z.to_nat n /\
       forall r, (r < Z.to_nat k)%nat ->
         d !! r = Some (replicate (Z.to_nat m) zero))
    0 n (fun i d => let* row := make m zero in store d i row) d0)
    as (d' & Hd' & Hlen & Hrows); [done| | |].
  - split; [done|]. intros r Hr. lia.
  - intros k d Hk [Hlen Hrows]. rewrite make_Ok by done. simpl.
    rewrite store_Ok by lia. eexists. split; [done|].
    split; [by rewrite length_insert|]. intros r Hr.
    destruct (decide (r = Z.to_nat k)) as [->|Hne].
    + by rewrite list_lookup_insert_eq by lia.
    + rewrite list_lookup_insert_ne by done. apply Hrows. lia.
  - rewrite Hd'. f_equal. apply list_eq. intros r.
    destruct (decide (r < Z.to_nat n)%nat).
    + rewrite Hrows by done. by rewrite lookup_replicate_2.
    + rewrite !lookup_ge_None_2; [done|rewrite length_replicate; lia|lia].
Qed.

Lemma make2_Ok (n m : Z) (zero : A) :
  0 <= n -> 0 <= m ->
  make2 n m zero = Ok (replicate (Z.to_nat n) (replicate (Z.to_nat m) zero)).
Proof.
  intros Hn Hm. unfold make2. rewrite make_Ok by done. simpl.
  rewrite length_replicate, Z2Nat.id by done.
  apply make_rows_Ok; [done..|by rewrite length_replicate].
Qed.




End rotation.

(** ** Rotation of pixmaps and graymaps *)

Lemma PPM_wf_shape ppm :
  PPM.wf ppm ->
  shape (PPM.data ppm) (Z.to_nat (PPM.height ppm)) (Z.to_nat (PPM.width ppm)).
Proof. intros (_ & _ & Hl & Hf). by split. Qed.

Lemma PGM_wf_shape pgm :
  PGM.wf pgm ->
  shape (PGM.data pgm) (Z.to_nat (PGM.height pgm)) (Z.to_nat (PGM.width pgm)).
Proof. intros (_ & _ & Hl & Hf). by split. Qed.







(** ** The conversion loops *)

Section convert.
Context {A B : Type} (f : A -> B) (zero : B).

(** The row loop shared by [PPM.ToPGM], [PPM.ToPBM] and [PGM.ToPBM]:
    allocate row [i], then fill it sample by sample. *)
Lemma convert_loop (src : list (list A)) (h w : Z) :
  0 <= h -> 0 <= w -> shape src (Z.to_nat h) (Z.to_nat w) ->
  for_lt 0 h (fun i d =>
    let* row := make w zero in
    let* d := store d i row in
    for_lt 0 w (fun j d =>
      let* p := index2 src i j in store2 d i j (f p)) d)
    (replicate (Z.to_nat h) [])
  = Ok (map (map f) src).
Proof.
  intros Hh Hw Hs.
  set (body := fun i d =>
    let* row := make w zero in
    let* d := store d i row in
    for_lt 0 w (fun j d =>
      let* p := index2 src i j in store2 d i j (f p)) d).
  destruct (for_lt_inv
    (fun k d => length d = Z.to_nat h /\
       forall r, (r < Z.to_nat k)%nat -> d !! r = map f <$> src !! r)
    0 h body (replicate (Z.to_nat h) []))
    as (d' & Hd' & Hlen & Hrows); [done| | |].
  - split; [by rewrite length_replicate|]. intros r Hr. lia.
  - intros i d Hi [Hlen Hrows]. unfold body.
    rewrite make_Ok by done. simpl. rewrite store_Ok by lia. simpl.
    destruct (lookup_lt_is_Some_2 src (Z.to_nat i)) as [srow Hsrow];
      [destruct Hs; lia|].
    pose proof (shape_row _ _ _ _ _ Hs Hsrow) as Hsl.
    destruct (for_lt_inv
      (fun j d1 => length d1 = Z.to_nat h /\
         (forall r, (r < Z.to_nat i)%nat -> d1 !! r = map f <$> src !! r) /\
         exists row, d1 !! Z.to_nat i = Some row /\
           length row = Z.to_nat w /\
           forall c, (c < Z.to_nat j)%nat -> row !! c = f <$> srow !! c)
      0 w (fun j d => let* p := index2 src i j in store2 d i j (f p))
      (<[Z.to_nat i := replicate (Z.to_nat w) zero]> d))
      as (d1 & Hd1 & Hlen1 & Hrows1 & row & Hrow & Hrl & Hrc); [done| | |].
    + split; [by rewrite length_insert|]. split.
      * intros r Hr. rewrite list_lookup_insert_ne by lia. by apply Hrows.
      * eexists. split; [apply list_lookup_insert_eq; lia|].
        split; [by rewrite length_replicate|]. intros c Hc. lia.
    + intros j d1 Hj (Hlen1 & Hrows1 & row & Hrow & Hrl & Hrc).
      destruct (lookup_lt_is_Some_2 srow (Z.to_nat j)) as [p Hp]; [lia|].
      rewrite (index2_cell src i j p); [|lia|lia|by unfold cell; rewrite Hsrow].
      simpl. unfold store2.
      assert (index d1 i = Ok row) as -> by (apply index_Ok; split; [lia|done]).
      simpl. rewrite store_Ok by lia. simpl. rewrite store_Ok by lia.
      eexists. split; [done|]. split; [by rewrite length_insert|]. split.
      * intros r Hr. rewrite list_lookup_insert_ne by lia. by apply Hrows1.
      * eexists. split; [apply list_lookup_insert_eq; lia|].
        split; [by rewrite length_insert|]. intros c Hc.
        destruct (decide (c = Z.to_nat j)) as [->|Hne].
        -- rewrite list_lookup_insert_eq by lia. by rewrite Hp.
        -- rewrite list_lookup_insert_ne by done. apply Hrc. lia.
    + exists d1. split; [done|]. split; [done|]. intros r Hr.
      destruct (decide (r = Z.to_nat i)) as [->|Hne].
      * rewrite Hrow, Hsrow. simpl. f_equal. apply list_eq. intros c.
        rewrite list_lookup_fmap.
        destruct (decide (c < Z.to_nat w)%nat).
        -- by apply Hrc.
        -- rewrite !lookup_ge_None_2; [done|lia|lia].
      * apply Hrows1. lia.
  - rewrite Hd'. f_equal. apply list_eq. intros r.
    rewrite list_lookup_fmap.
    destruct (decide (r < Z.to_nat h)%nat).
    + by apply Hrows.
    + rewrite !lookup_ge_None_2; [done|destruct Hs; lia|lia].
Qed.

End convert.

Lemma PPM_ToPGM_spec ppm :
  PPM.wf ppm ->
  PPM.ToPGM ppm =
  Ok (PGM.mk (map (map (fun p => F64.to_uint8 (luminosity p))) (PPM.data ppm))
        (PPM.width ppm) (PPM.height ppm) "P2" (PPM.max ppm)).
Proof.
  intros Hwf. pose proof (PPM_wf_shape _ Hwf) as Hs.
  destruct Hwf as (Hw & Hh & _). unfold PPM.ToPGM.
  rewrite make_Ok by done. simpl.
  rewrite length_replicate, Z2Nat.id by done.
  by rewrite (convert_loop (fun p => F64.to_uint8 (luminosity p)) 0
                (PPM.data ppm) _ _ Hh Hw Hs).
Qed.

Lemma PPM_ToPBM_spec ppm :
  PPM.wf ppm ->
  PPM.ToPBM ppm =
  Ok (PBM.mk (map (map (fun p => F64.gtb (luminosity p) 128)) (PPM.data ppm))
        (PPM.width ppm) (PPM.height ppm) "P1").
Proof.
  intros Hwf. pose proof (PPM_wf_shape _ Hwf) as Hs.
  destruct Hwf as (Hw & Hh & _). unfold PPM.ToPBM.
  rewrite make_Ok by done. simpl.
  rewrite length_replicate, Z2Nat.id by done.
  by rewrite (convert_loop (fun p => F64.gtb (luminosity p) 128) false
                (PPM.data ppm) _ _ Hh Hw Hs).
Qed.

Lemma PGM_ToPBM_spec pgm :
  PGM.wf pgm ->
  PGM.ToPBM pgm =
  Ok (PBM.mk (map (map (fun v => uint16 (PGM.max pgm) / 2 <? uint16 v))
                (PGM.data pgm))
        (PGM.width pgm) (PGM.height pgm) "P4").
Proof.
  intros Hwf. pose proof (PGM_wf_shape _ Hwf) as Hs.
  destruct Hwf as (Hw & Hh & _). unfold PGM.ToPBM.
  rewrite make_Ok by done. simpl.
  by rewrite (convert_loop (fun v => uint16 (PGM.max pgm) / 2 <? uint16 v) false
                (PGM.data pgm) _ _ Hh Hw Hs).
Qed.

(** ** The pixels a drawing operation visits *)

Lemma bind_assoc {A B C} (r : result A) (f : A -> result B) (g : B -> result C) :
  bind (bind r f) g = bind r (fun a => bind (f a) g).
Proof. by destruct r. Qed.

Lemma bind_Ok_r {A} (r : result A) : bind r Ok = r.
Proof. by destruct r. Qed.

Lemma bind_ext {A B} (r : result A) (f g : A -> result B) :
  (forall a, f a = g a) -> bind r f = bind r g.
Proof. intros H. destruct r; simpl; [apply H|done]. Qed.

Lemma draw_points_app ppm pts1 pts2 color :
  draw_points ppm (pts1 ++ pts2) color =
  let* ppm := draw_points ppm pts1 color in draw_points ppm pts2 color.
Proof.
  revert ppm. induction pts1 as [|p pts1 IH]; intros ppm; [done|].
  simpl. destruct (PPM.Set_ ppm (X p) (Y p) color); simpl; [apply IH|done].
Qed.

(** A loop whose body draws the points [f k] draws them all, in order. *)
Lemma loop_draw_points (f : Z -> list Point) color n lo ppm :
  loop n lo (fun k ppm => draw_points ppm (f k) color) ppm =
  draw_points ppm (k ← counters n lo; f k) color.
Proof.
  revert lo ppm. induction n as [|n IH]; intros lo ppm; [done|].
  simpl. rewrite draw_points_app.
  destruct (draw_points ppm (f lo) color); simpl; [apply IH|done].
Qed.

Lemma loop_ext {S} n lo (b1 b2 : Z -> S -> result S) s :
  (forall k s, b1 k s = b2 k s) -> loop n lo b1 s = loop n lo b2 s.
Proof.
  intros H. revert lo s. induction n as [|n IH]; intros lo s; [done|].
  simpl. rewrite H. destruct (b2 lo s); simpl; [apply IH|done].
Qed.

(** The same when computing the points of an iteration can itself panic. *)
Lemma loop_collect_points (f : Z -> result (list Point)) color n lo ppm :
  loop n lo (fun k ppm => let* pts := f k in draw_points ppm pts color) ppm =
  let* pts := collect f (counters n lo) in draw_points ppm pts color.
Proof.
  revert lo ppm. induction n as [|n IH]; intros lo ppm; [done|].
  simpl. destruct (f lo) as [pts|]; simpl; [|done].
  rewrite bind_assoc. simpl.
  destruct (draw_points ppm pts color) as [ppm'|] eqn:Hd; simpl.
  - rewrite IH. destruct (collect f (counters n (lo + 1))); simpl; [|done].
    by rewrite draw_points_app, Hd.
  - destruct (collect f (counters n (lo + 1))); simpl; [|done].
    by rewrite draw_points_app, Hd.
Qed.

Lemma DrawLine_points ppm p1 p2 color :
  PPM.DrawLine ppm p1 p2 color = draw_points ppm (line_points p1 p2) color.
Proof.
  unfold PPM.DrawLine, line_points, for_le.
  generalize (Z.to_nat
    (F64.to_int (F64.Max (F64.Abs (F64.of_int (int_sub (X p2) (X p1))))
                         (F64.Abs (F64.of_int (int_sub (Y p2) (Y p1))))) - 0 + 1)).
  generalize (F64.of_int (int_sub (X p2) (X p1)) /
     F64.of_int (F64.to_int (F64.Max (F64.Abs (F64.of_int (int_sub (X p2) (X p1))))
                         (F64.Abs (F64.of_int (int_sub (Y p2) (Y p1)))))))%float.
  generalize (F64.of_int (int_sub (Y p2) (Y p1)) /
     F64.of_int (F64.to_int (F64.Max (F64.Abs (F64.of_int (int_sub (X p2) (X p1))))
                         (F64.Abs (F64.of_int (int_sub (Y p2) (Y p1)))))))%float.
  generalize (F64.of_int (X p1)) (F64.of_int (Y p1)) 0.
  intros x y lo yi xi n. revert ppm x y lo.
  induction n as [|n IH]; intros ppm x y lo; [done|].
  simpl. destruct (PPM.Set_ ppm (F64.to_int x) (F64.to_int y) color); simpl;
    [apply IH|done].
Qed.

Lemma draw_points_single ppm x y color :
  PPM.Set_ ppm x y color = draw_points ppm [mkPoint x y] color.
Proof. simpl. by rewrite bind_Ok_r. Qed.

Lemma DrawRectangle_points ppm p1 width height color :
  PPM.DrawRectangle ppm p1 width height color =
  draw_points ppm (rectangle_points p1 width height) color.
Proof.
  unfold PPM.DrawRectangle, rectangle_points.
  repeat (rewrite draw_points_app, DrawLine_points; apply bind_ext; intros ?).
  apply DrawLine_points.
Qed.

Lemma DrawTriangle_points ppm p1 p2 p3 color :
  PPM.DrawTriangle ppm p1 p2 p3 color =
  draw_points ppm (triangle_points p1 p2 p3) color.
Proof.
  unfold PPM.DrawTriangle, triangle_points.
  repeat (rewrite draw_points_app, DrawLine_points; apply bind_ext; intros ?).
  apply DrawLine_points.
Qed.

Lemma DrawFilledRectangle_points ppm p1 width height color :
  PPM.DrawFilledRectangle ppm p1 width height color =
  draw_points ppm (filled_rectangle_points p1 width height) color.
Proof.
  unfold PPM.DrawFilledRectangle, filled_rectangle_points, for_lt, range_lt.
  rewrite <- loop_draw_points. apply loop_ext. intros i g.
  rewrite <- loop_draw_points. apply loop_ext. intros j g'.
  apply draw_points_single.
Qed.

Lemma DrawCircle_points ppm center radius color :
  PPM.DrawCircle ppm center radius color =
  draw_points ppm (circle_points center radius) color.
Proof.
  unfold PPM.DrawCircle, circle_points, for_le, range_le.
  rewrite <- loop_draw_points. apply loop_ext. intros x g.
  rewrite <- loop_draw_points. apply loop_ext. intros y g'.
  destruct (_ <=? _); [apply draw_points_single|done].
Qed.


Lemma row_points ppm lo hi y color :
  for_le lo hi (fun x ppm => PPM.Set_ ppm x y color) ppm =
  draw_points ppm ((fun x => mkPoint x y) <$> range_le lo hi) color.
Proof.
  unfold for_le, range_le. generalize (Z.to_nat (hi - lo + 1)). intros n.
  revert lo ppm. induction n as [|n IH]; intros lo ppm; [done|].
  simpl. destruct (PPM.Set_ ppm lo y color); simpl; [apply IH|done].
Qed.

Lemma fill_rows_points ppm ylo yhi x1 x2 s1 s2 color :
  PPM.fill_rows ppm ylo yhi x1 x2 s1 s2 color =
  let '(pts, xs) := rows_walk (Z.to_nat (yhi - ylo + 1)) ylo x1 x2 s1 s2 in
  let* ppm := draw_points ppm pts color in Ok (ppm, xs).
Proof.
  unfold PPM.fill_rows. unfold for_le at 1.
  generalize (Z.to_nat (yhi - ylo + 1)).
  intros n. revert ppm ylo x1 x2. induction n as [|n IH]; intros ppm y x1 x2;
    [done|].
  cbn [loop rows_walk]. rewrite row_points, bind_assoc. simpl.
  specialize (IH ppm (y + 1) (x1 + s1)%float (x2 + s2)%float) as IH'.
  destruct (rows_walk n (y + 1) (x1 + s1) (x2 + s2) s1 s2) as [rest xs] eqn:Hw.
  rewrite draw_points_app, bind_assoc. apply bind_ext. intros g.
  rewrite IH, Hw. done.
Qed.

Lemma DrawFilledTriangle_points ppm p1 p2 p3 color :
  PPM.DrawFilledTriangle ppm p1 p2 p3 color =
  let* pts := filled_triangle_points p1 p2 p3 in draw_points ppm pts color.
Proof.
  unfold PPM.DrawFilledTriangle, filled_triangle_points.
  destruct (index _ 0) as [v0|]; simpl; [|done].
  destruct (index _ 1) as [v1|]; simpl; [|done].
  destruct (index _ 2) as [v2|]; simpl; [|done].
  rewrite fill_rows_points.
  destruct (rows_walk _ (Y v0) _ _ _ _) as [top [x1' x2']].
  destruct (rows_walk _ (int_add (Y v1) 1) _ _ _ _) as [bottom xs] eqn:Hb.
  simpl. rewrite draw_points_app, bind_assoc. apply bind_ext. intros g. simpl.
  rewrite fill_rows_points, Hb, bind_assoc. simpl.
  by rewrite bind_Ok_r.
Qed.

Lemma DrawPolygon_points ppm points color :
  PPM.DrawPolygon ppm points color =
  let* pts := polygon_points points in draw_points ppm pts color.
Proof.
  unfold PPM.DrawPolygon, polygon_points, for_lt, range_lt.
  rewrite <- loop_collect_points. apply loop_ext. intros i g.
  destruct (index points i); simpl; [|done].
  destruct (index points _); simpl; [|done].
  apply DrawLine_points.
Qed.

Lemma DrawFilledPolygon_points ppm points color :
  PPM.DrawFilledPolygon ppm points color =
  let* pts := filled_polygon_points points in draw_points ppm pts color.
Proof.
  unfold PPM.DrawFilledPolygon, filled_polygon_points.
  destruct (PPM.bounding_box points) as [[[[minX minY] maxX] maxY]|]; simpl;
    [|done].
  destruct (PPM.edge_intersections points minY maxY) as [ints|]; simpl; [|done].
  unfold for_le at 1. unfold range_le at 2.
  rewrite <- loop_collect_points. apply loop_ext. intros y g.
  destruct (index ints y) as [xi|]; simpl; [|done].
  destruct (xi =? 0); simpl; [done|].
  unfold for_le, range_le. generalize (Z.to_nat (int_sub maxX minX - xi + 1)).
  intros n. revert xi g. induction n as [|n IH]; intros xi g; [done|].
  simpl. destruct (PPM.Set_ g _ _ color); simpl; [apply IH|done].
Qed.

(** ** What a sequence of [Set] calls does to the grid *)

Lemma PPM_Set_in_bounds ppm x y color :
  PPM.wf ppm -> in_bounds ppm (mkPoint x y) ->
  PPM.Set_ ppm x y color =
  Ok (PPM.set_data ppm
        (set_cell (PPM.data ppm) (Z.to_nat y) (Z.to_nat x) color)).
Proof.
  intros Hwf [Hx Hy]. pose proof (PPM_wf_shape _ Hwf) as Hs. simpl in *.
  unfold PPM.Set_.
  by rewrite (store2_set_cell _ _ _ _ _ _ Hs) by lia.
Qed.

Lemma PPM_Set_out_of_bounds ppm x y color :
  PPM.wf ppm -> ~ in_bounds ppm (mkPoint x y) ->
  PPM.Set_ ppm x y color = Panic.
Proof.
  intros Hwf Hn. pose proof (PPM_wf_shape _ Hwf) as Hs.
  destruct Hwf as (Hw & Hh & _). unfold PPM.Set_.
  assert (store2 (PPM.data ppm) y x color = Panic) as ->; [|done].
  apply (store2_Panic _ _ _ _ _ _ Hs). unfold in_bounds in Hn. simpl in Hn. lia.
Qed.

Lemma PPM_wf_set_cell ppm y x color :
  PPM.wf ppm ->
  PPM.wf (PPM.set_data ppm (set_cell (PPM.data ppm) y x color)).
Proof.
  intros Hwf. pose proof (PPM_wf_shape _ Hwf) as Hs.
  destruct Hwf as (Hw & Hh & _).
  destruct (shape_set_cell _ _ _ y x color Hs) as [Hl Hf].
  by repeat split.
Qed.

(** When every point is inside the grid, the calls succeed, the dimensions
    stay, and exactly the cells of the listed points take the colour. *)
Lemma draw_points_in_bounds ppm pts color :
  PPM.wf ppm -> Forall (in_bounds ppm) pts ->
  exists ppm',
    draw_points ppm pts color = Ok ppm' /\
    PPM.wf ppm' /\
    PPM.width ppm' = PPM.width ppm /\ PPM.height ppm' = PPM.height ppm /\
    PPM.magicNumber ppm' = PPM.magicNumber ppm /\
    PPM.max ppm' = PPM.max ppm /\
    forall x y, 0 <= x < PPM.width ppm -> 0 <= y < PPM.height ppm ->
      PPM.At ppm' x y =
      if decide (mkPoint x y ∈ pts) then Ok color else PPM.At ppm x y.
Proof.
  revert ppm. induction pts as [|p pts IH]; intros ppm Hwf Hall.
  - exists ppm. do 6 (split; [done|]). intros x y Hx Hy.
    rewrite decide_False by apply not_elem_of_nil. done.
  - apply Forall_cons in Hall as [Hp Hall]. simpl.
    destruct p as [px py].
    rewrite (PPM_Set_in_bounds _ _ _ _ Hwf Hp). simpl.
    set (ppm1 := PPM.set_data ppm _).
    assert (PPM.wf ppm1) as Hwf1 by by apply PPM_wf_set_cell.
    destruct (IH ppm1 Hwf1) as (ppm' & Hd & Hwf' & Hw' & Hh' & Hm' & Hx' & Hc');
      [done|].
    exists ppm'. do 6 (split; [done|]).
    intros x y Hx Hy. rewrite Hc' by done.
    destruct Hp as [Hpx Hpy]. simpl in *.
    pose proof (PPM_wf_shape _ Hwf) as Hs.
    destruct (decide (mkPoint x y ∈ pts)) as [Hin|Hnin].
    + rewrite decide_True; [done|]. apply elem_of_cons. by right.
    + destruct (decide (mkPoint x y = mkPoint px py)) as [[= -> ->]|Hne].
      * rewrite decide_True by (apply elem_of_cons; by left).
        unfold PPM.At. subst ppm1. simpl. apply index2_cell; [lia..|].
        rewrite (cell_set_cell _ _ _ _ _ _ _ _ Hs) by lia.
        by rewrite decide_True.
      * rewrite decide_False.
        2:{ intros [?|?]%elem_of_cons; done. }
        unfold PPM.At. subst ppm1. simpl.
        destruct (cell_lt_is_Some _ _ _ (Z.to_nat y) (Z.to_nat x) Hs)
          as [v Hv]; [lia..|].
        rewrite (index2_cell (PPM.data ppm) y x v) by (done || lia).
        apply index2_cell; [lia..|].
        rewrite (cell_set_cell _ _ _ _ _ _ _ _ Hs) by lia.
        rewrite decide_False; [done|]. intros [? ?]. apply Hne. f_equal; lia.
Qed.

(** A point outside the grid makes the sequence panic; nothing is skipped. *)
Lemma draw_points_Panic ppm pts color :
  PPM.wf ppm ->
  draw_points ppm pts color = Panic <-> Exists (fun p => ~ in_bounds ppm p) pts.
Proof.
  intros Hwf. split.
  - intros Hp. apply not_Forall_Exists; [intros p; unfold in_bounds; apply _|].
    intros Hall. destruct (draw_points_in_bounds _ _ color Hwf Hall) as (? & ? & _).
    congruence.
  - revert ppm Hwf. induction pts as [|p pts IH]; intros ppm Hwf Hex.
    + by apply Exists_nil in Hex.
    + simpl. destruct p as [px py].
      destruct (decide (in_bounds ppm (mkPoint px py))) as [Hin|Hout].
      * rewrite (PPM_Set_in_bounds _ _ _ _ Hwf Hin). simpl.
        apply IH; [by apply PPM_wf_set_cell|].
        apply Exists_cons in Hex as [?|Hex]; [done|]. done.
      * by rewrite (PPM_Set_out_of_bounds _ _ _ _ Hwf Hout).
Qed.

(** ** Circles *)

Lemma wrap64_small z : - 2 ^ 63 <= z < 2 ^ 63 -> wrap64 z = z.
Proof. intros H. unfold wrap64. rewrite Z.mod_small; lia. Qed.

Lemma elem_of_counters z n lo :
  z ∈ counters n lo <-> lo <= z < lo + Z.of_nat n.
Proof.
  revert lo. induction n as [|n IH]; intros lo; simpl.
  - rewrite elem_of_nil. lia.
  - rewrite elem_of_cons, IH. lia.
Qed.


Lemma elem_of_range_lt z lo hi : z ∈ range_lt lo hi <-> lo <= z < hi.
Proof. unfold range_lt. rewrite elem_of_counters. lia. Qed.




(** ** Scenarios *)

(** C5, as announced: the stream that [Save] writes for the inverted
    scenario grid is not the announced one, because every sample, the last
    of a row included, is followed by a space. *)
Lemma scenario_output_has_trailing_spaces :
  exists pbm inverted out,
    ReadPBM scenario_stream = Ok (Some pbm, None) /\
    PBM.Invert pbm = Ok inverted /\
    PBM.Save inverted = Ok out /\
    out <> scenario_announced.
Proof.
  do 3 eexists. split; [vm_compute; reflexivity|].
  split; [vm_compute; reflexivity|]. split; [vm_compute; reflexivity|].
  vm_compute. discriminate.
Qed.

(** C5: decoding the P1 stream of the scenario gives the 3 by 2 grid
    [[T,F,T],[F,T,F]], inverting it gives [[F,T,F],[T,F,T]], and encoding
    the inverted grid gives the header [P1], [3 2] followed by the rows
    [0 1 0 ] and [1 0 1 ], each sample followed by one space and each row by
    a newline. *)
Theorem scenario_decode_invert_encode :
  ReadPBM scenario_stream
  = Ok (Some (PBM.mk [[true; false; true]; [false; true; false]] 3 2 "P1"),
        None) /\
  PBM.Invert (PBM.mk [[true; false; true]; [false; true; false]] 3 2 "P1")
  = Ok (PBM.mk [[false; true; false]; [true; false; true]] 3 2 "P1") /\
  PBM.Save (PBM.mk [[false; true; false]; [true; false; true]] 3 2 "P1")
  = Ok (lit "P1" ++ nl :: lit "3 2" ++ nl
        :: lit "0 1 0 " ++ nl :: lit "1 0 1 " ++ [nl]).
Proof. repeat split; vm_compute; reflexivity. Qed.

(** C1: a well-formed 512 by 64 binary bitmap does not survive the round
    trip.  [Save] writes 10 header bytes and 64 rows of 64 bytes; [ReadPBM]
    asks the buffered reader for 64 bytes per row, and the reader, whose
    4096-byte buffer holds the header and the first 4086 data bytes, hands
    out the 54 bytes it has left for row 63: the decoder reports an
    unexpected end of file at that row. *)
Theorem binary_bitmap_round_trip_fails :
  PBM.wf wide_bitmap /\
  exists stream,
    PBM.Save wide_bitmap = Ok stream /\
    length stream = 4106%nat /\
    ReadPBM stream = Ok (None, Some (ErrShortRow 63 64 54)).
Proof.
  split.
  - unfold PBM.wf, wide_bitmap. cbn [PBM.width PBM.height PBM.data].
    rewrite length_replicate. repeat split; try lia.
    apply Forall_replicate. rewrite length_replicate. lia.
  - eexists. split; [vm_compute; reflexivity|].
    split; vm_compute; reflexivity.
Qed.

(** C4: on a 2 by 11 grid the line from (0,0) to (1,10), both in bounds,
    leaves the far endpoint untouched.  The abscissa advances by the
    binary64 quotient 1/10 per step; ten additions give a value just below
    1, which truncates to 0, so that the last pixel set is (0,10) and (1,10)
    keeps its old colour. *)
Theorem DrawLine_misses_far_endpoint :
  in_bounds (blank 2 11) (mkPoint 0 0) /\
  in_bounds (blank 2 11) (mkPoint 1 10) /\
  exists ppm,
    PPM.DrawLine (blank 2 11) (mkPoint 0 0) (mkPoint 1 10) red = Ok ppm /\
    PPM.At ppm 0 0 = Ok red /\
    PPM.At ppm 1 10 = Ok zeroPixel /\
    PPM.At ppm 0 10 = Ok red.
Proof.
  split; [unfold in_bounds; simpl; lia|].
  split; [unfold in_bounds; simpl; lia|].
  eexists. split; [vm_compute; reflexivity|].
  repeat split; vm_compute; reflexivity.
Qed.

(** C2, as stated: a circle of radius 1 centred on the corner of a 3 by 3
    grid, and a line that leaves the grid by one pixel, end in a run-time
    panic instead of skipping the pixels outside. *)
Lemma DrawCircle_at_corner_panics :
  PPM.wf (blank 3 3) /\
  PPM.DrawCircle (blank 3 3) (mkPoint 0 0) 1 red = Panic /\
  PPM.DrawLine (blank 3 3) (mkPoint 0 0) (mkPoint 3 0) red = Panic.
Proof.
  split.
  - unfold PPM.wf, blank; simpl. repeat split; try lia.
    repeat constructor.
  - split; vm_compute; reflexivity.
Qed.

(** C2: no drawing operation clips.  On a well-formed grid, setting a list
    of pixels that are all in bounds succeeds, keeps the dimensions and
    colours exactly the listed pixels; setting a list with a pixel out of
    bounds panics.  Each of the line, rectangle, filled rectangle, circle,
    triangle, filled triangle, polygon and filled polygon operations is
    the setting, in order, of the pixels its geometry visits, whatever the
    grid: it succeeds when they all are in bounds and panics otherwise. *)
Theorem drawing_faults_out_of_bounds ppm color :
  PPM.wf ppm ->
  (forall pts, Forall (in_bounds ppm) pts ->
     exists ppm',
       draw_points ppm pts color = Ok ppm' /\
       PPM.width ppm' = PPM.width ppm /\ PPM.height ppm' = PPM.height ppm /\
       forall x y, 0 <= x < PPM.width ppm -> 0 <= y < PPM.height ppm ->
         PPM.At ppm' x y =
         if decide (mkPoint x y ∈ pts) then Ok color else PPM.At ppm x y) /\
  (forall pts, Exists (fun p => ~ in_bounds ppm p) pts ->
     draw_points ppm pts color = Panic) /\
  (forall p1 p2,
     PPM.DrawLine ppm p1 p2 color
     = draw_points ppm (line_points p1 p2) color) /\
  (forall p w h,
     PPM.DrawRectangle ppm p w h color
     = draw_points ppm (rectangle_points p w h) color) /\
  (forall p w h,
     PPM.DrawFilledRectangle ppm p w h color
     = draw_points ppm (filled_rectangle_points p w h) color) /\
  (forall c r,
     PPM.DrawCircle ppm c r color
     = draw_points ppm (circle_points c r) color) /\
  (forall p1 p2 p3,
     PPM.DrawTriangle ppm p1 p2 p3 color
     = draw_points ppm (triangle_points p1 p2 p3) color) /\
  (forall p1 p2 p3,
     PPM.DrawFilledTriangle ppm p1 p2 p3 color
     = let* pts := filled_triangle_points p1 p2 p3 in
       draw_points ppm pts color) /\
  (forall points,
     PPM.DrawPolygon ppm points color
     = let* pts := polygon_points points in draw_points ppm pts color) /\
  (forall points,
     PPM.DrawFilledPolygon ppm points color
     = let* pts := filled_polygon_points points in
       draw_points ppm pts color).
Proof.
  intros Hwf. split.
  { intros pts Hall.
    destruct (draw_points_in_bounds ppm pts color Hwf Hall)
      as (ppm' & Hd & _ & Hw & Hh & _ & _ & Hc).
    by exists ppm'. }
  split; [intros pts Hex; by apply draw_points_Panic|].
  split; [intros; apply DrawLine_points|].
  split; [intros; apply DrawRectangle_points|].
  split; [intros; apply DrawFilledRectangle_points|].
  split; [intros; apply DrawCircle_points|].
  split; [intros; apply DrawTriangle_points|].
  split; [intros; apply DrawFilledTriangle_points|].
  split; [intros; apply DrawPolygon_points|].
  intros; apply DrawFilledPolygon_points.
Qed.

Lemma drawing_faults_out_of_bounds_witness :
  PPM.DrawFilledRectangle (blank 2 2) (mkPoint 1 1) 2 1 red = Panic.
Proof.
  assert (PPM.wf (blank 2 2)) as Hwf.
  { unfold PPM.wf, blank; simpl. repeat split; try lia. repeat constructor. }
  destruct (drawing_faults_out_of_bounds (blank 2 2) red Hwf)
    as (_ & Hpanic & _ & _ & Hrect & _).
  rewrite Hrect. apply Hpanic.
  assert (filled_rectangle_points (mkPoint 1 1) 2 1
          = [mkPoint 1 1; mkPoint 2 1]) as -> by (vm_compute; reflexivity).
  apply Exists_cons_tl, Exists_cons_hd. unfold in_bounds, blank. simpl. lia.
Defined.

(** ** Depth conversion *)

Lemma threshold_agrees_true : threshold_agrees = true.
Proof. vm_compute. reflexivity. Qed.

Lemma In_channel_values v : 0 <= v <= 255 -> In v channel_values.
Proof.
  intros Hv. unfold channel_values. apply in_map_iff.
  exists (Z.to_nat v). split; [lia|]. apply in_seq. lia.
Qed.

#[local] Opaque channel_values.

(** On [uint8] channels the binary64 test [luminosity > 128] decides the
    exact inequality. *)
Lemma threshold_exact p :
  0 <= R p <= 255 -> 0 <= G p <= 255 -> 0 <= B p <= 255 ->
  F64.gtb (luminosity p) 128 = (128000 <? 299 * R p + 587 * G p + 114 * B p).
Proof.
  intros Hr Hg Hb. pose proof threshold_agrees_true as H.
  unfold threshold_agrees in H. cbv zeta in H.
  assert (forall (w : Z) (k : float) v, 0 <= v <= 255 ->
            In ((k * F64.of_int v)%float, w * v)
               ((fun v => ((k * F64.of_int v)%float, w * v))
                <$> channel_values)) as Hin.
  { intros w k v Hv. apply in_map_iff. exists v.
    split; [done|by apply In_channel_values]. }
  rewrite forallb_forall in H.
  specialize (H _ (Hin 299 0.299%float _ Hr)). cbv beta iota in H.
  rewrite forallb_forall in H.
  specialize (H _ (Hin 587 0.587%float _ Hg)). cbv beta iota in H.
  rewrite forallb_forall in H.
  specialize (H _ (Hin 114 0.114%float _ Hb)). cbv beta iota in H.
  by apply eqb_prop.
Qed.

(** C6, as stated: for a graymap whose maximum is 65636 the threshold of
    [PGM.ToPBM] is 50, not 32818: the sample 200 is marked dark although it
    does not exceed half the maximum. *)
Lemma PGM_ToPBM_threshold_wraps_at_16_bits :
  PGM.wf (PGM.mk [[200]] 1 1 "P2" 65636) /\
  PGM.ToPBM (PGM.mk [[200]] 1 1 "P2" 65636)
  = Ok (PBM.mk [[true]] 1 1 "P4") /\
  (65636 / 2 <? 200) = false.
Proof.
  split; [|split; vm_compute; reflexivity].
  unfold PGM.wf; simpl. repeat split; try lia. repeat constructor.
Qed.

Lemma uint16_small v : 0 <= v < 2 ^ 16 -> uint16 v = v.
Proof. intros H. unfold uint16. by apply Z.mod_small. Qed.

(** C6: [PPM.ToPBM] marks a pixel dark exactly when its binary64
    luminosity exceeds 128, whatever the maximum of the pixmap; for
    channels in 0..255 this is the exact inequality
    [299 R + 587 G + 114 B > 128000].  [PGM.ToPBM] marks a sample dark
    exactly when it exceeds half of the maximum reduced to 16 bits, which
    is [max / 2] in integer division whenever the maximum is below 65536.
    A graymap of maximum 255 whose samples are all 200 converts to an
    all-dark bitmap. *)
Theorem ToPBM_thresholds :
  (forall ppm, PPM.wf ppm ->
     exists pbm,
       PPM.ToPBM ppm = Ok pbm /\
       PBM.width pbm = PPM.width ppm /\ PBM.height pbm = PPM.height ppm /\
       PBM.data pbm
       = map (map (fun p => F64.gtb (luminosity p) 128)) (PPM.data ppm)) /\
  (forall p, 0 <= R p <= 255 -> 0 <= G p <= 255 -> 0 <= B p <= 255 ->
     F64.gtb (luminosity p) 128 = true <->
     128 * 1000 < 299 * R p + 587 * G p + 114 * B p) /\
  (forall pgm, PGM.wf pgm ->
     exists pbm,
       PGM.ToPBM pgm = Ok pbm /\
       PBM.width pbm = PGM.width pgm /\ PBM.height pbm = PGM.height pgm /\
       PBM.data pbm
       = map (map (fun v => uint16 (PGM.max pgm) / 2 <? uint16 v))
           (PGM.data pgm)) /\
  (forall pgm, PGM.wf pgm -> PGM.samples_uint8 pgm ->
     0 <= PGM.max pgm < 2 ^ 16 ->
     exists pbm,
       PGM.ToPBM pgm = Ok pbm /\
       PBM.data pbm = map (map (fun v => PGM.max pgm / 2 <? v)) (PGM.data pgm)) /\
  PGM.ToPBM (PGM.mk [[200; 200]; [200; 200]] 2 2 "P2" 255)
  = Ok (PBM.mk [[true; true]; [true; true]] 2 2 "P4").
Proof.
  split.
  { intros ppm Hwf. eexists. split; [by apply PPM_ToPBM_spec|]. done. }
  split.
  { intros p Hr Hg Hb. rewrite threshold_exact by done.
    rewrite Z.ltb_lt. lia. }
  split.
  { intros pgm Hwf. eexists. split; [by apply PGM_ToPBM_spec|]. done. }
  split; [|vm_compute; reflexivity].
  intros pgm Hwf Hs Hmax. eexists. split; [by apply PGM_ToPBM_spec|].
  simpl. rewrite (uint16_small _ Hmax).
  unfold PGM.samples_uint8 in Hs.
  induction Hs as [|row rows Hrow Hrows IH]; [done|].
  simpl. f_equal; [|apply IH].
  clear -Hrow. induction Hrow as [|v vs Hv Hvs IH]; [done|].
  simpl. f_equal; [|apply IH]. rewrite uint16_small; [done|lia].
Qed.

Lemma ToPBM_thresholds_witness :
  exists pbm,
    PPM.ToPBM (PPM.mk [[mkPixel 255 255 255; mkPixel 128 128 128]] 2 1 "P3" 255)
    = Ok pbm /\
    PBM.data pbm = [[true; false]].
Proof.
  destruct ToPBM_thresholds as (H & _).
  destruct (H (PPM.mk [[mkPixel 255 255 255; mkPixel 128 128 128]] 2 1 "P3" 255))
    as (pbm & Hp & _ & _ & Hd).
  - unfold PPM.wf; simpl. repeat split; try lia. repeat constructor.
  - exists pbm. split; [exact Hp|]. rewrite Hd. vm_compute. reflexivity.
Defined.

(** C8, as stated: for the pixel (1,1,1) the exact value of
    [0.299 R + 0.587 G + 0.114 B] is 1, but the binary64 sum of the three
    rounded products is just below 1 and [PPM.ToPGM] stores 0. *)
Lemma ToPGM_is_not_the_exact_floor :
  PPM.wf (PPM.mk [[mkPixel 1 1 1]] 1 1 "P3" 255) /\
  PPM.ToPGM (PPM.mk [[mkPixel 1 1 1]] 1 1 "P3" 255)
  = Ok (PGM.mk [[0]] 1 1 "P2" 255) /\
  exact_gray (mkPixel 1 1 1) = 1.
Proof.
  split; [|split; vm_compute; reflexivity].
  unfold PPM.wf; simpl. repeat split; try lia. repeat constructor.
Qed.

(** C8: [PPM.ToPGM] of a well-formed pixmap is a graymap of the same
    dimensions and the same maximum whose sample, for a pixel (R, G, B), is
    the binary64 value of [0.299 * R + 0.587 * G + 0.114 * B], computed with
    one rounding per operation in that order, truncated towards zero and
    kept as a [uint8]. *)
Theorem ToPGM_luminosity ppm :
  PPM.wf ppm ->
  exists pgm,
    PPM.ToPGM ppm = Ok pgm /\
    PGM.max pgm = PPM.max ppm /\
    PGM.width pgm = PPM.width ppm /\ PGM.height pgm = PPM.height ppm /\
    PGM.data pgm
    = map (map (fun p => F64.to_uint8 (luminosity p))) (PPM.data ppm).
Proof.
  intros Hwf. eexists. split; [by apply PPM_ToPGM_spec|]. done.
Qed.

Lemma ToPGM_luminosity_witness :
  exists pgm,
    PPM.ToPGM (PPM.mk [[mkPixel 255 255 255; mkPixel 10 200 30]] 2 1 "P3" 255)
    = Ok pgm /\
    PGM.data pgm = [[255; 123]].
Proof.
  destruct (ToPGM_luminosity
              (PPM.mk [[mkPixel 255 255 255; mkPixel 10 200 30]] 2 1 "P3" 255))
    as (pgm & Hp & _ & _ & _ & Hd).
  - unfold PPM.wf; simpl. repeat split; try lia. repeat constructor.
  - exists pgm. split; [exact Hp|]. rewrite Hd. vm_compute. reflexivity.
Defined.

(** C10: for every well-formed pixmap, [PPM.ToPBM] returns a bitmap whose
    magic number is [P1], which [Save] writes in the ASCII encoding, and
    [PPM.ToPGM] a graymap whose magic number is [P2]; for every well-formed
    graymap, [PGM.ToPBM] returns a bitmap whose magic number is [P4], which
    [Save] writes in the bit-packed binary encoding. *)
Theorem converted_magic_numbers :
  (forall ppm, PPM.wf ppm ->
     exists pbm pgm,
       PPM.ToPBM ppm = Ok pbm /\ PBM.magicNumber pbm = "P1"%string /\
       PBM.Save pbm = PBM.save_ascii pbm (PBM.header pbm) /\
       PPM.ToPGM ppm = Ok pgm /\ PGM.magicNumber pgm = "P2"%string) /\
  (forall pgm, PGM.wf pgm ->
     exists pbm,
       PGM.ToPBM pgm = Ok pbm /\ PBM.magicNumber pbm = "P4"%string /\
       PBM.Save pbm = PBM.save_binary pbm (PBM.header pbm)).
Proof.
  split.
  - intros ppm Hwf. do 2 eexists.
    split; [by apply PPM_ToPBM_spec|]. split; [done|]. split; [done|].
    split; [by apply PPM_ToPGM_spec|]. done.
  - intros pgm Hwf. eexists.
    split; [by apply PGM_ToPBM_spec|]. split; done.
Qed.

Lemma converted_magic_numbers_witness :
  exists pbm,
    PGM.ToPBM (PGM.mk [[200; 3]] 2 1 "P2" 255) = Ok pbm /\
    PBM.Save pbm = Ok (lit "P4" ++ nl :: lit "2 1" ++ nl :: [byte_of 128]).
Proof.
  destruct converted_magic_numbers as (_ & H).
  destruct (H (PGM.mk [[200; 3]] 2 1 "P2" 255)) as (pbm & Hp & _ & Hs).
  - unfold PGM.wf; simpl. repeat split; try lia. repeat constructor.
  - exists pbm. split; [exact Hp|].
    assert (pbm = PBM.mk [[true; false]] 2 1 "P4") as ->.
    { vm_compute in Hp. by injection Hp. }
    vm_compute. reflexivity.
Defined.


(** ** The buffered reader *)

Lemma ascii_eqb_eq a b : Ascii.eqb a b = true <-> a = b.
Proof. apply Ascii.eqb_eq. Qed.

Lemma cut_Some delim s line rest :
  Reader.cut delim s = Some (line, rest) ->
  exists l, line = l ++ [delim] /\ delim ∉ l /\ s = line ++ rest.
Proof.
  revert line rest. induction s as [|a s IH]; intros line rest; [done|].
  simpl. destruct (Ascii.eqb a delim) eqn:Ha.
  - apply Ascii.eqb_eq in Ha as ->. intros [= <- <-].
    exists []. split; [done|]. split; [apply not_elem_of_nil|done].
  - apply Ascii.eqb_neq in Ha.
    destruct (Reader.cut delim s) as [[line' rest']|]; [|done].
    intros [= <- <-]. destruct (IH _ _ eq_refl) as (l & -> & Hl & ->).
    exists (a :: l). split; [done|]. split; [|done].
    intros [?|?]%elem_of_cons; [congruence|done].
Qed.

Lemma cut_None delim s : Reader.cut delim s = None -> delim ∉ s.
Proof.
  induction s as [|a s IH]; [intros _; apply not_elem_of_nil|].
  simpl. destruct (Ascii.eqb a delim) eqn:Ha; [done|].
  apply Ascii.eqb_neq in Ha.
  destruct (Reader.cut delim s) as [[line' rest']|]; [done|].
  intros _ [?|?]%elem_of_cons; [congruence|by apply IH].
Qed.

(** The first delimiter of a stream splits it in one way only. *)
Lemma first_delim_unique {A} (d : A) l1 l2 r1 r2 :
  d ∉ l1 -> d ∉ l2 -> l1 ++ d :: r1 = l2 ++ d :: r2 -> l1 = l2 /\ r1 = r2.
Proof.
  revert l2. induction l1 as [|a l1 IH]; intros l2 H1 H2 Heq.
  - destruct l2 as [|b l2]; [by injection Heq|].
    injection Heq as <- _. exfalso. apply H2. apply elem_of_cons. by left.
  - destruct l2 as [|b l2].
    + injection Heq as -> _. exfalso. apply H1. apply elem_of_cons. by left.
    + injection Heq as <- Heq.
      destruct (IH l2) as [-> ->]; [| |done|done].
      * intros ?. apply H1. apply elem_of_cons. by right.
      * intros ?. apply H2. apply elem_of_cons. by right.
Qed.

Lemma read_string_S fuel delim frags b :
  Reader.read_string (S fuel) delim frags b =
  match Reader.cut delim (Reader.buf b) with
  | Some (line, rest) => (frags ++ line, true, Reader.mk rest (Reader.rd b))
  | None =>
      match Reader.rd b with
      | [] => (frags ++ Reader.buf b, false, Reader.mk [] [])
      | _ =>
          if (Reader.size <=? length (Reader.buf b))%nat
          then Reader.read_string fuel delim (frags ++ Reader.buf b)
                 (Reader.mk [] (Reader.rd b))
          else
            let n := (Reader.size - length (Reader.buf b))%nat in
            Reader.read_string fuel delim frags
              (Reader.mk (Reader.buf b ++ take n (Reader.rd b))
                         (drop n (Reader.rd b)))
      end
  end.
Proof. reflexivity. Qed.

Lemma read_string_spec fuel delim frags b line ok b' :
  Reader.read_string fuel delim frags b = (line, ok, b') ->
  (reader_measure b < fuel)%nat ->
  delim ∉ frags ->
  frags ++ unread b = line ++ unread b' /\
  (ok = true -> exists l, line = l ++ [delim] /\ delim ∉ l) /\
  (ok = false -> unread b' = [] /\ delim ∉ line).
Proof.
  revert frags b. induction fuel as [|fuel IH]; intros frags b Hr Hm Hfr; [lia|].
  destruct b as [buf rd]. unfold unread in *. rewrite read_string_S in Hr.
  cbn [Reader.buf Reader.rd] in *.
  destruct (Reader.cut delim buf) as [[l rest]|] eqn:Hcut.
  - injection Hr as <- <- <-. simpl.
    apply cut_Some in Hcut as (l' & -> & Hl' & ->).
    split; [by rewrite <- !app_assoc|]. split; [|done].
    intros _. exists (frags ++ l'). split; [by rewrite <- app_assoc|].
    intros [?|?]%elem_of_app; done.
  - apply cut_None in Hcut. destruct rd as [|c rd].
    + injection Hr as <- <- <-. simpl. rewrite !app_nil_r.
      split; [done|]. split; [done|]. intros _. split; [done|].
      intros [?|?]%elem_of_app; done.
    + unfold reader_measure in Hm. cbn [Reader.buf Reader.rd] in Hm.
      destruct (Reader.size <=? length buf)%nat eqn:Hfull.
      * apply IH in Hr as (Heq & Ht & Hf).
        -- cbn [Reader.buf Reader.rd app] in Heq.
           split; [by rewrite <- Heq, <- app_assoc|]. done.
        -- unfold reader_measure. cbn [Reader.buf Reader.rd length].
           assert ((Reader.size <=? 0)%nat = false) as -> by reflexivity.
           cbn [length] in Hm. lia.
        -- intros [?|?]%elem_of_app; done.
      * apply Nat.leb_gt in Hfull.
        apply IH in Hr as (Heq & Ht & Hf); [| |done].
        -- cbn [Reader.buf Reader.rd] in Heq. split; [|done]. rewrite <- Heq.
           by rewrite <- app_assoc, take_drop.
        -- unfold reader_measure. cbn [Reader.buf Reader.rd].
           rewrite length_drop. cbn [length] in *.
           destruct (_ <=? _)%nat; lia.
Qed.

(** [ReadString] hands over the unread stream up to its first delimiter. *)
Lemma ReadString_line delim b l rest :
  unread b = l ++ delim :: rest -> delim ∉ l ->
  exists b', Reader.ReadString delim b = (l ++ [delim], true, b') /\
             unread b' = rest.
Proof.
  intros Hu Hl. unfold Reader.ReadString.
  destruct (Reader.read_string _ delim [] b) as [[line ok] b'] eqn:Hr.
  apply read_string_spec in Hr as (Heq & Ht & Hf);
    [|unfold reader_measure; destruct (_ <=? _)%nat; lia|apply not_elem_of_nil].
  simpl in Heq. rewrite Hu in Heq. destruct ok.
  - destruct (Ht eq_refl) as (l' & -> & Hl').
    rewrite <- app_assoc in Heq. simpl in Heq.
    destruct (first_delim_unique _ _ _ _ _ Hl Hl' Heq) as [-> ->].
    by exists b'.
  - destruct (Hf eq_refl) as (Hnil & Hnot). rewrite Hnil, app_nil_r in Heq.
    exfalso. apply Hnot. rewrite <- Heq. apply elem_of_app. right.
    apply elem_of_cons. by left.
Qed.


(** ** What the decoders return *)

(** ** The decoders *)





Lemma bytes_eqb_eq a b : bytes_eqb a b = true <-> a = b.
Proof.
  unfold bytes_eqb. rewrite String.eqb_eq. split; [|by intros ->].
  intros H. apply (f_equal list_ascii_of_string) in H.
  by rewrite !list_ascii_of_string_of_list_ascii in H.
Qed.

Lemma bytes_eqb_neq a b : bytes_eqb a b = false <-> a <> b.
Proof.
  rewrite <- bytes_eqb_eq. destruct (bytes_eqb a b); split; congruence.
Qed.

Lemma bitmap_magic_test m :
  negb (bytes_eqb m (lit "P1")) && negb (bytes_eqb m (lit "P4")) = false
  <-> bitmap_magic m.
Proof.
  unfold bitmap_magic. rewrite <- !bytes_eqb_eq.
  destruct (bytes_eqb m (lit "P1")), (bytes_eqb m (lit "P4")); simpl;
    split; intros; try done; try tauto.
  destruct H; done.
Qed.

Lemma unread_NewReader file : unread (Reader.NewReader file) = file.
Proof. done. Qed.






(** ** Truncated bitmap data *)


Lemma loop_until_ext {S E} n lo (b1 b2 : Z -> S -> result (S + E)) s :
  (forall k s, b1 k s = b2 k s) -> loop_until n lo b1 s = loop_until n lo b2 s.
Proof.
  intros H. revert lo s. induction n as [|n IH]; intros lo s; [done|].
  simpl. rewrite H. destruct (b2 lo s) as [[s'|e]|]; simpl; [apply IH|done..].
Qed.

Section binary_rows.
Variables (width height expected : Z).
Hypothesis Hw : 0 <= width < 2 ^ 63 - 7.
Hypothesis Hh : 0 <= height.
Hypothesis Hexpected : expected = Z.quot (int_add width 7) 8.





End binary_rows.

(** ** Truncated ASCII bitmap data *)




Section ascii_rows.
Variables (width height : Z).
Hypothesis Hw : 0 <= width.
Hypothesis Hh : 0 <= height.




End ascii_rows.

(** ** Decoding errors *)

Lemma ReadPBM_header l1 l2 rest w h :
  nl ∉ l1 -> bitmap_magic (TrimSpace (l1 ++ [nl])) -> nl ∉ l2 ->
  Sscanf_d_d (TrimSpace (l2 ++ [nl])) = Some (w, h) ->
  0 <= w -> 0 <= h ->
  exists reader,
    unread reader = rest /\
    ReadPBM (l1 ++ nl :: l2 ++ nl :: rest) =
    let magicNumber := TrimSpace (l1 ++ [nl]) in
    let data := replicate (Z.to_nat h) (replicate (Z.to_nat w) false) in
    let* r :=
      if bytes_eqb magicNumber (lit "P1") then
        for_lt_until 0 h (read_ascii_row w) (reader, data)
      else if bytes_eqb magicNumber (lit "P4") then
        for_lt_until 0 h (read_binary_row w (Z.quot (int_add w 7) 8))
          (reader, data)
      else Ok (inl (reader, data)) in
    match r with
    | inl (_, data) =>
        Ok (Some (PBM.mk data w h (string_of_list_ascii magicNumber)), None)
    | inr e => Ok (None, Some e)
    end.
Proof.
  intros Hnl Hm Hnl2 Hs Hw Hh.
  destruct (ReadString_line nl
              (Reader.NewReader (l1 ++ nl :: l2 ++ nl :: rest)) l1
              (l2 ++ nl :: rest)) as (b1 & Hr1 & Hu1); [done..|].
  destruct (ReadString_line nl b1 l2 rest) as (b2 & Hr2 & Hu2); [done..|].
  exists b2. split; [done|].
  unfold ReadPBM. rewrite Hr1. cbv beta iota zeta. cbn [negb].
  apply bitmap_magic_test in Hm. rewrite Hm, Hr2. cbv beta iota zeta.
  cbn [negb]. rewrite Hs. cbv beta iota. rewrite make2_Ok by done. done.
Qed.






(** ** Operations in place: Invert, Flip, Flop *)

(** A loop on a structure that only rewrites one of its fields is a loop
    on that field. *)
Lemma loop_put {S D} (put : D -> S) n lo (body : Z -> S -> result S)
  (dbody : Z -> D -> result D) :
  (forall k d, body k (put d) = let* d' := dbody k d in Ok (put d')) ->
  forall d,
    loop n lo body (put d) = let* d' := loop n lo dbody d in Ok (put d').
Proof.
  intros H. revert lo. induction n as [|n IH]; intros lo d; [done|].
  simpl. rewrite H. destruct (dbody lo d) as [d'|]; simpl; [apply IH|done].
Qed.

Lemma nested_for_inv {S} (P : Z -> Z -> S -> Prop) n m
  (body : Z -> Z -> S -> result S) s :
  0 <= n -> 0 <= m ->
  P 0 0 s ->
  (forall i j s, 0 <= i < n -> 0 <= j < m -> P i j s ->
     exists s', body i j s = Ok s' /\ P i (j + 1) s') ->
  (forall i s, 0 <= i < n -> P i m s -> P (i + 1) 0 s) ->
  exists s',
    for_lt 0 n (fun i s => for_lt 0 m (fun j s => body i j s) s) s = Ok s' /\
    P n 0 s'.
Proof.
  intros Hn Hm H0 Hstep Hrow.
  apply (for_lt_inv (fun i s => P i 0 s)); [done|done|].
  intros i s1 Hi HP.
  destruct (for_lt_inv (fun j s => P i j s) 0 m (fun j s => body i j s) s1)
    as (s2 & Hl & HP2); [done|done| |].
  - intros j s3 Hj HP3. by apply Hstep.
  - exists s2. split; [done|]. by apply Hrow.
Qed.

Section in_place.
Context {A : Type}.
Implicit Types (d : list (list A)).

Lemma cell_Z_is_Some d h w r c :
  shape d (Z.to_nat h) (Z.to_nat w) -> 0 <= r < h -> 0 <= c < w ->
  is_Some (cell d (Z.to_nat r) (Z.to_nat c)).
Proof. intros Hs Hr Hc. apply (cell_lt_is_Some d _ _ _ _ Hs); lia. Qed.

(** [d[i][j] = f(d[i][j])] for every cell, row by row. *)
Lemma map_cells_loop (f : A -> A) (body : Z -> Z -> list (list A) -> result (list (list A)))
  d h w :
  0 <= h -> 0 <= w -> shape d (Z.to_nat h) (Z.to_nat w) ->
  (forall i j d' v, 0 <= i < h -> 0 <= j < w ->
     shape d' (Z.to_nat h) (Z.to_nat w) ->
     cell d' (Z.to_nat i) (Z.to_nat j) = Some v ->
     body i j d' = Ok (set_cell d' (Z.to_nat i) (Z.to_nat j) (f v))) ->
  for_lt 0 h (fun i d => for_lt 0 w (fun j d => body i j d) d) d
  = Ok (map (map f) d).
Proof.
  intros Hh Hw Hs Hbody.
  set (done_ := fun (i j r c : Z) => r < i \/ (r = i /\ c < j)).
  destruct (nested_for_inv (fun i j d' =>
      shape d' (Z.to_nat h) (Z.to_nat w) /\
      forall r c, 0 <= r < h -> 0 <= c < w ->
        (done_ i j r c -> cell d' (Z.to_nat r) (Z.to_nat c)
                          = f <$> cell d (Z.to_nat r) (Z.to_nat c)) /\
        (~ done_ i j r c -> cell d' (Z.to_nat r) (Z.to_nat c)
                            = cell d (Z.to_nat r) (Z.to_nat c)))
      h w body d) as (d' & Hd' & Hsh & Hcells); [done|done| | | |].
  - split; [done|]. intros r c Hr Hc. unfold done_. split; [lia|done].
  - intros i j d1 Hi Hj [Hs1 Hc1].
    destruct (cell_Z_is_Some d1 h w i j Hs1 Hi Hj) as [v Hv].
    rewrite (Hbody i j d1 v) by done.
    eexists. split; [done|]. split; [by apply shape_set_cell|].
    intros r c Hr Hc.
    rewrite (cell_set_cell d1 (Z.to_nat h) (Z.to_nat w)) by (done || lia).
    destruct (Hc1 r c Hr Hc) as [Hd Hn]. unfold done_ in *.
    case_decide as Heq.
    + assert (r = i /\ c = j) as [-> ->] by lia. split; [|lia]. intros _.
      destruct (Hc1 i j Hi Hj) as [_ Hn']. rewrite <- Hn' by lia.
      by rewrite Hv.
    + split; intros H; [apply Hd|apply Hn]; lia.
  - intros i d1 Hi [Hs1 Hc1]. split; [done|].
    intros r c Hr Hc. destruct (Hc1 r c Hr Hc) as [Hd Hn].
    unfold done_ in *. split; intros H; [apply Hd|apply Hn]; lia.
  - rewrite Hd'. f_equal.
    apply (grid_ext _ _ (Z.to_nat h) (Z.to_nat w)); [done| |].
    + destruct Hs as [Hl Hf]. split; [by rewrite length_map|].
      apply Forall_fmap. eapply Forall_impl; [exact Hf|].
      intros row Hrow. simpl. by rewrite length_map.
    + intros r c Hr Hc.
      destruct (Hcells (Z.of_nat r) (Z.of_nat c)) as [Hd _]; [lia..|].
      rewrite !Nat2Z.id in Hd. rewrite Hd by (unfold done_; lia).
      unfold cell. rewrite list_lookup_fmap.
      destruct (d !! r) as [row|]; simpl; [|done].
      by rewrite list_lookup_fmap.
Qed.

(** One exchange of two cells that [sigma] maps to each other. *)
Lemma swap2_moved sigma (D : Z -> Z -> Prop) h w d d' y1 x1 y2 x2 :
  shape d (Z.to_nat h) (Z.to_nat w) ->
  moved sigma D h w d d' ->
  0 <= y1 < h -> 0 <= x1 < w -> 0 <= y2 < h -> 0 <= x2 < w ->
  ~ D y1 x1 -> ~ D y2 x2 ->
  sigma y1 x1 = (y2, x2) -> sigma y2 x2 = (y1, x1) ->
  exists d'',
    swap2 d' y1 x1 y2 x2 = Ok d'' /\
    moved sigma (fun r c => D r c \/ (r = y1 /\ c = x1) \/ (r = y2 /\ c = x2))
      h w d d''.
Proof.
  intros Hs [Hs' Hc'] Hy1 Hx1 Hy2 Hx2 Hn1 Hn2 H12 H21.
  destruct (cell_Z_is_Some d' h w y1 x1 Hs' Hy1 Hx1) as [b Hb].
  destruct (cell_Z_is_Some d' h w y2 x2 Hs' Hy2 Hx2) as [a Ha].
  unfold swap2.
  rewrite (index2_cell d' y2 x2 a) by (done || lia).
  rewrite (index2_cell d' y1 x1 b) by (done || lia). cbn [bind].
  rewrite (store2_set_cell d' (Z.to_nat h) (Z.to_nat w)) by (done || lia).
  cbn [bind].
  rewrite (store2_set_cell _ (Z.to_nat h) (Z.to_nat w))
    by (by apply shape_set_cell || lia).
  eexists. split; [done|]. split; [by do 2 apply shape_set_cell|].
  intros r c Hr Hc.
  rewrite (cell_set_cell _ (Z.to_nat h) (Z.to_nat w))
    by (by apply shape_set_cell || lia).
  rewrite (cell_set_cell d' (Z.to_nat h) (Z.to_nat w)) by (done || lia).
  destruct (Hc' r c Hr Hc) as [Hd Hn].
  destruct (Hc' y1 x1 Hy1 Hx1) as [_ Hk1].
  destruct (Hc' y2 x2 Hy2 Hx2) as [_ Hk2].
  case_decide as E2.
  - assert (r = y2 /\ c = x2) as [-> ->] by lia. split; [|tauto].
    intros _. rewrite H21. cbn [fst snd]. rewrite <- Hk1 by done. done.
  - case_decide as E1.
    + assert (r = y1 /\ c = x1) as [-> ->] by lia. split; [|tauto].
      intros _. rewrite H12. cbn [fst snd]. rewrite <- Hk2 by done. done.
    + split; intros H; [apply Hd|apply Hn]; intuition lia.
Qed.

Lemma moved_region sigma (D D' : Z -> Z -> Prop) h w d d' :
  moved sigma D h w d d' ->
  (forall r c, 0 <= r < h -> 0 <= c < w -> D r c -> D' r c) ->
  (forall r c, 0 <= r < h -> 0 <= c < w ->
     D' r c -> D r c \/ (~ D r c /\ sigma r c = (r, c))) ->
  moved sigma D' h w d d'.
Proof.
  intros [Hs Hc] H1 H2. split; [done|]. intros r c Hr Hc'.
  destruct (Hc r c Hr Hc') as [Hd Hn]. split.
  - intros HD'. destruct (H2 r c Hr Hc' HD') as [HD|[HD Hfix]];
      [by apply Hd|].
    rewrite Hfix. cbn [fst snd]. by apply Hn.
  - intros HD'. apply Hn. intros HD. apply HD'. by apply H1.
Qed.


Lemma moved_init sigma (D : Z -> Z -> Prop) h w d :
  shape d (Z.to_nat h) (Z.to_nat w) ->
  (forall r c, 0 <= r < h -> 0 <= c < w -> ~ D r c) ->
  moved sigma D h w d d.
Proof.
  intros Hs HD. split; [done|]. intros r c Hr Hc.
  split; [|done]. intros H. by destruct (HD r c Hr Hc).
Qed.

Lemma moved_all sigma (D : Z -> Z -> Prop) h w d d' t :
  moved sigma D h w d d' ->
  shape t (Z.to_nat h) (Z.to_nat w) ->
  (forall r c, 0 <= r < h -> 0 <= c < w ->
     D r c \/ (~ D r c /\ sigma r c = (r, c))) ->
  (forall r c, 0 <= r < h -> 0 <= c < w ->
     cell t (Z.to_nat r) (Z.to_nat c)
     = cell d (Z.to_nat (sigma r c).1) (Z.to_nat (sigma r c).2)) ->
  d' = t.
Proof.
  intros [Hs Hc] Ht HD Hcell.
  apply (grid_ext _ _ (Z.to_nat h) (Z.to_nat w)); [done..|].
  intros r c Hr Hc'.
  specialize (Hc (Z.of_nat r) (Z.of_nat c)).
  specialize (HD (Z.of_nat r) (Z.of_nat c)).
  specialize (Hcell (Z.of_nat r) (Z.of_nat c)).
  rewrite !Nat2Z.id in *.
  destruct Hc as [Hd Hn]; [lia..|]. rewrite Hcell by lia.
  destruct HD as [HD|[HD Hfix]]; [lia..|by apply Hd|].
  rewrite Hfix. cbn [fst snd]. rewrite !Nat2Z.id. by apply Hn.
Qed.

Lemma cell_map_reverse d h w r c :
  shape d h w -> (r < h)%nat -> (c < w)%nat ->
  cell (map reverse d) r c = cell d r (w - 1 - c).
Proof.
  intros Hs Hr Hc. unfold cell. rewrite list_lookup_fmap.
  destruct (d !! r) as [row|] eqn:Hrow; [|done]. simpl.
  pose proof (shape_row _ _ _ _ _ Hs Hrow) as Hl.
  rewrite reverse_lookup by lia. f_equal. lia.
Qed.

Lemma cell_reverse d h w r c :
  shape d h w -> (r < h)%nat ->
  cell (reverse d) r c = cell d (h - 1 - r) c.
Proof.
  intros [Hl _] Hr. unfold cell. rewrite reverse_lookup by lia.
  replace (length d - S r)%nat with (h - 1 - r)%nat by lia. done.
Qed.

Lemma shape_map_reverse d h w : shape d h w -> shape (map reverse d) h w.
Proof.
  intros [Hl Hf]. split; [by rewrite length_map|].
  apply Forall_fmap. eapply Forall_impl; [exact Hf|].
  intros row Hrow. simpl. by rewrite length_reverse.
Qed.

Lemma shape_reverse d h w : shape d h w -> shape (reverse d) h w.
Proof.
  intros [Hl Hf]. split; [by rewrite length_reverse|].
  by apply Forall_reverse.
Qed.

(** The loops of [Flip]: every row is reversed. *)
Lemma flip_loop d h w :
  0 <= h -> 0 <= w -> shape d (Z.to_nat h) (Z.to_nat w) ->
  for_lt 0 h (fun i d =>
    for_lt 0 (Z.quot w 2) (fun j d => swap2 d i j i (w - j - 1)) d) d
  = Ok (map reverse d).
Proof.
  intros Hh Hw Hs.
  assert (0 <= Z.quot w 2 /\ 2 * Z.quot w 2 <= w < 2 * Z.quot w 2 + 2)
    as Hq by (rewrite Z.quot_div_nonneg by lia; split;
              [apply Z.div_pos; lia|pose proof (Z.div_mod w 2); pose proof (Z.mod_pos_bound w 2); lia]).
  revert Hq. generalize (Z.quot w 2). intros q Hq.
  set (sigma := fun r c : Z => (r, w - 1 - c)).
  set (D := fun (i j r c : Z) => r < i \/ (r = i /\ (c < j \/ w - 1 - j < c))).
  destruct (nested_for_inv (fun i j d' => moved sigma (D i j) h w d d')
              h q (fun i j d => swap2 d i j i (w - j - 1)) d)
    as (d' & Hd' & Hm); [lia|lia| | | |].
  - apply moved_init; [done|]. intros r c Hr Hc. unfold D. lia.
  - intros i j d1 Hi Hj Hm1.
    destruct (swap2_moved sigma (D i j) h w d d1 i j i (w - j - 1))
      as (d2 & Hsw & Hm2); try (done || lia).
    + unfold D. lia.
    + unfold D. lia.
    + unfold sigma. f_equal; lia.
    + unfold sigma. f_equal; lia.
    + exists d2. split; [done|].
      apply (moved_region _ _ _ _ _ _ _ Hm2); intros r c Hr Hc; unfold D.
      * lia.
      * intros H. left. lia.
  - intros i d1 Hi Hm1.
    apply (moved_region _ _ _ _ _ _ _ Hm1); intros r c Hr Hc; unfold D.
    + lia.
    + intros H.
      assert ((r < i \/ r = i /\ (c < q \/ w - 1 - q < c))
              \/ (~ (r < i \/ r = i /\ (c < q \/ w - 1 - q < c))
                  /\ c = w - 1 - c)) as [?|[? Hfix]] by lia; [by left|].
      right. split; [done|]. unfold sigma. f_equal. lia.
  - rewrite Hd'. f_equal.
    apply (moved_all _ _ _ _ _ _ _ Hm); [by apply shape_map_reverse| |].
    + intros r c Hr Hc. left. unfold D. lia.
    + intros r c Hr Hc. unfold sigma. cbn [fst snd].
      rewrite (cell_map_reverse d _ _ _ _ Hs) by lia. f_equal. lia.
Qed.

(** The loops of [PBM.Flop], column by column. *)
Lemma flop_loop_cols d h w :
  0 <= h -> 0 <= w -> shape d (Z.to_nat h) (Z.to_nat w) ->
  for_lt 0 w (fun x d =>
    for_lt 0 (Z.quot h 2) (fun y d => swap2 d y x (h - y - 1) x) d) d
  = Ok (reverse d).
Proof.
  intros Hh Hw Hs.
  assert (0 <= Z.quot h 2 /\ 2 * Z.quot h 2 <= h < 2 * Z.quot h 2 + 2)
    as Hq by (rewrite Z.quot_div_nonneg by lia; split;
              [apply Z.div_pos; lia|pose proof (Z.div_mod h 2); pose proof (Z.mod_pos_bound h 2); lia]).
  revert Hq. generalize (Z.quot h 2). intros q Hq.
  set (sigma := fun r c : Z => (h - 1 - r, c)).
  set (D := fun (i j r c : Z) => c < i \/ (c = i /\ (r < j \/ h - 1 - j < r))).
  destruct (nested_for_inv (fun i j d' => moved sigma (D i j) h w d d')
              w q (fun x y d => swap2 d y x (h - y - 1) x) d)
    as (d' & Hd' & Hm); [lia|lia| | | |].
  - apply moved_init; [done|]. intros r c Hr Hc. unfold D. lia.
  - intros i j d1 Hi Hj Hm1.
    destruct (swap2_moved sigma (D i j) h w d d1 j i (h - j - 1) i)
      as (d2 & Hsw & Hm2); try (done || lia).
    + unfold D. lia.
    + unfold D. lia.
    + unfold sigma. f_equal; lia.
    + unfold sigma. f_equal; lia.
    + exists d2. split; [done|].
      apply (moved_region _ _ _ _ _ _ _ Hm2); intros r c Hr Hc; unfold D.
      * lia.
      * intros H. left. lia.
  - intros i d1 Hi Hm1.
    apply (moved_region _ _ _ _ _ _ _ Hm1); intros r c Hr Hc; unfold D.
    + lia.
    + intros H.
      assert ((c < i \/ c = i /\ (r < q \/ h - 1 - q < r))
              \/ (~ (c < i \/ c = i /\ (r < q \/ h - 1 - q < r))
                  /\ r = h - 1 - r)) as [?|[? Hfix]] by lia; [by left|].
      right. split; [done|]. unfold sigma. f_equal. lia.
  - rewrite Hd'. f_equal.
    apply (moved_all _ _ _ _ _ _ _ Hm); [by apply shape_reverse| |].
    + intros r c Hr Hc. left. unfold D. lia.
    + intros r c Hr Hc. unfold sigma. cbn [fst snd].
      rewrite (cell_reverse d _ _ _ _ Hs) by lia. f_equal. lia.
Qed.

(** The loops of [PGM.Flop], pair of rows by pair of rows. *)
Lemma flop_loop_rows d h w :
  0 <= h -> 0 <= w -> shape d (Z.to_nat h) (Z.to_nat w) ->
  for_lt 0 (Z.quot h 2) (fun i d =>
    for_lt 0 w (fun j d => swap2 d i j (h - i - 1) j) d) d
  = Ok (reverse d).
Proof.
  intros Hh Hw Hs.
  assert (0 <= Z.quot h 2 /\ 2 * Z.quot h 2 <= h < 2 * Z.quot h 2 + 2)
    as Hq by (rewrite Z.quot_div_nonneg by lia; split;
              [apply Z.div_pos; lia|pose proof (Z.div_mod h 2); pose proof (Z.mod_pos_bound h 2); lia]).
  revert Hq. generalize (Z.quot h 2). intros q Hq.
  set (sigma := fun r c : Z => (h - 1 - r, c)).
  set (D := fun (i j r c : Z) =>
    (r < i \/ h - 1 - i < r) \/ ((r = i \/ r = h - 1 - i) /\ c < j)).
  destruct (nested_for_inv (fun i j d' => moved sigma (D i j) h w d d')
              q w (fun i j d => swap2 d i j (h - i - 1) j) d)
    as (d' & Hd' & Hm); [lia|lia| | | |].
  - apply moved_init; [done|]. intros r c Hr Hc. unfold D. lia.
  - intros i j d1 Hi Hj Hm1.
    destruct (swap2_moved sigma (D i j) h w d d1 i j (h - i - 1) j)
      as (d2 & Hsw & Hm2); try (done || lia).
    + unfold D. lia.
    + unfold D. lia.
    + unfold sigma. f_equal; lia.
    + unfold sigma. f_equal; lia.
    + exists d2. split; [done|].
      apply (moved_region _ _ _ _ _ _ _ Hm2); intros r c Hr Hc; unfold D.
      * lia.
      * intros H. left. lia.
  - intros i d1 Hi Hm1.
    apply (moved_region _ _ _ _ _ _ _ Hm1); intros r c Hr Hc; unfold D.
    + lia.
    + intros H. left. lia.
  - rewrite Hd'. f_equal.
    apply (moved_all _ _ _ _ _ _ _ Hm); [by apply shape_reverse| |].
    + intros r c Hr Hc. unfold D.
      assert (((r < q \/ h - 1 - q < r) \/ (r = q \/ r = h - 1 - q) /\ c < 0)
              \/ (~ ((r < q \/ h - 1 - q < r)
                     \/ (r = q \/ r = h - 1 - q) /\ c < 0)
                  /\ r = h - 1 - r)) as [?|[? Hfix]] by lia; [by left|].
      right. split; [done|]. unfold sigma. f_equal. lia.
    + intros r c Hr Hc. unfold sigma. cbn [fst snd].
      rewrite (cell_reverse d _ _ _ _ Hs) by lia. f_equal. lia.
Qed.

End in_place.

Lemma nested_put {S D} (put : D -> S) n (m : S -> Z) m0
  (body : Z -> Z -> S -> result S) (dbody : Z -> Z -> D -> result D) :
  (forall d, m (put d) = m0) ->
  (forall i j d, body i j (put d) = let* d' := dbody i j d in Ok (put d')) ->
  forall d,
    for_lt 0 n (fun i s => for_lt 0 (m s) (fun j s => body i j s) s) (put d)
    = let* d' :=
        for_lt 0 n (fun i d => for_lt 0 m0 (fun j d => dbody i j d) d) d in
      Ok (put d').
Proof.
  intros Hm Hbody d. unfold for_lt. apply loop_put. intros i d1.
  rewrite Hm. apply loop_put. intros j d2. apply Hbody.
Qed.

(** Exchanging the rows of a slice pair by pair, from both ends, reverses
    it: the loop of [PPM.Flop]. *)
Lemma swap_rows_loop {A} (l : list A) h :
  0 <= h -> length l = Z.to_nat h ->
  for_lt 0 (Z.quot h 2) (fun i l => swap l i (h - 1 - i)) l = Ok (reverse l).
Proof.
  intros Hh Hl.
  assert (0 <= Z.quot h 2 /\ 2 * Z.quot h 2 <= h < 2 * Z.quot h 2 + 2)
    as Hq by (rewrite Z.quot_div_nonneg by lia; split;
              [apply Z.div_pos; lia
              |pose proof (Z.div_mod h 2); pose proof (Z.mod_pos_bound h 2);
               lia]).
  revert Hq. generalize (Z.quot h 2). intros q Hq.
  set (D := fun i r : Z => r < i \/ h - 1 - i < r).
  destruct (for_lt_inv (fun i l' =>
      length l' = Z.to_nat h /\
      forall r, 0 <= r < h ->
        (D i r -> l' !! Z.to_nat r = l !! Z.to_nat (h - 1 - r)) /\
        (~ D i r -> l' !! Z.to_nat r = l !! Z.to_nat r))
      0 q (fun i l => swap l i (h - 1 - i)) l) as (l' & Hl' & Hlen & Hc);
    [lia| | |].
  - split; [done|]. intros r Hr. unfold D. split; [lia|done].
  - intros i l1 Hi [Hl1 Hc1]. unfold swap.
    destruct (lookup_lt_is_Some_2 l1 (Z.to_nat (h - 1 - i))) as [a Ha]; [lia|].
    destruct (lookup_lt_is_Some_2 l1 (Z.to_nat i)) as [b Hb]; [lia|].
    rewrite (proj2 (index_Ok l1 (h - 1 - i) a)) by (split; [lia|done]).
    rewrite (proj2 (index_Ok l1 i b)) by (split; [lia|done]). cbn [bind].
    rewrite store_Ok by lia. cbn [bind].
    rewrite store_Ok by (rewrite length_insert; lia).
    eexists. split; [done|]. split; [by rewrite !length_insert|].
    intros r Hr. destruct (Hc1 r Hr) as [Hd Hn].
    destruct (Hc1 i) as [_ Hni]; [lia|].
    destruct (Hc1 (h - 1 - i)) as [_ Hnj]; [lia|].
    unfold D in *.
    destruct (decide (r = h - 1 - i)) as [->|Hne2].
    + rewrite list_lookup_insert_eq by (rewrite length_insert; lia).
      split; [|lia]. intros _. rewrite <- Hb, Hni by lia. f_equal. lia.
    + rewrite list_lookup_insert_ne by lia.
      destruct (decide (r = i)) as [->|Hne1].
      * rewrite list_lookup_insert_eq by lia. split; [|lia]. intros _.
        rewrite <- Ha. apply Hnj. lia.
      * rewrite list_lookup_insert_ne by lia.
        split; intros H; [apply Hd|apply Hn]; lia.
  - rewrite Hl'. f_equal. apply list_eq. intros k.
    destruct (decide (k < Z.to_nat h)%nat) as [Hk|Hk].
    + rewrite reverse_lookup by lia.
      destruct (Hc (Z.of_nat k)) as [Hd Hn]; [lia|].
      rewrite Nat2Z.id in Hd, Hn. unfold D in *.
      destruct (decide (Z.of_nat k < q \/ h - 1 - q < Z.of_nat k)) as [H|H].
      * rewrite Hd by done. f_equal. lia.
      * rewrite Hn by done. f_equal. lia.
    + rewrite !lookup_ge_None_2; [done| |]; rewrite ?length_reverse; lia.
Qed.

Lemma set_cell_set_cell {A} (d : list (list A)) y x a b :
  set_cell (set_cell d y x a) y x b = set_cell d y x b.
Proof.
  unfold set_cell. rewrite list_alter_alter_eq.
  apply list_alter_ext; [|done].
  intros row _. simpl. by rewrite list_insert_insert_eq.
Qed.

Lemma cell_set_cell_eq {A} (d : list (list A)) h w y x v :
  shape d h w -> (y < h)%nat -> (x < w)%nat ->
  cell (set_cell d y x v) y x = Some v.
Proof.
  intros Hs Hy Hx. rewrite (cell_set_cell d h w) by done.
  by rewrite decide_True.
Qed.

(** A cell other than the one stored reads as before, in or out of
    bounds. *)
Lemma index2_set_cell_ne {A} (d : list (list A)) y x v y' x' :
  0 <= y -> 0 <= x -> (y', x') <> (y, x) ->
  index2 (set_cell d (Z.to_nat y) (Z.to_nat x) v) y' x' = index2 d y' x'.
Proof.
  intros Hy Hx Hne. unfold index2, index, set_cell.
  rewrite length_alter.
  destruct ((0 <=? y') && (y' <? Z.of_nat (length d))) eqn:Hb; [|done].
  apply andb_prop in Hb as [Hb1 Hb2].
  apply Z.leb_le in Hb1. apply Z.ltb_lt in Hb2.
  destruct (decide (Z.to_nat y' = Z.to_nat y)) as [Heq|Hn].
  - rewrite Heq, list_lookup_alter_eq.
    destruct (d !! Z.to_nat y) as [row|]; [|done]. cbn [fmap option_fmap option_map bind].
    rewrite length_insert.
    destruct ((0 <=? x') && (x' <? Z.of_nat (length row))) eqn:Hb'; [|done].
    apply andb_prop in Hb' as [Hb3 Hb4]. apply Z.leb_le in Hb3.
    rewrite list_lookup_insert_ne; [done|].
    intros Hx'. apply Hne. f_equal; lia.
  - by rewrite list_lookup_alter_ne.
Qed.

Lemma index2_Panic {A} (d : list (list A)) h w y x :
  shape d h w ->
  index2 d y x = Panic <-> ~ (0 <= y < Z.of_nat h /\ 0 <= x < Z.of_nat w).
Proof.
  intros Hs. split.
  - intros Hp [Hy Hx].
    destruct (cell_lt_is_Some d h w (Z.to_nat y) (Z.to_nat x) Hs) as [v Hv];
      [lia..|].
    rewrite (index2_cell d y x v) in Hp by (done || lia). done.
  - intros Hn. destruct (index2 d y x) as [v|] eqn:Hi; [|done].
    apply index2_Ok in Hi as (Hy & Hx & Hc).
    apply (cell_Some_lt d h w) in Hc as [? ?]; [|done]. lia.
Qed.

(** *** Bitmaps *)

Lemma PBM_wf_shape pbm :
  PBM.wf pbm ->
  shape (PBM.data pbm) (Z.to_nat (PBM.height pbm)) (Z.to_nat (PBM.width pbm)).
Proof. intros (_ & _ & Hl & Hf). by split. Qed.

Lemma PBM_Invert_spec pbm :
  PBM.wf pbm ->
  PBM.Invert pbm = Ok (PBM.set_data pbm (map (map negb) (PBM.data pbm))).
Proof.
  intros Hwf. pose proof (PBM_wf_shape _ Hwf) as Hs.
  destruct Hwf as (Hw & Hh & _). destruct pbm as [d w h mg].
  cbn [PBM.data PBM.width PBM.height] in *.
  unfold PBM.Invert, PBM.set_data.
  cbn [PBM.data PBM.width PBM.height PBM.magicNumber].
  etrans.
  { eapply (nested_put (fun d => PBM.mk d w h mg) h PBM.width w _
              (fun y x d => let* v := index2 d y x in store2 d y x (negb v))).
    - done.
    - intros i j d1. cbn. by rewrite bind_assoc. }
  rewrite (map_cells_loop negb _ d h w); [done..|].
  intros i j d' v Hi Hj Hs' Hc.
  rewrite (index2_cell d' i j v) by (done || lia). cbn [bind].
  by rewrite (store2_set_cell d' _ _ i j _ Hs') by lia.
Qed.

Lemma PBM_Flip_spec pbm :
  PBM.wf pbm ->
  PBM.Flip pbm = Ok (PBM.set_data pbm (map reverse (PBM.data pbm))).
Proof.
  intros Hwf. pose proof (PBM_wf_shape _ Hwf) as Hs.
  destruct Hwf as (Hw & Hh & _). destruct pbm as [d w h mg].
  cbn [PBM.data PBM.width PBM.height] in *.
  unfold PBM.Flip, PBM.set_data.
  cbn [PBM.data PBM.width PBM.height PBM.magicNumber].
  etrans.
  { eapply (nested_put (fun d => PBM.mk d w h mg) h
              (fun s => Z.quot (PBM.width s) 2) (Z.quot w 2) _
              (fun y x d => swap2 d y x y (w - x - 1))).
    - done.
    - intros i j d1. by cbn. }
  by rewrite flip_loop.
Qed.

Lemma PBM_Flop_spec pbm :
  PBM.wf pbm ->
  PBM.Flop pbm = Ok (PBM.set_data pbm (reverse (PBM.data pbm))).
Proof.
  intros Hwf. pose proof (PBM_wf_shape _ Hwf) as Hs.
  destruct Hwf as (Hw & Hh & _). destruct pbm as [d w h mg].
  cbn [PBM.data PBM.width PBM.height] in *.
  unfold PBM.Flop, PBM.set_data.
  cbn [PBM.data PBM.width PBM.height PBM.magicNumber].
  etrans.
  { eapply (nested_put (fun d => PBM.mk d w h mg) w
              (fun s => Z.quot (PBM.height s) 2) (Z.quot h 2) _
              (fun x y d => swap2 d y x (h - y - 1) x)).
    - done.
    - intros i j d1. by cbn. }
  by rewrite flop_loop_cols.
Qed.

(** *** Graymaps *)

Lemma PGM_Invert_spec pgm :
  PGM.wf pgm ->
  PGM.Invert pgm
  = Ok (PGM.set_data pgm
          (map (map (fun v => uint8 (uint8 (PGM.max pgm) - v)))
             (PGM.data pgm))).
Proof.
  intros Hwf. pose proof (PGM_wf_shape _ Hwf) as Hs.
  destruct Hwf as (Hw & Hh & _). destruct pgm as [d w h mg mx].
  cbn [PGM.data PGM.width PGM.height PGM.max] in *.
  unfold PGM.Invert, PGM.set_data.
  cbn [PGM.data PGM.width PGM.height PGM.magicNumber PGM.max].
  etrans.
  { eapply (nested_put (fun d => PGM.mk d w h mg mx) h PGM.width w _
              (fun i j d => let* v := index2 d i j in
                            store2 d i j (uint8 (uint8 mx - v)))).
    - done.
    - intros i j d1. cbn. by rewrite bind_assoc. }
  rewrite (map_cells_loop (fun v => uint8 (uint8 mx - v)) _ d h w); [done..|].
  intros i j d' v Hi Hj Hs' Hc.
  rewrite (index2_cell d' i j v) by (done || lia). cbn [bind].
  by rewrite (store2_set_cell d' _ _ i j _ Hs') by lia.
Qed.

Lemma PGM_Flip_spec pgm :
  PGM.wf pgm ->
  PGM.Flip pgm = Ok (PGM.set_data pgm (map reverse (PGM.data pgm))).
Proof.
  intros Hwf. pose proof (PGM_wf_shape _ Hwf) as Hs.
  destruct Hwf as (Hw & Hh & _). destruct pgm as [d w h mg mx].
  cbn [PGM.data PGM.width PGM.height PGM.max] in *.
  unfold PGM.Flip, PGM.set_data.
  cbn [PGM.data PGM.width PGM.height PGM.magicNumber PGM.max].
  etrans.
  { eapply (nested_put (fun d => PGM.mk d w h mg mx) h
              (fun s => Z.quot (PGM.width s) 2) (Z.quot w 2) _
              (fun y x d => swap2 d y x y (w - x - 1))).
    - done.
    - intros i j d1. by cbn. }
  by rewrite flip_loop.
Qed.

Lemma PGM_Flop_spec pgm :
  PGM.wf pgm ->
  PGM.Flop pgm = Ok (PGM.set_data pgm (reverse (PGM.data pgm))).
Proof.
  intros Hwf. pose proof (PGM_wf_shape _ Hwf) as Hs.
  destruct Hwf as (Hw & Hh & _). destruct pgm as [d w h mg mx].
  cbn [PGM.data PGM.width PGM.height PGM.max] in *.
  unfold PGM.Flop, PGM.set_data.
  cbn [PGM.data PGM.width PGM.height PGM.magicNumber PGM.max].
  etrans.
  { eapply (nested_put (fun d => PGM.mk d w h mg mx) (Z.quot h 2)
              PGM.width w _
              (fun i j d => swap2 d i j (h - i - 1) j)).
    - done.
    - intros i j d1. by cbn. }
  by rewrite flop_loop_rows.
Qed.

(** *** Pixmaps *)

(** The complement of a pixel for the maximum [mx], in [uint8]
    arithmetic. *)
Lemma PPM_Invert_spec ppm :
  PPM.wf ppm ->
  PPM.Invert ppm
  = Ok (PPM.set_data ppm
          (map (map (fun p => mkPixel (uint8 (PPM.max ppm - R p))
                                      (uint8 (PPM.max ppm - G p))
                                      (uint8 (PPM.max ppm - B p))))
             (PPM.data ppm))).
Proof.
  intros Hwf. pose proof (PPM_wf_shape _ Hwf) as Hs.
  destruct Hwf as (Hw & Hh & _). destruct ppm as [d w h mg mx].
  cbn [PPM.data PPM.width PPM.height PPM.max] in *.
  unfold PPM.Invert, PPM.set_data.
  cbn [PPM.data PPM.width PPM.height PPM.magicNumber PPM.max].
  etrans.
  { eapply (nested_put (fun d => PPM.mk d w h mg mx) h PPM.width w _
              (fun i j d =>
                 let* p := index2 d i j in
                 let* d := store2 d i j
                             (mkPixel (uint8 (mx - R p)) (G p) (B p)) in
                 let* p := index2 d i j in
                 let* d := store2 d i j
                             (mkPixel (R p) (uint8 (mx - G p)) (B p)) in
                 let* p := index2 d i j in
                 store2 d i j (mkPixel (R p) (G p) (uint8 (mx - B p))))).
    - done.
    - intros i j d1. cbn. rewrite !bind_assoc.
      apply bind_ext. intros p1. rewrite !bind_assoc.
      apply bind_ext. intros d2. cbn. rewrite !bind_assoc.
      apply bind_ext. intros p2. rewrite !bind_assoc.
      apply bind_ext. intros d3. cbn. rewrite !bind_assoc.
      apply bind_ext. intros p3. done. }
  rewrite (map_cells_loop
             (fun p => mkPixel (uint8 (mx - R p)) (uint8 (mx - G p))
                               (uint8 (mx - B p))) _ d h w); [done..|].
  intros i j d' v Hi Hj Hs' Hc.
  rewrite (index2_cell d' i j v) by (done || lia). cbn [bind].
  rewrite (store2_set_cell d' _ _ i j _ Hs') by lia. cbn [bind].
  rewrite (index2_cell _ i j _) by
    (try lia; apply (cell_set_cell_eq d' _ _ _ _ _ Hs'); lia).
  cbn [bind R G B].
  rewrite (store2_set_cell _ _ _ i j _ (shape_set_cell _ _ _ _ _ _ Hs')) by lia.
  cbn [bind]. rewrite set_cell_set_cell.
  rewrite (index2_cell _ i j _) by
    (try lia; apply (cell_set_cell_eq d' _ _ _ _ _ Hs'); lia).
  cbn [bind R G B].
  rewrite (store2_set_cell _ _ _ i j _ (shape_set_cell _ _ _ _ _ _ Hs')) by lia.
  by rewrite set_cell_set_cell.
Qed.

Lemma PPM_Flip_spec ppm :
  PPM.wf ppm ->
  PPM.Flip ppm = Ok (PPM.set_data ppm (map reverse (PPM.data ppm))).
Proof.
  intros Hwf. pose proof (PPM_wf_shape _ Hwf) as Hs.
  destruct Hwf as (Hw & Hh & _). destruct ppm as [d w h mg mx].
  cbn [PPM.data PPM.width PPM.height PPM.max] in *.
  unfold PPM.Flip, PPM.set_data.
  cbn [PPM.data PPM.width PPM.height PPM.magicNumber PPM.max].
  etrans.
  { eapply (nested_put (fun d => PPM.mk d w h mg mx) h
              (fun s => Z.quot (PPM.width s) 2) (Z.quot w 2) _
              (fun y x d => swap2 d y x y (w - x - 1))).
    - done.
    - intros i j d1. cbn. by replace (w - 1 - j) with (w - j - 1) by lia. }
  by rewrite flip_loop.
Qed.

Lemma PPM_Flop_spec ppm :
  PPM.wf ppm ->
  PPM.Flop ppm = Ok (PPM.set_data ppm (reverse (PPM.data ppm))).
Proof.
  intros (Hw & Hh & Hl & _). destruct ppm as [d w h mg mx].
  cbn [PPM.data PPM.width PPM.height PPM.max] in *.
  unfold PPM.Flop, PPM.set_data, for_lt.
  cbn [PPM.data PPM.width PPM.height PPM.magicNumber PPM.max].
  etrans.
  { eapply (loop_put (fun d => PPM.mk d w h mg mx) _ _ _
              (fun i d => swap d i (h - 1 - i))).
    intros i d1. by cbn. }
  pose proof (swap_rows_loop d h Hh Hl) as Hr. unfold for_lt in Hr.
  by rewrite Hr.
Qed.

(** ** Inverting, mirroring and turning images *)

Lemma map_map_id {A} (f : A -> A) (P : A -> Prop) (d : list (list A)) :
  (forall v, P v -> f (f v) = v) ->
  Forall (Forall P) d ->
  map (map f) (map (map f) d) = d.
Proof.
  intros Hf Hd. induction Hd as [|row rows Hrow Hrows IH]; [done|].
  simpl. f_equal; [|done]. clear -Hf Hrow.
  induction Hrow as [|v vs Hv Hvs IH]; [done|]. simpl. f_equal; auto.
Qed.

Lemma map_reverse_involutive {A} (d : list (list A)) :
  map reverse (map reverse d) = d.
Proof.
  induction d as [|row rows IH]; [done|]. simpl.
  by rewrite reverse_involutive, IH.
Qed.

Lemma uint8_complement mx v :
  0 <= v < 256 -> uint8 (mx - uint8 (mx - v)) = v.
Proof.
  intros Hv. unfold uint8.
  rewrite Zminus_mod_idemp_r. replace (mx - (mx - v)) with v by lia.
  by apply Z.mod_small.
Qed.

(** [PBM.Invert]: on a well-formed bitmap it succeeds and negates every
    sample, the dimensions and the magic number staying; inverting twice
    gives the bitmap back. *)
Theorem PBM_Invert_negates pbm :
  PBM.wf pbm ->
  PBM.Invert pbm
  = Ok (PBM.mk (map (map negb) (PBM.data pbm)) (PBM.width pbm)
          (PBM.height pbm) (PBM.magicNumber pbm)) /\
  (let* inverted := PBM.Invert pbm in PBM.Invert inverted) = Ok pbm.
Proof.
  intros Hwf. rewrite (PBM_Invert_spec _ Hwf). split; [done|].
  cbn [bind]. rewrite PBM_Invert_spec.
  - destruct pbm as [d w h mg]. unfold PBM.set_data.
    cbn [PBM.data PBM.width PBM.height PBM.magicNumber]. do 2 f_equal.
    apply (map_map_id negb (fun _ => True)).
    + intros v _. apply negb_involutive.
    + apply Forall_forall. intros row _. by apply Forall_forall.
  - destruct Hwf as (Hw & Hh & Hl & Hf). unfold PBM.wf, PBM.set_data.
    cbn [PBM.data PBM.width PBM.height].
    repeat split; [done|done|by rewrite length_map|].
    apply Forall_fmap. eapply Forall_impl; [exact Hf|].
    intros row Hrow. simpl. by rewrite length_map.
Qed.

Lemma PBM_Invert_negates_witness :
  PBM.Invert (PBM.mk [[true; false]; [false; false]] 2 2 "P1")
  = Ok (PBM.mk [[false; true]; [true; true]] 2 2 "P1").
Proof.
  assert (PBM.wf (PBM.mk [[true; false]; [false; false]] 2 2 "P1")) as Hwf.
  { unfold PBM.wf; simpl. repeat split; try lia. repeat constructor. }
  destruct (PBM_Invert_negates _ Hwf) as [H _]. exact H.
Defined.

(** [PGM.Invert] and [PPM.Invert]: on a well-formed image every sample [v]
    becomes [uint8(max) - v] in [uint8] arithmetic, that is [max - v] when
    [v <= max <= 255]; the dimensions, the magic number and the maximum
    stay.  When the samples are [uint8] values, inverting twice gives the
    image back, whatever the maximum. *)
Theorem Invert_complements :
  (forall pgm, PGM.wf pgm ->
     PGM.Invert pgm
     = Ok (PGM.mk (map (map (fun v => uint8 (uint8 (PGM.max pgm) - v)))
                     (PGM.data pgm))
             (PGM.width pgm) (PGM.height pgm) (PGM.magicNumber pgm)
             (PGM.max pgm)) /\
     (PGM.samples_uint8 pgm ->
      (let* inverted := PGM.Invert pgm in PGM.Invert inverted) = Ok pgm)) /\
  (forall ppm, PPM.wf ppm ->
     PPM.Invert ppm
     = Ok (PPM.mk (map (map (fun p =>
                      mkPixel (uint8 (PPM.max ppm - R p))
                              (uint8 (PPM.max ppm - G p))
                              (uint8 (PPM.max ppm - B p))))
                     (PPM.data ppm))
             (PPM.width ppm) (PPM.height ppm) (PPM.magicNumber ppm)
             (PPM.max ppm)) /\
     (Forall (Forall (fun p => 0 <= R p < 256 /\ 0 <= G p < 256
                               /\ 0 <= B p < 256)) (PPM.data ppm) ->
      (let* inverted := PPM.Invert ppm in PPM.Invert inverted) = Ok ppm)) /\
  (forall mx v, 0 <= v <= mx -> mx < 256 -> uint8 (uint8 mx - v) = mx - v).
Proof.
  split; [|split].
  - intros pgm Hwf. rewrite (PGM_Invert_spec _ Hwf). split; [done|].
    intros Hu. cbn [bind]. rewrite PGM_Invert_spec.
    + destruct pgm as [d w h mg mx]. unfold PGM.set_data.
      cbn [PGM.data PGM.width PGM.height PGM.magicNumber PGM.max] in *.
      do 2 f_equal.
      apply (map_map_id _ (fun v => 0 <= v < 256)); [|exact Hu].
      intros v Hv. by apply uint8_complement.
    + destruct Hwf as (Hw & Hh & Hl & Hf). unfold PGM.wf, PGM.set_data.
      cbn [PGM.data PGM.width PGM.height].
      repeat split; [done|done|by rewrite length_map|].
      apply Forall_fmap. eapply Forall_impl; [exact Hf|].
      intros row Hrow. simpl. by rewrite length_map.
  - intros ppm Hwf. rewrite (PPM_Invert_spec _ Hwf). split; [done|].
    intros Hu. cbn [bind]. rewrite PPM_Invert_spec.
    + destruct ppm as [d w h mg mx]. unfold PPM.set_data.
      cbn [PPM.data PPM.width PPM.height PPM.magicNumber PPM.max] in *.
      do 2 f_equal.
      apply (map_map_id _ (fun p => 0 <= R p < 256 /\ 0 <= G p < 256
                                    /\ 0 <= B p < 256)); [|exact Hu].
      intros [r g b] (Hr & Hg & Hb). cbn [R G B] in *.
      by rewrite !uint8_complement.
    + destruct Hwf as (Hw & Hh & Hl & Hf). unfold PPM.wf, PPM.set_data.
      cbn [PPM.data PPM.width PPM.height].
      repeat split; [done|done|by rewrite length_map|].
      apply Forall_fmap. eapply Forall_impl; [exact Hf|].
      intros row Hrow. simpl. by rewrite length_map.
  - intros mx v Hv Hmx. unfold uint8.
    rewrite (Z.mod_small mx) by lia. apply Z.mod_small. lia.
Qed.

Lemma Invert_complements_witness :
  PGM.Invert (PGM.mk [[0; 200]] 2 1 "P2" 255)
  = Ok (PGM.mk [[255; 55]] 2 1 "P2" 255) /\
  PPM.Invert (PPM.mk [[mkPixel 1 2 250]] 1 1 "P3" 100)
  = Ok (PPM.mk [[mkPixel 99 98 106]] 1 1 "P3" 100).
Proof.
  destruct Invert_complements as (Hg & Hp & _). split.
  - destruct (Hg (PGM.mk [[0; 200]] 2 1 "P2" 255)) as [H _]; [|exact H].
    unfold PGM.wf; simpl. repeat split; try lia. repeat constructor.
  - destruct (Hp (PPM.mk [[mkPixel 1 2 250]] 1 1 "P3" 100)) as [H _];
      [|exact H].
    unfold PPM.wf; simpl. repeat split; try lia. repeat constructor.
Defined.

(** [Flip], for the three image types: on a well-formed image it succeeds
    and reverses every row (the sample of column [x] goes to column
    [width - 1 - x]); flipping twice gives the image back. *)
Theorem Flip_mirrors_rows :
  (forall pbm, PBM.wf pbm ->
     PBM.Flip pbm
     = Ok (PBM.mk (map reverse (PBM.data pbm)) (PBM.width pbm)
             (PBM.height pbm) (PBM.magicNumber pbm)) /\
     (let* flipped := PBM.Flip pbm in PBM.Flip flipped) = Ok pbm) /\
  (forall pgm, PGM.wf pgm ->
     PGM.Flip pgm
     = Ok (PGM.mk (map reverse (PGM.data pgm)) (PGM.width pgm)
             (PGM.height pgm) (PGM.magicNumber pgm) (PGM.max pgm)) /\
     (let* flipped := PGM.Flip pgm in PGM.Flip flipped) = Ok pgm) /\
  (forall ppm, PPM.wf ppm ->
     PPM.Flip ppm
     = Ok (PPM.mk (map reverse (PPM.data ppm)) (PPM.width ppm)
             (PPM.height ppm) (PPM.magicNumber ppm) (PPM.max ppm)) /\
     (let* flipped := PPM.Flip ppm in PPM.Flip flipped) = Ok ppm).
Proof.
  split; [|split].
  - intros pbm Hwf. rewrite (PBM_Flip_spec _ Hwf). split; [done|].
    cbn [bind]. rewrite PBM_Flip_spec.
    + destruct pbm as [d w h mg]. unfold PBM.set_data.
      cbn [PBM.data PBM.width PBM.height PBM.magicNumber].
      by rewrite map_reverse_involutive.
    + pose proof (shape_map_reverse _ _ _ (PBM_wf_shape _ Hwf)) as [Hl Hf].
      destruct Hwf as (Hw & Hh & _). by repeat split.
  - intros pgm Hwf. rewrite (PGM_Flip_spec _ Hwf). split; [done|].
    cbn [bind]. rewrite PGM_Flip_spec.
    + destruct pgm as [d w h mg mx]. unfold PGM.set_data.
      cbn [PGM.data PGM.width PGM.height PGM.magicNumber PGM.max].
      by rewrite map_reverse_involutive.
    + pose proof (shape_map_reverse _ _ _ (PGM_wf_shape _ Hwf)) as [Hl Hf].
      destruct Hwf as (Hw & Hh & _). by repeat split.
  - intros ppm Hwf. rewrite (PPM_Flip_spec _ Hwf). split; [done|].
    cbn [bind]. rewrite PPM_Flip_spec.
    + destruct ppm as [d w h mg mx]. unfold PPM.set_data.
      cbn [PPM.data PPM.width PPM.height PPM.magicNumber PPM.max].
      by rewrite map_reverse_involutive.
    + pose proof (shape_map_reverse _ _ _ (PPM_wf_shape _ Hwf)) as [Hl Hf].
      destruct Hwf as (Hw & Hh & _). by repeat split.
Qed.

Lemma Flip_mirrors_rows_witness :
  PBM.Flip (PBM.mk [[true; false; false]; [false; false; true]] 3 2 "P1")
  = Ok (PBM.mk [[false; false; true]; [true; false; false]] 3 2 "P1").
Proof.
  destruct Flip_mirrors_rows as (Hb & _).
  destruct (Hb (PBM.mk [[true; false; false]; [false; false; true]] 3 2 "P1"))
    as [H _]; [|exact H].
  unfold PBM.wf; simpl. repeat split; try lia. repeat constructor.
Defined.

(** [Flop], for the three image types: on a well-formed image it succeeds
    and reverses the order of the rows (row [y] goes to row
    [height - 1 - y]), whether it exchanges samples column by column
    ([PBM]), pair of rows by pair of rows ([PGM]) or whole rows ([PPM]);
    flopping twice gives the image back. *)
Theorem Flop_reverses_rows :
  (forall pbm, PBM.wf pbm ->
     PBM.Flop pbm
     = Ok (PBM.mk (reverse (PBM.data pbm)) (PBM.width pbm)
             (PBM.height pbm) (PBM.magicNumber pbm)) /\
     (let* flopped := PBM.Flop pbm in PBM.Flop flopped) = Ok pbm) /\
  (forall pgm, PGM.wf pgm ->
     PGM.Flop pgm
     = Ok (PGM.mk (reverse (PGM.data pgm)) (PGM.width pgm)
             (PGM.height pgm) (PGM.magicNumber pgm) (PGM.max pgm)) /\
     (let* flopped := PGM.Flop pgm in PGM.Flop flopped) = Ok pgm) /\
  (forall ppm, PPM.wf ppm ->
     PPM.Flop ppm
     = Ok (PPM.mk (reverse (PPM.data ppm)) (PPM.width ppm)
             (PPM.height ppm) (PPM.magicNumber ppm) (PPM.max ppm)) /\
     (let* flopped := PPM.Flop ppm in PPM.Flop flopped) = Ok ppm).
Proof.
  split; [|split].
  - intros pbm Hwf. rewrite (PBM_Flop_spec _ Hwf). split; [done|].
    cbn [bind]. rewrite PBM_Flop_spec.
    + destruct pbm as [d w h mg]. unfold PBM.set_data.
      cbn [PBM.data PBM.width PBM.height PBM.magicNumber].
      by rewrite reverse_involutive.
    + pose proof (shape_reverse _ _ _ (PBM_wf_shape _ Hwf)) as [Hl Hf].
      destruct Hwf as (Hw & Hh & _). by repeat split.
  - intros pgm Hwf. rewrite (PGM_Flop_spec _ Hwf). split; [done|].
    cbn [bind]. rewrite PGM_Flop_spec.
    + destruct pgm as [d w h mg mx]. unfold PGM.set_data.
      cbn [PGM.data PGM.width PGM.height PGM.magicNumber PGM.max].
      by rewrite reverse_involutive.
    + pose proof (shape_reverse _ _ _ (PGM_wf_shape _ Hwf)) as [Hl Hf].
      destruct Hwf as (Hw & Hh & _). by repeat split.
  - intros ppm Hwf. rewrite (PPM_Flop_spec _ Hwf). split; [done|].
    cbn [bind]. rewrite PPM_Flop_spec.
    + destruct ppm as [d w h mg mx]. unfold PPM.set_data.
      cbn [PPM.data PPM.width PPM.height PPM.magicNumber PPM.max].
      by rewrite reverse_involutive.
    + pose proof (shape_reverse _ _ _ (PPM_wf_shape _ Hwf)) as [Hl Hf].
      destruct Hwf as (Hw & Hh & _). by repeat split.
Qed.

Lemma Flop_reverses_rows_witness :
  PGM.Flop (PGM.mk [[1; 2]; [3; 4]; [5; 6]] 2 3 "P2" 255)
  = Ok (PGM.mk [[5; 6]; [3; 4]; [1; 2]] 2 3 "P2" 255).
Proof.
  destruct Flop_reverses_rows as (_ & Hg & _).
  destruct (Hg (PGM.mk [[1; 2]; [3; 4]; [5; 6]] 2 3 "P2" 255))
    as [H _]; [|exact H].
  unfold PGM.wf; simpl. repeat split; try lia. repeat constructor.
Defined.




(** *** Reading and writing one sample *)

Lemma grid_store_load {A} (d : list (list A)) (h w x y : Z) v :
  shape d (Z.to_nat h) (Z.to_nat w) -> 0 <= h -> 0 <= w ->
  (0 <= x < w /\ 0 <= y < h ->
   exists d',
     store2 d y x v = Ok d' /\ shape d' (Z.to_nat h) (Z.to_nat w) /\
     index2 d' y x = Ok v /\
     forall x' y', (x', y') <> (x, y) -> index2 d' y' x' = index2 d y' x') /\
  (~ (0 <= x < w /\ 0 <= y < h) ->
   store2 d y x v = Panic /\ index2 d y x = Panic).
Proof.
  intros Hs Hh Hw. split.
  - intros [Hx Hy]. eexists.
    split; [by apply (store2_set_cell d _ _ y x v Hs); lia|].
    split; [by apply shape_set_cell|]. split.
    + apply index2_cell; [lia..|].
      apply (cell_set_cell_eq d _ _ _ _ _ Hs); lia.
    + intros x' y' Hne. apply index2_set_cell_ne; [lia..|]. congruence.
  - intros Hn. split.
    + apply (store2_Panic d _ _ y x v Hs). lia.
    + apply (index2_Panic d _ _ y x Hs). lia.
Qed.

(** [Set] and [At], for the three image types, on a well-formed image.
    Inside the grid [Set] succeeds, keeps the image well formed with the
    same size, [At] at the same place then returns the value stored, and
    [At] anywhere else returns what it returned before.  Outside the grid
    both [Set] and [At] fail with an index-out-of-range panic. *)
Theorem Set_then_At :
  (forall pbm x y v, PBM.wf pbm ->
     (0 <= x < PBM.width pbm /\ 0 <= y < PBM.height pbm ->
      exists pbm',
        PBM.Set_ pbm x y v = Ok pbm' /\ PBM.wf pbm' /\
        PBM.Size pbm' = PBM.Size pbm /\
        PBM.At pbm' x y = Ok v /\
        forall x' y', (x', y') <> (x, y) ->
          PBM.At pbm' x' y' = PBM.At pbm x' y') /\
     (~ (0 <= x < PBM.width pbm /\ 0 <= y < PBM.height pbm) ->
      PBM.Set_ pbm x y v = Panic /\ PBM.At pbm x y = Panic)) /\
  (forall pgm x y v, PGM.wf pgm ->
     (0 <= x < PGM.width pgm /\ 0 <= y < PGM.height pgm ->
      exists pgm',
        PGM.Set_ pgm x y v = Ok pgm' /\ PGM.wf pgm' /\
        PGM.Size pgm' = PGM.Size pgm /\
        PGM.At pgm' x y = Ok v /\
        forall x' y', (x', y') <> (x, y) ->
          PGM.At pgm' x' y' = PGM.At pgm x' y') /\
     (~ (0 <= x < PGM.width pgm /\ 0 <= y < PGM.height pgm) ->
      PGM.Set_ pgm x y v = Panic /\ PGM.At pgm x y = Panic)) /\
  (forall ppm x y v, PPM.wf ppm ->
     (0 <= x < PPM.width ppm /\ 0 <= y < PPM.height ppm ->
      exists ppm',
        PPM.Set_ ppm x y v = Ok ppm' /\ PPM.wf ppm' /\
        PPM.Size ppm' = PPM.Size ppm /\
        PPM.At ppm' x y = Ok v /\
        forall x' y', (x', y') <> (x, y) ->
          PPM.At ppm' x' y' = PPM.At ppm x' y') /\
     (~ (0 <= x < PPM.width ppm /\ 0 <= y < PPM.height ppm) ->
      PPM.Set_ ppm x y v = Panic /\ PPM.At ppm x y = Panic)).
Proof.
  split; [|split].
  - intros pbm x y v Hwf. pose proof (PBM_wf_shape _ Hwf) as Hs.
    destruct Hwf as (Hw & Hh & _).
    destruct (grid_store_load (PBM.data pbm) _ _ x y v Hs Hh Hw) as [Hin Hout].
    split.
    + intros Hb. destruct (Hin Hb) as (d' & Hst & [Hl Hf] & Hld & Hfr).
      exists (PBM.set_data pbm d'). unfold PBM.Set_, PBM.At. rewrite Hst.
      by repeat split.
    + intros Hb. destruct (Hout Hb) as [Hst Hld].
      unfold PBM.Set_, PBM.At. by rewrite Hst, Hld.
  - intros pgm x y v Hwf. pose proof (PGM_wf_shape _ Hwf) as Hs.
    destruct Hwf as (Hw & Hh & _).
    destruct (grid_store_load (PGM.data pgm) _ _ x y v Hs Hh Hw) as [Hin Hout].
    split.
    + intros Hb. destruct (Hin Hb) as (d' & Hst & [Hl Hf] & Hld & Hfr).
      exists (PGM.set_data pgm d'). unfold PGM.Set_, PGM.At. rewrite Hst.
      by repeat split.
    + intros Hb. destruct (Hout Hb) as [Hst Hld].
      unfold PGM.Set_, PGM.At. by rewrite Hst, Hld.
  - intros ppm x y v Hwf. pose proof (PPM_wf_shape _ Hwf) as Hs.
    destruct Hwf as (Hw & Hh & _).
    destruct (grid_store_load (PPM.data ppm) _ _ x y v Hs Hh Hw) as [Hin Hout].
    split.
    + intros Hb. destruct (Hin Hb) as (d' & Hst & [Hl Hf] & Hld & Hfr).
      exists (PPM.set_data ppm d'). unfold PPM.Set_, PPM.At. rewrite Hst.
      by repeat split.
    + intros Hb. destruct (Hout Hb) as [Hst Hld].
      unfold PPM.Set_, PPM.At. by rewrite Hst, Hld.
Qed.

Lemma Set_then_At_witness :
  exists pbm',
    PBM.Set_ (PBM.mk [[false; false]; [false; false]] 2 2 "P1") 1 0 true
    = Ok pbm' /\
    PBM.At pbm' 1 0 = Ok true /\ PBM.At pbm' 0 1 = Ok false.
Proof.
  destruct Set_then_At as (Hb & _).
  destruct (Hb (PBM.mk [[false; false]; [false; false]] 2 2 "P1") 1 0 true)
    as [Hin _].
  { unfold PBM.wf; simpl. repeat split; try lia. repeat constructor. }
  destruct Hin as (pbm' & Hset & _ & _ & Hat & Hfr); [simpl; lia|].
  exists pbm'. split; [exact Hset|]. split; [exact Hat|].
  rewrite Hfr by congruence. reflexivity.
Defined.

(** ** Printing and parsing decimal numerals *)

Lemma uint_value_digits d acc :
  fold_left (fun n a => 10 * n + (code a - 48))
    (lit (NilEmpty.string_of_uint d)) acc
  = uint_value d acc.
Proof. revert acc. induction d; intros acc; simpl; [done|apply IHd..]. Qed.

Lemma string_of_uint_digits d :
  forallb is_digit (lit (NilEmpty.string_of_uint d)) = true.
Proof. induction d; simpl; [done|apply IHd..]. Qed.

Lemma uint_value_acc d p :
  uint_value d (Z.pos p) = Z.pos (Pos.of_uint_acc d p).
Proof.
  revert p. induction d; intros p; simpl; [done|rewrite <- IHd; f_equal; lia..].
Qed.

Lemma uint_value_of_uint d : uint_value d 0 = Z.of_N (Pos.of_uint d).
Proof.
  induction d; simpl; [done|apply IHd|apply (uint_value_acc d)..].
Qed.

(** What [%d] prints for a non-negative integer is a numeral of that
    value. *)
Lemma fmt_d_numeral z :
  0 <= z -> numeral (fmt_d z) /\ digits_value (fmt_d z) = Some z.
Proof.
  intros Hz. destruct z as [|p|p]; [by split|clear Hz|lia].
  unfold fmt_d. cbn [Z.to_int NilZero.string_of_int].
  pose proof (Unsigned.to_uint_nonnil p) as Hnn.
  assert (NilZero.string_of_uint (Pos.to_uint p)
          = NilEmpty.string_of_uint (Pos.to_uint p)) as ->
    by (unfold NilZero.string_of_uint; by destruct (Pos.to_uint p)).
  assert (lit (NilEmpty.string_of_uint (Pos.to_uint p)) <> []) as Hne
    by (by destruct (Pos.to_uint p)).
  split; [split; [done|apply string_of_uint_digits]|].
  unfold digits_value. rewrite string_of_uint_digits, uint_value_digits.
  rewrite uint_value_of_uint, Unsigned.of_to.
  by destruct (lit (NilEmpty.string_of_uint (Pos.to_uint p))).
Qed.

Lemma numeral_head s :
  numeral s -> exists a s', s = a :: s' /\ is_digit a = true
                            /\ forallb is_digit s' = true.
Proof.
  intros [Hne Hd]. destruct s as [|a s']; [done|].
  simpl in Hd. apply andb_prop in Hd as [Ha Hs]. by exists a, s'.
Qed.

Lemma is_digit_code a : is_digit a = true -> 48 <= code a <= 57.
Proof. unfold is_digit. lia. Qed.

(** A digit starts no white space, is no sign and no newline. *)
Lemma space_width_digit a s : is_digit a = true -> space_width (a :: s) = O.
Proof.
  intros Ha. apply is_digit_code in Ha. unfold space_width.
  destruct s as [|b [|c s]]; cbn [take map].
  - unfold ascii_space.
    destruct ((9 <=? code a) && (code a <=? 13) || (code a =? 32)) eqn:E;
      [lia|done].
  - unfold ascii_space.
    destruct ((9 <=? code a) && (code a <=? 13) || (code a =? 32)) eqn:E;
      [lia|].
    destruct ((code a =? 194) && ((code b =? 133) || (code b =? 160))) eqn:E2;
      [lia|done].
  - unfold ascii_space.
    destruct ((9 <=? code a) && (code a <=? 13) || (code a =? 32)) eqn:E;
      [lia|].
    destruct ((code a =? 194) && ((code b =? 133) || (code b =? 160))) eqn:E2;
      [lia|].
    replace (code a =? 225) with false by lia.
    replace (code a =? 226) with false by lia.
    replace (code a =? 227) with false by lia. done.
Qed.

Lemma Atoi_numeral s z :
  numeral s -> digits_value s = Some z -> z < 2 ^ 63 -> Atoi s = (z, None).
Proof.
  intros Hn Hv Hz. destruct (numeral_head s Hn) as (a & s' & -> & Ha & Hs').
  apply is_digit_code in Ha. unfold Atoi.
  replace (code a =? 45) with false by lia.
  replace (code a =? 43) with false by lia.
  rewrite Hv. by replace (z <? 2 ^ 63) with true by lia.
Qed.

Lemma ParseUint8_numeral s z :
  digits_value s = Some z -> z <= 255 -> ParseUint8 s = (z, None).
Proof.
  intros Hv Hz. unfold ParseUint8. rewrite Hv.
  by replace (z <=? 255) with true by lia.
Qed.

(** ** What [Save] writes *)

(** A loop over the indices of a slice that reads the element and never
    fails is a fold over the slice. *)
Lemma fold_loop {A St} (l : list A) (step : St -> A -> St)
  (body : Z -> St -> result St) (s : St) :
  (forall i a s, l !! i = Some a -> body (Z.of_nat i) s = Ok (step s a)) ->
  for_lt 0 (Z.of_nat (length l)) body s = Ok (fold_left step l s).
Proof.
  intros Hbody. unfold for_lt. rewrite Z.sub_0_r, Nat2Z.id.
  assert (forall l2 k s, drop k l = l2 ->
            loop (length l2) (Z.of_nat k) body s = Ok (fold_left step l2 s))
    as Hgen.
  { induction l2 as [|a l2 IH]; intros k s1 Hd; [done|].
    cbn [length loop fold_left].
    assert (l !! k = Some a) as Hk.
    { rewrite <- (Nat.add_0_r k), <- lookup_drop, Hd. done. }
    rewrite (Hbody k a s1 Hk). cbn [bind].
    replace (Z.of_nat k + 1) with (Z.of_nat (S k)) by lia.
    apply IH. rewrite (drop_S _ _ _ Hk) in Hd. by injection Hd. }
  apply (Hgen l 0%nat s). apply drop_0.
Qed.

Lemma fold_left_append {A} (f : A -> bytes) (l : list A) (out : bytes) :
  fold_left (fun out a => out ++ f a) l out = out ++ concat (map f l).
Proof.
  revert out. induction l as [|a l IH]; intros out; simpl.
  - by rewrite app_nil_r.
  - by rewrite IH, app_assoc.
Qed.

(** The two loops of the ASCII encoders: [f] of every sample, [sep] after
    every row. *)
Lemma save_loop {A} (d : list (list A)) (h w : Z) (f : A -> bytes)
  (sep out : bytes) :
  0 <= h -> 0 <= w -> shape d (Z.to_nat h) (Z.to_nat w) ->
  for_lt 0 h (fun y out =>
    let* out :=
      for_lt 0 w (fun x out =>
        let* v := index2 d y x in Ok (out ++ f v)) out in
    Ok (out ++ sep)) out
  = Ok (out ++ concat (map (fun row => concat (map f row) ++ sep) d)).
Proof.
  intros Hh Hw [Hl Hf].
  replace h with (Z.of_nat (length d)) by lia.
  rewrite (fold_loop d (fun out row => out ++ concat (map f row) ++ sep)).
  - apply f_equal, (fold_left_append (fun row => concat (map f row) ++ sep)).
  - intros y row out1 Hrow.
    assert (length row = Z.to_nat w) as Hlr
      by (rewrite Forall_lookup in Hf; by apply (Hf y)).
    replace w with (Z.of_nat (length row)) by lia.
    rewrite (fold_loop row (fun out v => out ++ f v)).
    + cbn [bind]. by rewrite fold_left_append, app_assoc.
    + intros x v out2 Hv. unfold index2.
      rewrite (index_lookup _ _ _ Hrow). cbn [bind].
      by rewrite (index_lookup _ _ _ Hv).
Qed.

Lemma PBM_Save_ascii pbm :
  PBM.wf pbm -> PBM.magicNumber pbm = "P1"%string ->
  PBM.Save pbm = Ok (PBM.header pbm ++ ascii_rows bit_text (PBM.data pbm)).
Proof.
  intros Hwf Hm. pose proof (PBM_wf_shape _ Hwf) as Hs.
  destruct Hwf as (Hw & Hh & _). unfold PBM.Save, PBM.save_ascii. rewrite Hm.
  cbn [String.eqb Ascii.eqb Bool.eqb].
  by rewrite (save_loop (PBM.data pbm) _ _ bit_text (lit "" ++ [nl])).
Qed.

Lemma PGM_Save_spec pgm :
  PGM.wf pgm ->
  PGM.Save pgm
  = Ok (lit (PGM.magicNumber pgm) ++ [nl]
        ++ fmt_d (PGM.width pgm) ++ lit " " ++ fmt_d (PGM.height pgm) ++ [nl]
        ++ fmt_d (PGM.max pgm) ++ [nl]
        ++ ascii_rows sample_text (PGM.data pgm)).
Proof.
  intros Hwf. pose proof (PGM_wf_shape _ Hwf) as Hs.
  destruct Hwf as (Hw & Hh & _). unfold PGM.Save.
  rewrite (save_loop (PGM.data pgm) _ _ sample_text [nl]) by done.
  f_equal. unfold ascii_rows. by rewrite <- !app_assoc.
Qed.

Lemma PPM_Save_spec ppm :
  PPM.wf ppm ->
  PPM.Save ppm
  = Ok (lit (PPM.magicNumber ppm) ++ [nl]
        ++ fmt_d (PPM.width ppm) ++ lit " " ++ fmt_d (PPM.height ppm) ++ [nl]
        ++ fmt_d (PPM.max ppm) ++ [nl]
        ++ ascii_rows pixel_text (PPM.data ppm)).
Proof.
  intros Hwf. pose proof (PPM_wf_shape _ Hwf) as Hs.
  destruct Hwf as (Hw & Hh & _). unfold PPM.Save.
  rewrite (save_loop (PPM.data ppm) _ _ pixel_text [nl]) by done.
  f_equal. unfold ascii_rows. by rewrite <- !app_assoc.
Qed.

(** ** Words and white space *)

Lemma space_width_plain a s : plain a -> space_width (a :: s) = O.
Proof.
  unfold plain. intros Ha. unfold space_width.
  assert (ascii_space (code a) = false) as Hsp by (unfold ascii_space; lia).
  destruct s as [|b [|c s]]; cbn [take map]; rewrite Hsp.
  - done.
  - by replace (code a =? 194) with false by lia.
  - replace (code a =? 194) with false by lia.
    replace (code a =? 225) with false by lia.
    replace (code a =? 226) with false by lia.
    by replace (code a =? 227) with false by lia.
Qed.

Lemma space_width_ascii_space a s :
  ascii_space (code a) = true -> space_width (a :: s) = 1%nat.
Proof.
  intros Ha. unfold space_width.
  destruct s as [|b [|c s]]; cbn [take map]; by rewrite Ha.
Qed.

Lemma is_digit_plain a : is_digit a = true -> plain a.
Proof. intros H. apply is_digit_code in H. unfold plain. lia. Qed.

Lemma numeral_plain s : numeral s -> Forall plain s.
Proof.
  intros [_ Hd]. apply Forall_forall. intros a Ha.
  apply is_digit_plain. rewrite forallb_forall in Hd. apply Hd.
  by apply list_elem_of_In.
Qed.

(** [strings.Fields] on a word followed by a space or a newline. *)
Lemma fields_from_word t c rest cur :
  Forall plain t -> ascii_space (code c) = true -> cur ++ t <> [] ->
  fields_from (t ++ c :: rest) 0 cur = (cur ++ t) :: fields_from rest 0 [].
Proof.
  intros Ht Hc. revert cur. induction Ht as [|a t Ha Ht IH]; intros cur Hne.
  - rewrite app_nil_r in *. cbn [app fields_from].
    rewrite (space_width_ascii_space c rest Hc).
    by destruct cur.
  - cbn [app fields_from]. rewrite (space_width_plain a _ Ha).
    rewrite IH; [by rewrite <- app_assoc|].
    rewrite <- app_assoc. by destruct cur.
Qed.

Lemma Fields_words {A} (tok : A -> bytes) (row : list A) :
  (forall v, tok v <> [] /\ Forall plain (tok v)) ->
  Fields (concat (map (fun v => tok v ++ lit " ") row) ++ [nl])
  = map tok row.
Proof.
  intros Htok. unfold Fields. induction row as [|v row IH]; [done|].
  cbn [map concat]. rewrite <- !app_assoc. cbn [lit list_ascii_of_string app].
  destruct (Htok v) as [Hne Hp].
  rewrite fields_from_word; [|done|done|done].
  cbn [app]. f_equal. apply IH.
Qed.

(** *** [strings.TrimSpace] *)

Lemma trim_left_plain fuel a s : plain a -> trim_left fuel (a :: s) = a :: s.
Proof.
  intros Ha. destruct fuel; [done|]. cbn [trim_left].
  by rewrite (space_width_plain a s Ha).
Qed.

Lemma snoc_cases {A} (s : list A) : s = [] \/ exists s0 b, s = s0 ++ [b].
Proof.
  destruct s as [|a s] using rev_ind; [by left|]. right. by exists s, a.
Qed.

Lemma last_space_width_plain s a : plain a -> last_space_width (s ++ [a]) = O.
Proof.
  intros Ha. unfold last_space_width.
  rewrite length_app. cbn [length].
  replace (length s + 1 - 1)%nat with (length s) by lia.
  rewrite drop_app_length, (space_width_plain a [] Ha). cbn [Nat.leb].
  pose proof Ha as Ha'. unfold plain in Ha'.
  destruct (snoc_cases s) as [->|(s0 & b & ->)]; [done|].
  rewrite length_app. cbn [length].
  replace (length s0 + 1 + 1 - 2)%nat with (length s0) by lia.
  rewrite <- app_assoc, drop_app_length. cbn [app].
  assert (space_width [b; a] <> 2%nat) as H2.
  { unfold space_width. cbn [take map].
    destruct (ascii_space (code b)); [done|].
    replace ((code a =? 133) || (code a =? 160)) with false by lia.
    by rewrite andb_false_r. }
  apply Nat.eqb_neq in H2. rewrite H2, andb_false_r.
  destruct (snoc_cases s0) as [->|(s1 & c & ->)]; [done|].
  rewrite length_app. cbn [length].
  replace (length s1 + 1 + 1 + 1 - 3)%nat with (length s1) by lia.
  rewrite <- !app_assoc, drop_app_length. cbn [app].
  assert (space_width [c; b; a] <> 3%nat) as H3.
  { unfold space_width. cbn [take map].
    destruct (ascii_space (code c)); [done|].
    destruct ((code c =? 194) && ((code b =? 133) || (code b =? 160)));
      [done|].
    replace (code a =? 128) with false by lia.
    replace (128 <=? code a) with false by lia.
    replace (code a =? 168) with false by lia.
    replace (code a =? 169) with false by lia.
    replace (code a =? 175) with false by lia.
    replace (code a =? 159) with false by lia.
    rewrite !andb_false_r. cbn [andb orb]. rewrite ?andb_false_r. done. }
  apply Nat.eqb_neq in H3. by rewrite H3, andb_false_r.
Qed.

Lemma trim_right_plain fuel s a :
  plain a -> trim_right fuel (s ++ [a]) = s ++ [a].
Proof.
  intros Ha. destruct fuel; [done|]. cbn [trim_right].
  by rewrite (last_space_width_plain s a Ha).
Qed.

Lemma trim_right_newline fuel t :
  trim_right (S fuel) (t ++ [nl]) = trim_right fuel t.
Proof.
  cbn [trim_right].
  assert (last_space_width (t ++ [nl]) = 1%nat) as ->.
  { unfold last_space_width. rewrite length_app. cbn [length].
    replace (length t + 1 - 1)%nat with (length t) by lia.
    by rewrite drop_app_length. }
  rewrite length_app. cbn [length].
  replace (length t + 1 - 1)%nat with (length t) by lia.
  by rewrite take_app_length.
Qed.

(** A text that starts and ends with a byte of a word is its own trim,
    with or without a newline after it. *)
Lemma TrimSpace_text a s b :
  plain a -> plain b ->
  TrimSpace (a :: s ++ [b]) = a :: s ++ [b] /\
  TrimSpace ((a :: s ++ [b]) ++ [nl]) = a :: s ++ [b].
Proof.
  intros Ha Hb. unfold TrimSpace. split.
  - rewrite !trim_left_plain by done.
    apply (trim_right_plain _ (a :: s) b Hb).
  - cbn [app]. rewrite !trim_left_plain by done.
    change (a :: (s ++ [b]) ++ [nl]) with ((a :: s ++ [b]) ++ [nl]).
    rewrite length_app. cbn [length]. rewrite Nat.add_1_r.
    rewrite trim_right_newline.
    apply (trim_right_plain _ (a :: s) b Hb).
Qed.

(** ** Scanning the header of a bitmap *)

Lemma span_digits_all ds :
  forallb is_digit ds = true -> span_digits ds = (ds, []).
Proof.
  induction ds as [|a ds IH]; [done|]. cbn [forallb span_digits].
  intros H. apply andb_prop in H as [Ha Hds]. by rewrite Ha, IH.
Qed.

Lemma span_digits_stop ds c rest :
  forallb is_digit ds = true -> is_digit c = false ->
  span_digits (ds ++ c :: rest) = (ds, c :: rest).
Proof.
  intros Hds Hc. induction ds as [|a ds IH]; cbn [app span_digits].
  - by rewrite Hc.
  - cbn [forallb] in Hds. apply andb_prop in Hds as [Ha Hds].
    by rewrite Ha, IH.
Qed.

Lemma skip_space_plain fuel a s :
  plain a -> skip_space fuel (a :: s) = Some (a :: s).
Proof.
  intros Ha. destruct fuel; [done|]. cbn [skip_space].
  pose proof Ha as Ha'. unfold plain in Ha'.
  replace (code a =? 13) with false by lia.
  replace (code a =? 10) with false by lia. cbn [andb].
  by rewrite (space_width_plain a s Ha).
Qed.

(** The verb [%d] on a numeral that ends the input or is followed by a
    byte that is no digit. *)
Lemma scan_int_numeral n z rest :
  numeral n -> digits_value n = Some z -> z < 2 ^ 63 ->
  match rest with [] => True | c :: _ => is_digit c = false end ->
  scan_int (n ++ rest) = Some (z, rest).
Proof.
  intros Hn Hv Hz Hrest.
  destruct (numeral_head n Hn) as (a & n' & -> & Ha & Hn').
  pose proof (is_digit_plain a Ha) as Hp.
  pose proof (is_digit_code a Ha) as Hc.
  unfold scan_int. cbn [app]. rewrite skip_space_plain by done.
  replace ((code a =? 43) || (code a =? 45)) with false by lia.
  assert (span_digits (a :: n' ++ rest) = (a :: n', rest)) as ->.
  { destruct rest as [|c rest].
    - rewrite app_nil_r. apply span_digits_all. cbn [forallb].
      by rewrite Ha, Hn'.
    - apply (span_digits_stop (a :: n') c rest); [|done].
      cbn [forallb]. by rewrite Ha, Hn'. }
  cbn [app]. by rewrite (Atoi_numeral (a :: n') z Hn Hv Hz).
Qed.

Lemma Sscanf_two_numerals n1 n2 w h :
  numeral n1 -> digits_value n1 = Some w -> w < 2 ^ 63 ->
  numeral n2 -> digits_value n2 = Some h -> h < 2 ^ 63 ->
  Sscanf_d_d (n1 ++ lit " " ++ n2) = Some (w, h).
Proof.
  intros Hn1 Hv1 Hw Hn2 Hv2 Hh.
  destruct (numeral_head n1 Hn1) as (a & n1' & E1 & Ha & Hn1').
  destruct (numeral_head n2 Hn2) as (b & n2' & E2 & Hb & Hn2').
  unfold Sscanf_d_d.
  assert (skip_space (length (n1 ++ lit " " ++ n2)) (n1 ++ lit " " ++ n2)
          = Some (n1 ++ lit " " ++ n2)) as ->.
  { rewrite E1. cbn [app]. apply skip_space_plain. by apply is_digit_plain. }
  rewrite (scan_int_numeral n1 w (lit " " ++ n2)) by done.
  change (lit " " ++ n2) with (" "%char :: n2).
  rewrite (space_width_ascii_space " "%char n2) by done.
  change (code " " =? 10) with false. cbn [Nat.eqb orb length skip_space].
  change (code " " =? 13) with false. change (code " " =? 10) with false.
  cbn [andb].
  rewrite (space_width_ascii_space " "%char n2) by done. cbn [drop].
  rewrite ?drop_0.
  rewrite E2, skip_space_plain by (by apply is_digit_plain).
  rewrite <- E2. rewrite <- (app_nil_r n2).
  by rewrite (scan_int_numeral n2 h []).
Qed.

Lemma numeral_last n :
  numeral n -> exists n' b, n = n' ++ [b] /\ plain b.
Proof.
  intros Hn. pose proof (numeral_plain n Hn) as Hp. destruct Hn as [Hne _].
  destruct (snoc_cases n) as [->|(n' & b & ->)]; [done|].
  exists n', b. split; [done|].
  rewrite Forall_app in Hp. destruct Hp as [_ Hb]. by inversion Hb.
Qed.

Lemma newline_not_plain s : Forall plain s -> nl ∉ s.
Proof.
  intros Hs Hin. rewrite Forall_forall in Hs.
  specialize (Hs nl Hin). unfold plain in Hs.
  change (code nl) with 10 in Hs. lia.
Qed.

(** The line of the dimensions, as [Save] writes it, is read back. *)
Lemma dimensions_line w h :
  0 <= w < 2 ^ 63 -> 0 <= h < 2 ^ 63 ->
  (nl ∉ fmt_d w ++ lit " " ++ fmt_d h) /\
  Sscanf_d_d (TrimSpace ((fmt_d w ++ lit " " ++ fmt_d h) ++ [nl]))
  = Some (w, h).
Proof.
  intros Hw Hh.
  destruct (fmt_d_numeral w) as [Hn1 Hv1]; [lia|].
  destruct (fmt_d_numeral h) as [Hn2 Hv2]; [lia|].
  split.
  - rewrite !not_elem_of_app. split; [|split].
    + by apply newline_not_plain, numeral_plain.
    + intros Hin. apply list_elem_of_singleton in Hin. discriminate.
    + by apply newline_not_plain, numeral_plain.
  - destruct (numeral_head _ Hn1) as (a & n1' & E1 & Ha & _).
    destruct (numeral_last _ Hn2) as (n2' & b & E2 & Hb).
    assert (fmt_d w ++ lit " " ++ fmt_d h
            = a :: (n1' ++ lit " " ++ n2') ++ [b]) as E.
    { rewrite E1, E2. cbn [app]. by rewrite <- !app_assoc. }
    rewrite E.
    rewrite (proj2 (TrimSpace_text a _ b (is_digit_plain a Ha) Hb)).
    rewrite <- E. apply Sscanf_two_numerals; (done || lia).
Qed.

(** ** Reading the rows of a bitmap *)

Lemma loop_until_inv {St E} (P : nat -> St -> Prop) n lo
  (body : Z -> St -> result (St + E)) s :
  P O s ->
  (forall k s, (k < n)%nat -> P k s ->
     exists s', body (lo + Z.of_nat k) s = Ok (inl s') /\ P (S k) s') ->
  exists s', loop_until n lo body s = Ok (inl s') /\ P n s'.
Proof.
  revert P lo s. induction n as [|n IH]; intros P lo s H0 Hstep.
  - by exists s.
  - destruct (Hstep O s) as (s1 & Hb & H1); [lia|done|].
    rewrite Z.add_0_r in Hb. cbn [loop_until]. rewrite Hb. cbn [bind].
    apply (IH (fun k => P (S k))); [done|].
    intros k s2 Hk Hs2. destruct (Hstep (S k) s2) as (s3 & Hb3 & H3);
      [lia|done|].
    exists s3. split; [|done]. rewrite <- Hb3. f_equal. lia.
Qed.

(** Storing the values of [row], one by one, in row [y] of a grid. *)
Lemma fill_row {A E} (row old : list A) (data0 : list (list A)) (y : nat)
  (body : Z -> list (list A) -> result (list (list A) + E)) :
  data0 !! y = Some old -> length old = length row ->
  (forall x v data, row !! x = Some v ->
     body (Z.of_nat x) data
     = let* data' := store2 data (Z.of_nat y) (Z.of_nat x) v in
       Ok (inl data')) ->
  for_lt_until 0 (Z.of_nat (length row)) body data0
  = Ok (inl (<[y := row]> data0)).
Proof.
  intros Hy Hlen Hbody. unfold for_lt_until. rewrite Z.sub_0_r, Nat2Z.id.
  destruct (loop_until_inv
              (fun x data => data = <[y := take x row ++ drop x old]> data0)
              (length row) 0 body data0) as (data' & Hl & Hd).
  - cbn [take drop app]. by rewrite list_insert_id.
  - intros x data Hx ->.
    destruct (lookup_lt_is_Some_2 row x Hx) as [v Hv].
    rewrite Z.add_0_l, (Hbody x v _ Hv). unfold store2.
    pose proof (lookup_lt_Some _ _ _ Hy) as Hylt.
    rewrite (index_lookup _ y (take x row ++ drop x old))
      by (by rewrite list_lookup_insert_eq).
    cbn [bind]. rewrite store_Ok
      by (rewrite length_app, length_take, length_drop; lia).
    cbn [bind]. rewrite store_Ok by (rewrite length_insert; lia).
    cbn [bind]. eexists. split; [done|].
    rewrite !Nat2Z.id, list_insert_insert_eq. f_equal.
    rewrite insert_app_r_alt by (rewrite length_take; lia).
    rewrite length_take. replace (x - x `min` length row)%nat with O by lia.
    rewrite (take_S_r _ _ v Hv), <- app_assoc. f_equal.
    destruct (drop x old) as [|o rest] eqn:Hdrop.
    + apply (f_equal length) in Hdrop. rewrite length_drop in Hdrop.
      cbn [length] in Hdrop. lia.
    + cbn [insert list_insert app]. f_equal.
      assert (drop (S x) old = drop 1 (drop x old)) as ->
        by (rewrite drop_drop; f_equal; lia).
      by rewrite Hdrop.
  - rewrite Hl, Hd. do 3 f_equal.
    rewrite take_ge by lia. rewrite drop_ge by lia. apply app_nil_r.
Qed.

Lemma bit_text_word v :
  bit_text v = (if v : bool then lit "1" else lit "0") ++ lit " ".
Proof. by destruct v. Qed.

Lemma bit_row_no_newline (row : list bool) : nl ∉ concat (map bit_text row).
Proof.
  induction row as [|v row IH]; [apply not_elem_of_nil|].
  cbn [map concat]. rewrite not_elem_of_app. split; [|done].
  destruct v; intros Hin;
    repeat (apply elem_of_cons in Hin as [?|Hin]; [discriminate|]);
    by apply elem_of_nil in Hin.
Qed.

(** One row of a P1 stream written by [Save] is read back into row [y]. *)
Lemma read_ascii_row_text (row old : list bool) rest reader data (y : nat) :
  unread reader = (concat (map bit_text row) ++ [nl]) ++ rest ->
  data !! y = Some old -> length old = length row ->
  exists reader',
    read_ascii_row (Z.of_nat (length row)) (Z.of_nat y) (reader, data)
    = Ok (inl (reader', <[y := row]> data)) /\
    unread reader' = rest.
Proof.
  intros Hu Hy Hlen. unfold read_ascii_row.
  destruct (ReadString_line nl reader (concat (map bit_text row)) rest)
    as (reader' & -> & Hu'); [by rewrite Hu, <- app_assoc|
                              apply bit_row_no_newline|].
  exists reader'. split; [|done]. cbn [negb].
  assert (Fields (concat (map bit_text row) ++ [nl])
          = map (fun v : bool => if v then lit "1" else lit "0") row) as ->.
  { rewrite <- (Fields_words (fun v : bool => if v then lit "1" else lit "0")).
    - do 3 f_equal. apply map_ext. intros v. apply bit_text_word.
    - intros v. destruct v; (split; [done|]);
        (apply Forall_cons; split; [|by apply Forall_nil]); unfold plain.
      + change (code "1") with 49. lia.
      + change (code "0") with 48. lia. }
  rewrite length_map.
  rewrite (fill_row row old data y); [done|done|done|].
  intros x v data1 Hv.
  rewrite (index_lookup _ x (if v then lit "1" else lit "0"))
    by (by rewrite list_lookup_fmap, Hv).
  cbn [bind]. apply lookup_lt_Some in Hv.
  replace (Z.of_nat (length row) <=? Z.of_nat x) with false by lia.
  by destruct v.
Qed.

(** All the rows. *)
Lemma read_ascii_rows (d : list (list bool)) (w : nat) reader :
  Forall (fun row => length row = w) d ->
  unread reader = ascii_rows bit_text d ->
  exists reader',
    for_lt_until 0 (Z.of_nat (length d)) (read_ascii_row (Z.of_nat w))
      (reader, replicate (length d) (replicate w false))
    = Ok (inl (reader', d)).
Proof.
  intros Hf Hu. unfold for_lt_until. rewrite Z.sub_0_r, Nat2Z.id.
  destruct (loop_until_inv
    (fun k (st : Reader.t * list (list bool)) =>
       unread st.1 = ascii_rows bit_text (drop k d) /\
       st.2 = take k d ++ replicate (length d - k) (replicate w false))
    (length d) 0 (read_ascii_row (Z.of_nat w))
    (reader, replicate (length d) (replicate w false)))
    as ([reader' data'] & Hl & Hu' & Hd).
  - cbn [fst snd take drop app]. by rewrite Nat.sub_0_r.
  - intros k [r1 d1] Hk [Hu1 Hd1]. cbn [fst snd] in *.
    destruct (lookup_lt_is_Some_2 d k Hk) as [row Hrow].
    assert (length row = w) as Hlr
      by (rewrite Forall_lookup in Hf; by apply (Hf k)).
    rewrite (drop_S _ _ _ Hrow) in Hu1. unfold ascii_rows in Hu1.
    cbn [map concat] in Hu1.
    destruct (read_ascii_row_text row (replicate w false)
                (ascii_rows bit_text (drop (S k) d)) r1 d1 k)
      as (r2 & Hr & Hu2); [done| |by rewrite length_replicate|].
    { rewrite Hd1, lookup_app_r by (rewrite length_take; lia).
      rewrite length_take. apply lookup_replicate_2. lia. }
    rewrite Hlr in Hr. rewrite Z.add_0_l, Hr.
    exists (r2, <[k := row]> d1). split; [done|]. cbn [fst snd].
    split; [done|]. rewrite Hd1.
    rewrite insert_app_r_alt by (rewrite length_take; lia).
    rewrite length_take. replace (k - k `min` length d)%nat with O by lia.
    rewrite (take_S_r _ _ _ Hrow), <- app_assoc. f_equal.
    replace (length d - k)%nat with (S (length d - S k)) by lia. done.
  - exists reader'. rewrite Hl. cbn [fst snd] in Hd. rewrite Hd.
    rewrite take_ge by lia. rewrite Nat.sub_diag. cbn [replicate].
    by rewrite app_nil_r.
Qed.

(** A well-formed bitmap saved as P1 is read back unchanged. *)
Lemma PBM_ascii_read_back pbm :
  PBM.wf pbm -> PBM.magicNumber pbm = "P1"%string ->
  PBM.width pbm < 2 ^ 63 -> PBM.height pbm < 2 ^ 63 ->
  ReadPBM (PBM.header pbm ++ ascii_rows bit_text (PBM.data pbm))
  = Ok (Some pbm, None).
Proof.
  intros (Hw & Hh & Hl & Hf) Hm Hw' Hh'. destruct pbm as [d w h mg].
  cbn [PBM.data PBM.width PBM.height PBM.magicNumber] in *. subst mg.
  unfold PBM.header. cbn [PBM.magicNumber PBM.width PBM.height].
  destruct (dimensions_line w h) as [Hnl Hscan]; [lia..|].
  destruct (ReadPBM_header (lit "P1") (fmt_d w ++ lit " " ++ fmt_d h)
              (ascii_rows bit_text d) w h) as (reader & Hu & Hr);
    [|by left|done|done|done|done|].
  { intros Hin.
    repeat (apply elem_of_cons in Hin as [?|Hin]; [discriminate|]).
    by apply elem_of_nil in Hin. }
  assert ((lit "P1" ++ [nl] ++ fmt_d w ++ lit " " ++ fmt_d h ++ [nl])
            ++ ascii_rows bit_text d
          = lit "P1" ++ nl :: (fmt_d w ++ lit " " ++ fmt_d h)
              ++ nl :: ascii_rows bit_text d) as ->.
  { cbn [lit list_ascii_of_string app]. do 3 f_equal.
    repeat (rewrite <- app_assoc; cbn [app]). done. }
  rewrite Hr. cbv zeta.
  change (TrimSpace (lit "P1" ++ [nl])) with (lit "P1").
  change (bytes_eqb (lit "P1") (lit "P1")) with true. cbv iota.
  destruct (read_ascii_rows d (Z.to_nat w) reader) as (reader' & Hrows);
    [done|done|].
  rewrite Hl, !Z2Nat.id in Hrows by lia. rewrite Hrows. done.
Qed.

(** ** The length of a numeral *)

Lemma nb_digits_double d :
  (Decimal.nb_digits (Decimal.Little.double d) <= S (Decimal.nb_digits d))%nat
  /\ (Decimal.nb_digits (Decimal.Little.succ_double d)
      <= S (Decimal.nb_digits d))%nat.
Proof. induction d; simpl; lia. Qed.

Lemma nb_digits_to_little_uint p :
  (Decimal.nb_digits (Pos.to_little_uint p) <= Pos.size_nat p)%nat.
Proof.
  induction p as [p IH|p IH|]; simpl; [| |lia].
  - pose proof (proj2 (nb_digits_double (Pos.to_little_uint p))). lia.
  - pose proof (proj1 (nb_digits_double (Pos.to_little_uint p))). lia.
Qed.

Lemma size_nat_bound p n :
  Z.pos p < 2 ^ Z.of_nat n -> (Pos.size_nat p <= n)%nat.
Proof.
  revert n. induction p as [p IH|p IH|]; intros n Hp; simpl.
  - destruct n as [|n]; [simpl in Hp; lia|].
    rewrite Nat2Z.inj_succ, Z.pow_succ_r in Hp by lia.
    specialize (IH n). lia.
  - destruct n as [|n]; [simpl in Hp; lia|].
    rewrite Nat2Z.inj_succ, Z.pow_succ_r in Hp by lia.
    specialize (IH n). lia.
  - destruct n as [|n]; [simpl in Hp; lia|lia].
Qed.

Lemma length_string_of_uint d :
  length (lit (NilEmpty.string_of_uint d)) = Decimal.nb_digits d.
Proof. induction d; simpl; [done|by rewrite IHd..]. Qed.

(** A non-negative integer below [2^n] prints in at most [n] digits (and
    at least one). *)
Lemma length_fmt_d z n :
  0 <= z < 2 ^ Z.of_nat n -> (length (fmt_d z) <= Nat.max 1 n)%nat.
Proof.
  intros [Hz Hn]. destruct z as [|p|p]; [simpl; lia| |lia].
  unfold fmt_d. cbn [Z.to_int NilZero.string_of_int].
  pose proof (Unsigned.to_uint_nonnil p) as Hnn.
  assert (NilZero.string_of_uint (Pos.to_uint p)
          = NilEmpty.string_of_uint (Pos.to_uint p)) as ->
    by (unfold NilZero.string_of_uint; by destruct (Pos.to_uint p)).
  rewrite length_string_of_uint. unfold Pos.to_uint.
  rewrite nb_digits_rev.
  pose proof (nb_digits_to_little_uint p).
  pose proof (size_nat_bound p n Hn). lia.
Qed.

(** ** The line scanner *)

Lemma code_inj a b : code a = code b -> a = b.
Proof.
  unfold code. intros H. apply N2Z.inj in H.
  rewrite <- (ascii_N_embedding a), <- (ascii_N_embedding b). by rewrite H.
Qed.

Lemma cut_line_take (N : nat) line rest :
  nl ∉ line -> (length line < N)%nat ->
  exists rest',
    Scanner.cut_line (take N (line ++ nl :: rest)) = Some (line, rest').
Proof.
  revert N. induction line as [|a line IH]; intros N Hnl HN.
  - destruct N as [|N]; [simpl in HN; lia|]. by eexists.
  - destruct N as [|N]; [simpl in HN; lia|].
    apply not_elem_of_cons in Hnl as [Ha Hnl].
    cbn [app take Scanner.cut_line].
    assert ((code a =? 10) = false) as ->.
    { apply Z.eqb_neq. intros Hc. apply Ha. by apply code_inj. }
    destruct (IH N Hnl) as (rest' & ->); [simpl in HN; lia|]. by eexists.
Qed.

Lemma dropCR_text line :
  match last line with Some a => code a <> 13 | None => True end ->
  Scanner.dropCR line = line.
Proof.
  unfold Scanner.dropCR. destruct (last line) as [a|]; [|done].
  intros Ha. by replace (code a =? 13) with false by lia.
Qed.

(** [Scan] on a running scanner whose input starts with a line shorter
    than the token limit. *)
Lemma ScanLine_line s line rest :
  Scanner.state s = Scanner.Running ->
  Scanner.input s = line ++ nl :: rest ->
  nl ∉ line -> (length line < Scanner.MaxScanTokenSize)%nat ->
  Scanner.ScanLine s
  = (true, Scanner.mk rest (Scanner.dropCR line) Scanner.Running).
Proof.
  intros Hst Hin Hnl Hlen. unfold Scanner.ScanLine. rewrite Hst, Hin.
  destruct (cut_line_take Scanner.MaxScanTokenSize line rest Hnl Hlen)
    as (rest' & ->).
  destruct (line ++ nl :: rest) eqn:E; [by destruct line|]. rewrite <- E.
  replace (S (length line)) with (length (line ++ [nl]))
    by (rewrite length_app; simpl; lia).
  replace (line ++ nl :: rest) with ((line ++ [nl]) ++ rest)
    by (by rewrite <- app_assoc).
  by rewrite drop_app_length.
Qed.

Lemma MaxScanTokenSize_eq : Z.of_nat Scanner.MaxScanTokenSize = 65536.
Proof. vm_compute. reflexivity. Qed.

(** ** The header of a graymap *)

Lemma split_space_plain t cur rest :
  Forall plain t -> split_space (t ++ rest) cur = split_space rest (cur ++ t).
Proof.
  intros Ht. revert cur. induction Ht as [|a t Ha Ht IH]; intros cur.
  - by rewrite app_nil_r.
  - cbn [app split_space]. unfold plain in Ha.
    replace (code a =? 32) with false by lia.
    by rewrite IH, <- app_assoc.
Qed.

Lemma Split_space_two n1 n2 :
  Forall plain n1 -> Forall plain n2 ->
  Split_space (n1 ++ lit " " ++ n2) = [n1; n2].
Proof.
  intros H1 H2. unfold Split_space.
  rewrite split_space_plain by done. cbn [app lit list_ascii_of_string].
  cbn [split_space]. change (code " " =? 32) with true. cbv iota.
  rewrite <- (app_nil_r n2), split_space_plain by done.
  cbn [split_space app]. by rewrite app_nil_r.
Qed.

Lemma TrimSpace_numeral n : numeral n -> TrimSpace n = n.
Proof.
  intros Hn.
  destruct (numeral_head n Hn) as (a & n' & E1 & Ha & _).
  destruct (numeral_last n Hn) as (n'' & b & E2 & Hb).
  unfold TrimSpace. rewrite E1, !trim_left_plain by (by apply is_digit_plain).
  rewrite <- E1, E2. by apply trim_right_plain.
Qed.

Lemma TrimSpace_dimensions w h :
  0 <= w -> 0 <= h ->
  TrimSpace (fmt_d w ++ lit " " ++ fmt_d h) = fmt_d w ++ lit " " ++ fmt_d h.
Proof.
  intros Hw Hh.
  destruct (fmt_d_numeral w Hw) as [Hn1 _].
  destruct (fmt_d_numeral h Hh) as [Hn2 _].
  destruct (numeral_head _ Hn1) as (a & n1' & E1 & Ha & _).
  destruct (numeral_last _ Hn2) as (n2' & b & E2 & Hb).
  assert (fmt_d w ++ lit " " ++ fmt_d h
          = a :: (n1' ++ lit " " ++ n2') ++ [b]) as ->.
  { rewrite E1, E2. cbn [app]. by rewrite <- !app_assoc. }
  apply (TrimSpace_text a _ b (is_digit_plain a Ha) Hb).
Qed.

(** ** Reading the rows of a graymap *)

Lemma Fields_words_line {A} (tok : A -> bytes) (row : list A) :
  (forall v, In v row -> tok v <> [] /\ Forall plain (tok v)) ->
  Fields (concat (map (fun v => tok v ++ lit " ") row)) = map tok row.
Proof.
  intros Htok. unfold Fields. induction row as [|v row IH]; [done|].
  cbn [map concat]. rewrite <- !app_assoc. cbn [lit list_ascii_of_string app].
  destruct (Htok v) as [Hne Hp]; [by left|].
  rewrite fields_from_word; [|done|done|done].
  cbn [app]. f_equal. apply IH. intros v' Hv'. apply Htok. by right.
Qed.

Lemma sample_lengths_ok_true : sample_lengths_ok = true.
Proof. vm_compute. reflexivity. Qed.

Lemma length_fmt_d_sample v : 0 <= v < 256 -> (length (fmt_d v) <= 3)%nat.
Proof.
  intros Hv. pose proof sample_lengths_ok_true as H.
  unfold sample_lengths_ok in H. rewrite forallb_forall in H.
  specialize (H v (In_channel_values v ltac:(lia))).
  by apply Nat.leb_le in H.
Qed.

Lemma length_sample_row (row : list Z) :
  Forall (fun v => 0 <= v < 256) row ->
  (length (concat (map sample_text row)) <= 4 * length row)%nat.
Proof.
  induction 1 as [|v row Hv Hrow IH]; [done|].
  cbn [map concat length]. rewrite length_app. unfold sample_text at 1.
  rewrite length_app. cbn [lit list_ascii_of_string length].
  pose proof (length_fmt_d_sample v Hv). lia.
Qed.

Lemma sample_row_no_newline (row : list Z) :
  Forall (fun v => 0 <= v < 256) row -> nl ∉ concat (map sample_text row).
Proof.
  induction 1 as [|v row Hv Hrow IH]; [apply not_elem_of_nil|].
  cbn [map concat]. rewrite not_elem_of_app. split; [|done].
  unfold sample_text. rewrite not_elem_of_app. split.
  - apply newline_not_plain, numeral_plain, fmt_d_numeral. lia.
  - intros Hin. apply list_elem_of_singleton in Hin. discriminate.
Qed.

Lemma last_sample_row (row : list Z) :
  match last (concat (map sample_text row)) with
  | Some a => code a <> 13
  | None => True
  end.
Proof.
  destruct (snoc_cases row) as [->|(row' & v & ->)]; [done|].
  rewrite map_app, concat_app. cbn [map concat]. rewrite app_nil_r.
  unfold sample_text. rewrite !app_assoc. cbn [lit list_ascii_of_string].
  rewrite last_snoc. by change (code " ") with 32.
Qed.

(** One row of a P2 stream written by [Save] is read into row [i]. *)
Lemma read_graymap_rows (d : list (list Z)) (w : nat) t
  (body : Z -> Scanner.t * list (list Z)
          -> result (Scanner.t * list (list Z) + error)) :
  (forall i scanner data,
     body i (scanner, data) =
     let* fresh := make (Z.of_nat w) 0 in
     let* data := store data i fresh in
     let '(_, scanner) := Scanner.ScanLine scanner in
     let row := Fields (Scanner.Text scanner) in
     let* r :=
       for_lt_until 0 (Z.of_nat w) (fun j data =>
         let* tok := index row j in
         match ParseUint8 tok with
         | (_, Some e) => Ok (inr (ErrNum e tok))
         | (value, None) =>
             let* data := store2 data i j (uint8 value) in
             Ok (inl data)
         end) data in
     match r with
     | inl data => Ok (inl (scanner, data))
     | inr e => Ok (inr e)
     end) ->
  Forall (fun row => length row = w) d ->
  Forall (Forall (fun v => 0 <= v < 256)) d ->
  4 * Z.of_nat w < 65536 ->
  exists scanner',
    for_lt_until 0 (Z.of_nat (length d)) body
      (Scanner.mk (ascii_rows sample_text d) t Scanner.Running,
       replicate (length d) [])
    = Ok (inl (scanner', d)).
Proof.
  intros Hbody Hf Hu Hw. unfold for_lt_until. rewrite Z.sub_0_r, Nat2Z.id.
  destruct (loop_until_inv
    (fun k (st : Scanner.t * list (list Z)) =>
       Scanner.state st.1 = Scanner.Running /\
       Scanner.input st.1 = ascii_rows sample_text (drop k d) /\
       st.2 = take k d ++ replicate (length d - k) [])
    (length d) 0 body
    (Scanner.mk (ascii_rows sample_text d) t Scanner.Running,
     replicate (length d) []))
    as ([sc' data'] & Hl & _ & _ & Hd).
  - cbn [fst snd take drop app Scanner.state Scanner.input].
    by rewrite Nat.sub_0_r.
  - intros k [sc d1] Hk (Hst & Hin & Hd1). cbn [fst snd] in *.
    destruct (lookup_lt_is_Some_2 d k Hk) as [row Hrow].
    assert (length row = w) as Hlr
      by (rewrite Forall_lookup in Hf; by apply (Hf k)).
    assert (Forall (fun v => 0 <= v < 256) row) as Hur
      by (rewrite Forall_lookup in Hu; by apply (Hu k)).
    rewrite (drop_S _ _ _ Hrow) in Hin. unfold ascii_rows in Hin.
    cbn [map concat] in Hin. rewrite <- app_assoc in Hin.
    rewrite Z.add_0_l, Hbody. rewrite make_Ok by lia. cbn [bind].
    rewrite store_Ok
      by (rewrite Hd1, length_app, length_take, length_replicate; lia).
    cbn [bind]. rewrite !Nat2Z.id.
    rewrite (ScanLine_line sc (concat (map sample_text row)) _ Hst Hin).
    2: by apply sample_row_no_newline.
    2: { pose proof (length_sample_row row Hur).
         pose proof MaxScanTokenSize_eq. lia. }
    cbn [Scanner.Text Scanner.text].
    rewrite (dropCR_text _ (last_sample_row row)).
    unfold sample_text at 1.
    rewrite (Fields_words_line fmt_d row).
    2: { intros v Hv. rewrite Forall_forall in Hur.
         apply list_elem_of_In in Hv. specialize (Hur v Hv).
         destruct (fmt_d_numeral v) as [Hn _]; [lia|].
         split; [apply Hn|by apply numeral_plain]. }
    replace (Z.of_nat w) with (Z.of_nat (length row)) by lia.
    rewrite (fill_row row (replicate w 0) _ k).
    + cbn [bind]. eexists. split; [done|]. cbn [fst snd].
      split; [done|]. split; [done|].
      rewrite list_insert_insert_eq, Hd1.
      rewrite insert_app_r_alt by (rewrite length_take; lia).
      rewrite length_take. replace (k - k `min` length d)%nat with O by lia.
      rewrite (take_S_r _ _ _ Hrow), <- app_assoc. f_equal.
      replace (length d - k)%nat with (S (length d - S k)) by lia. done.
    + apply list_lookup_insert_eq.
      rewrite Hd1, length_app, length_take, length_replicate. lia.
    + by rewrite length_replicate.
    + intros x v data1 Hv.
      rewrite (index_lookup _ x (fmt_d v))
        by (by rewrite list_lookup_fmap, Hv).
      cbn [bind]. rewrite Forall_lookup in Hur. specialize (Hur x v Hv).
      destruct (fmt_d_numeral v) as [_ Hval]; [lia|].
      rewrite (ParseUint8_numeral _ v Hval) by lia.
      unfold uint8. by rewrite Z.mod_small by lia.
  - exists sc'. rewrite Hl. cbn [fst snd] in Hd. rewrite Hd.
    rewrite take_ge by lia. rewrite Nat.sub_diag. cbn [replicate].
    by rewrite app_nil_r.
Qed.

Lemma length_dimensions w h :
  0 <= w < 2 ^ 63 -> 0 <= h < 2 ^ 63 ->
  (length (fmt_d w ++ lit " " ++ fmt_d h) <= 127)%nat.
Proof.
  intros Hw Hh. rewrite !length_app. cbn [lit list_ascii_of_string length].
  pose proof (length_fmt_d w 63 ltac:(simpl; lia)).
  pose proof (length_fmt_d h 63 ltac:(simpl; lia)). lia.
Qed.

Lemma last_plain_not_CR s b :
  plain b ->
  match last (s ++ [b]) with Some a => code a <> 13 | None => True end.
Proof. intros Hb. rewrite last_snoc. unfold plain in Hb. lia. Qed.

(** A well-formed graymap saved as P2 is read back unchanged, when a row
    of text fits the scanner's buffer. *)
Lemma PGM_read_back pgm :
  PGM.wf pgm -> PGM.magicNumber pgm = "P2"%string ->
  PGM.samples_uint8 pgm ->
  PGM.width pgm < 2 ^ 63 -> PGM.height pgm < 2 ^ 63 ->
  0 <= PGM.max pgm < 2 ^ 63 ->
  4 * PGM.width pgm < 65536 ->
  ReadPGM (lit (PGM.magicNumber pgm) ++ [nl]
           ++ fmt_d (PGM.width pgm) ++ lit " " ++ fmt_d (PGM.height pgm)
           ++ [nl] ++ fmt_d (PGM.max pgm) ++ [nl]
           ++ ascii_rows sample_text (PGM.data pgm))
  = Ok (Some pgm, None).
Proof.
  intros (Hw & Hh & Hl & Hf) Hm Hu Hw' Hh' Hmx Hrow.
  destruct pgm as [d w h mg mx]. unfold PGM.samples_uint8 in Hu.
  cbn [PGM.data PGM.width PGM.height PGM.magicNumber PGM.max] in *. subst mg.
  destruct (fmt_d_numeral w Hw) as [Hn1 Hv1].
  destruct (fmt_d_numeral h Hh) as [Hn2 Hv2].
  destruct (fmt_d_numeral mx) as [Hn3 Hv3]; [lia|].
  destruct (dimensions_line w h) as [Hnl _]; [lia..|].
  pose proof MaxScanTokenSize_eq as HN.
  unfold ReadPGM.
  (* the magic number *)
  rewrite (ScanLine_line (Scanner.NewScanner _) (lit "P2")
             (fmt_d w ++ lit " " ++ fmt_d h ++ [nl] ++ fmt_d mx ++ [nl]
              ++ ascii_rows sample_text d)); [|done|done| |].
  2: { intros Hin.
       repeat (apply elem_of_cons in Hin as [?|Hin]; [discriminate|]).
       by apply elem_of_nil in Hin. }
  2: { cbn [lit list_ascii_of_string length]. lia. }
  cbn [Scanner.Text Scanner.text].
  (* the dimensions *)
  rewrite (ScanLine_line _ (fmt_d w ++ lit " " ++ fmt_d h)
             (fmt_d mx ++ [nl] ++ ascii_rows sample_text d)); [|done| |done|].
  2: { cbn [Scanner.input]. by rewrite <- !app_assoc. }
  2: { pose proof (length_dimensions w h). lia. }
  cbn [Scanner.Text Scanner.text].
  destruct (numeral_last _ Hn2) as (n2' & b2 & E2 & Hb2).
  assert (Scanner.dropCR (fmt_d w ++ lit " " ++ fmt_d h)
          = fmt_d w ++ lit " " ++ fmt_d h) as ->.
  { apply dropCR_text. rewrite E2, !app_assoc.
    by apply last_plain_not_CR. }
  rewrite TrimSpace_dimensions by done.
  rewrite Split_space_two by (by apply numeral_plain).
  change (index [fmt_d w; fmt_d h] 0) with (Ok (fmt_d w)).
  change (index [fmt_d w; fmt_d h] 1) with (Ok (fmt_d h)).
  cbn [bind].
  rewrite (Atoi_numeral _ w Hn1 Hv1) by lia.
  rewrite (Atoi_numeral _ h Hn2 Hv2) by lia.
  (* the maximum *)
  rewrite (ScanLine_line _ (fmt_d mx) (ascii_rows sample_text d));
    [|done|done| |].
  2: by apply newline_not_plain, numeral_plain.
  2: { pose proof (length_fmt_d mx 63 ltac:(simpl; lia)). lia. }
  cbn [Scanner.Text Scanner.text].
  destruct (numeral_last _ Hn3) as (n3' & b3 & E3 & Hb3).
  assert (Scanner.dropCR (fmt_d mx) = fmt_d mx) as ->.
  { apply dropCR_text. rewrite E3. by apply last_plain_not_CR. }
  rewrite (TrimSpace_numeral _ Hn3).
  rewrite (Atoi_numeral _ mx Hn3 Hv3) by lia.
  rewrite make_Ok by done. cbn [bind].
  (* the rows *)
  match goal with
  | |- context [for_lt_until 0 h ?body ?s] =>
      destruct (read_graymap_rows d (Z.to_nat w)
                  (Scanner.dropCR (fmt_d mx)) body) as (sc' & Hrows)
  end.
  { intros i scanner data. rewrite Z2Nat.id by done. reflexivity. }
  { done. }
  { done. }
  { lia. }
  rewrite Hl, Z2Nat.id in Hrows by done.
  assert (Scanner.dropCR (fmt_d mx) = fmt_d mx) as Hcr.
  { apply dropCR_text. rewrite E3. by apply last_plain_not_CR. }
  rewrite Hcr in Hrows. rewrite Hrows. cbn [bind].
  change (TrimSpace (Scanner.dropCR (lit "P2"))) with (lit "P2").
  cbn [lit string_of_list_ascii list_ascii_of_string].
  by rewrite Z.mod_small by lia.
Qed.

(** ** The word scanner *)

Lemma trim_left_spaces fuel ws a t :
  spaces ws -> (length ws <= fuel)%nat -> plain a ->
  trim_left fuel (ws ++ a :: t) = a :: t.
Proof.
  intros Hws. revert fuel. induction Hws as [|c ws Hc Hws IH];
    intros fuel Hfuel Ha.
  - by apply trim_left_plain.
  - destruct fuel as [|fuel]; [simpl in Hfuel; lia|].
    cbn [app trim_left]. rewrite (space_width_ascii_space c _ Hc).
    cbn [drop]. rewrite drop_0. apply IH; [simpl in Hfuel; lia|done].
Qed.

Lemma cut_word_plain tok c rest pos :
  Forall plain tok -> ascii_space (code c) = true ->
  Scanner.cut_word (tok ++ c :: rest) pos
  = Some ((pos + length tok)%nat, (pos + length tok + 1)%nat).
Proof.
  intros Htok Hc. revert pos. induction Htok as [|a tok Ha Htok IH];
    intros pos.
  - cbn [app Scanner.cut_word length].
    rewrite (space_width_ascii_space c rest Hc). do 2 f_equal; lia.
  - cbn [app Scanner.cut_word length].
    rewrite (space_width_plain a _ Ha), IH. do 2 f_equal; lia.
Qed.

(** [Scan] with [ScanWords] on a running scanner: the next word. *)
Lemma ScanWord_word s tok ts :
  Scanner.state s = Scanner.Running ->
  words (Scanner.input s) (tok :: ts) ->
  (length tok < Scanner.MaxScanTokenSize)%nat ->
  exists rest,
    Scanner.ScanWord s = (true, Scanner.mk rest tok Scanner.Running) /\
    words rest ts.
Proof.
  intros Hst Hw Hlen. inversion Hw as [|ws tok' c rest ts' Hws Hne Hp Hc Hrest E1];
    subst.
  exists rest. split; [|done]. unfold Scanner.ScanWord. rewrite Hst, <- E1.
  destruct tok as [|a tok]; [done|]. inversion Hp as [|? ? Ha Hp']; subst.
  cbn [app].
  rewrite trim_left_spaces;
    [|done|rewrite length_app; lia|done].
  change (a :: tok ++ c :: rest) with ((a :: tok) ++ c :: rest).
  rewrite (cut_word_plain (a :: tok) c rest 0 Hp Hc).
  cbn [Nat.add].
  replace (length (a :: tok) + 1 <=? Scanner.MaxScanTokenSize)%nat with true
    by (symmetry; apply Nat.leb_le; lia).
  cbn [app]. f_equal. f_equal.
  - replace (length (a :: tok) + 1)%nat with (length ((a :: tok) ++ [c]))
      by (rewrite length_app; simpl; lia).
    change (a :: tok ++ c :: rest) with ((a :: tok) ++ c :: rest).
    replace ((a :: tok) ++ c :: rest) with (((a :: tok) ++ [c]) ++ rest)
      by (by rewrite <- app_assoc).
    by rewrite drop_app_length.
  - change (a :: tok ++ c :: rest) with ((a :: tok) ++ c :: rest).
    by rewrite take_app_length.
Qed.

Lemma words_word tok c rest ts :
  tok <> [] -> Forall plain tok -> ascii_space (code c) = true ->
  words rest ts -> words (tok ++ c :: rest) (tok :: ts).
Proof.
  intros Hne Hp Hc Hw. apply (words_cons [] tok c rest ts); try done.
  apply Forall_nil_2.
Qed.

Lemma words_space c rest ts :
  ascii_space (code c) = true -> words rest ts -> words (c :: rest) ts.
Proof.
  intros Hc Hw. inversion Hw as [s Hs|ws tok c' rest' ts' Hws Hne Hp Hc' Hr];
    subst.
  - apply words_nil. by apply Forall_cons.
  - apply (words_cons (c :: ws) tok c' rest' ts'); try done.
    by apply Forall_cons.
Qed.

Lemma words_numeral z c rest ts :
  0 <= z -> ascii_space (code c) = true ->
  words rest ts -> words (fmt_d z ++ c :: rest) (fmt_d z :: ts).
Proof.
  intros Hz Hc Hw. destruct (fmt_d_numeral z Hz) as [Hn _].
  apply words_word; [apply Hn|by apply numeral_plain|done|done].
Qed.

(** ** Reading the pixels of a pixmap *)

Lemma words_pixel_row (row : list Pixel) rest ts :
  Forall uint8_pixel row -> words rest ts ->
  words (concat (map pixel_text row) ++ rest)
        (concat (map pixel_words row) ++ ts).
Proof.
  induction 1 as [|p row (Hr & Hg & Hb) Hrow IH]; intros Hw; [done|].
  cbn [map concat]. unfold pixel_text at 1, pixel_words at 1.
  rewrite <- !app_assoc. cbn [lit list_ascii_of_string app].
  apply words_numeral; [lia|done|].
  apply words_numeral; [lia|done|].
  apply words_numeral; [lia|done|]. by apply IH.
Qed.

Lemma words_pixel_rows (d : list (list Pixel)) :
  Forall (Forall uint8_pixel) d ->
  words (ascii_rows pixel_text d) (concat (map pixel_words (concat d))).
Proof.
  induction 1 as [|row d Hrow Hd IH].
  - apply words_nil, Forall_nil_2.
  - unfold ascii_rows. cbn [map concat].
    rewrite map_app, concat_app, <- app_assoc.
    apply words_pixel_row; [done|]. cbn [app].
    by apply words_space.
Qed.

Lemma lookup_concat_cell {A} (d : list (list A)) (h w r c : nat) :
  shape d h w -> (c < w)%nat -> concat d !! (r * w + c)%nat = cell d r c.
Proof.
  intros [Hl Hf] Hc. clear Hl. revert r.
  induction Hf as [|row d Hrow Hf IH]; intros r.
  - unfold cell. by rewrite !lookup_nil.
  - cbn [concat]. destruct r as [|r].
    + unfold cell. cbn [lookup list_lookup]. simpl.
      rewrite lookup_app_l by lia. done.
    + rewrite lookup_app_r by (rewrite Hrow; lia).
      replace (S r * w + c - length row)%nat with (r * w + c)%nat
        by (rewrite Hrow; lia).
      rewrite IH. done.
Qed.

(** The pixel loop of [ReadPPM] on the pixels written by [Save]. *)
Lemma read_pixels (d : list (list Pixel)) (h w : Z) t tail
  (body : Z -> Z -> Scanner.t * list (list Pixel)
          -> result (Scanner.t * list (list Pixel))) :
  (forall i j scanner data,
     body i j (scanner, data) =
     let '(_, scanner) := Scanner.ScanWord scanner in
     let r := fst (ParseUint8 (Scanner.Text scanner)) in
     let '(_, scanner) := Scanner.ScanWord scanner in
     let g := fst (ParseUint8 (Scanner.Text scanner)) in
     let '(_, scanner) := Scanner.ScanWord scanner in
     let b := fst (ParseUint8 (Scanner.Text scanner)) in
     let* data := store2 data i j (mkPixel r g b) in
     Ok (scanner, data)) ->
  0 <= h -> 0 <= w -> shape d (Z.to_nat h) (Z.to_nat w) ->
  Forall (Forall uint8_pixel) d ->
  words tail (concat (map pixel_words (concat d))) ->
  exists scanner',
    for_lt 0 h (fun i st => for_lt 0 w (fun j st => body i j st) st)
      (Scanner.mk tail t Scanner.Running,
       replicate (Z.to_nat h) (replicate (Z.to_nat w) zeroPixel))
    = Ok (scanner', d).
Proof.
  intros Hbody Hh Hw Hs Hu Hwords.
  set (done_ := fun (i j r c : Z) => r < i \/ (r = i /\ c < j)).
  destruct (nested_for_inv
    (fun i j (st : Scanner.t * list (list Pixel)) =>
       Scanner.state st.1 = Scanner.Running /\
       words (Scanner.input st.1)
         (concat (map pixel_words (drop (Z.to_nat (i * w + j)) (concat d))))
       /\ shape st.2 (Z.to_nat h) (Z.to_nat w) /\
       forall r c, 0 <= r < h -> 0 <= c < w ->
         (done_ i j r c -> cell st.2 (Z.to_nat r) (Z.to_nat c)
                           = cell d (Z.to_nat r) (Z.to_nat c)) /\
         (~ done_ i j r c -> cell st.2 (Z.to_nat r) (Z.to_nat c)
                             = Some zeroPixel))
    h w body
    (Scanner.mk tail t Scanner.Running,
     replicate (Z.to_nat h) (replicate (Z.to_nat w) zeroPixel)))
    as ([sc' data'] & Hl & _ & _ & Hs' & Hcells); [done|done| | | |].
  - cbn [fst snd Scanner.state Scanner.input].
    split; [done|]. split; [by rewrite Z.mul_0_l|].
    split; [apply shape_replicate|]. intros r c Hr Hc. unfold done_.
    split; [lia|]. intros _. apply cell_replicate; lia.
  - intros i j [sc data] Hi Hj (Hst & Hwd & Hsd & Hc). cbn [fst snd] in *.
    destruct (cell_Z_is_Some d h w i j Hs Hi Hj) as [p Hp].
    assert (concat d !! Z.to_nat (i * w + j) = Some p) as Hlk.
    { rewrite <- Hp, <- (lookup_concat_cell d _ _ _ _ Hs) by lia.
      f_equal. lia. }
    rewrite (drop_S _ _ _ Hlk) in Hwd. cbn [map concat] in Hwd.
    unfold pixel_words at 1 in Hwd. cbn [app] in Hwd.
    assert (uint8_pixel p) as (Hpr & Hpg & Hpb).
    { rewrite Forall_forall in Hu.
      apply list_elem_of_lookup_2 in Hlk.
      apply list_elem_of_In, in_concat in Hlk as (row & Hrow & Hin).
      apply list_elem_of_In in Hrow, Hin. specialize (Hu row Hrow).
      rewrite Forall_forall in Hu. by apply Hu. }
    pose proof MaxScanTokenSize_eq as HN.
    destruct (ScanWord_word sc _ _ Hst Hwd) as (r1 & E1 & Hw1).
    { pose proof (length_fmt_d_sample (R p) Hpr). lia. }
    destruct (ScanWord_word (Scanner.mk r1 (fmt_d (R p)) Scanner.Running)
                _ _ eq_refl Hw1) as (r2 & E2 & Hw2).
    { pose proof (length_fmt_d_sample (G p) Hpg). lia. }
    destruct (ScanWord_word (Scanner.mk r2 (fmt_d (G p)) Scanner.Running)
                _ _ eq_refl Hw2) as (r3 & E3 & Hw3).
    { pose proof (length_fmt_d_sample (B p) Hpb). lia. }
    rewrite Hbody, E1. cbv beta iota zeta. cbn [Scanner.Text Scanner.text].
    rewrite E2. cbv beta iota zeta. cbn [Scanner.Text Scanner.text].
    rewrite E3. cbv beta iota zeta. cbn [Scanner.Text Scanner.text].
    destruct (fmt_d_numeral (R p)) as [_ Hvr]; [lia|].
    destruct (fmt_d_numeral (G p)) as [_ Hvg]; [lia|].
    destruct (fmt_d_numeral (B p)) as [_ Hvb]; [lia|].
    rewrite (ParseUint8_numeral _ _ Hvr), (ParseUint8_numeral _ _ Hvg),
      (ParseUint8_numeral _ _ Hvb) by lia.
    cbn [fst]. rewrite (store2_set_cell data _ _ i j _ Hsd) by lia.
    cbn [bind]. eexists. split; [done|]. cbn [fst snd Scanner.state Scanner.input].
    split; [done|]. split.
    { replace (Z.to_nat (i * w + (j + 1))) with (S (Z.to_nat (i * w + j)))
        by lia. done. }
    split; [by apply shape_set_cell|].
    intros r c Hr Hc'.
    rewrite (cell_set_cell data (Z.to_nat h) (Z.to_nat w)) by (done || lia).
    destruct (Hc r c Hr Hc') as [Hd Hn]. unfold done_ in *.
    case_decide as Heq.
    + assert (r = i /\ c = j) as [-> ->] by lia. split; [|lia]. intros _.
      rewrite Hp. by destruct p.
    + split; intros H; [apply Hd|apply Hn]; lia.
  - intros i [sc data] Hi (Hst & Hwd & Hsd & Hc). cbn [fst snd] in *.
    split; [done|]. split.
    { replace (Z.to_nat ((i + 1) * w + 0)) with (Z.to_nat (i * w + w)) by lia.
      done. }
    split; [done|]. intros r c Hr Hc'. destruct (Hc r c Hr Hc') as [Hd Hn].
    unfold done_ in *. split; intros H; [apply Hd|apply Hn]; lia.
  - exists sc'. rewrite Hl. do 2 f_equal. cbn [snd] in *.
    apply (grid_ext _ _ (Z.to_nat h) (Z.to_nat w)); [done..|].
    intros r c Hr Hc.
    destruct (Hcells (Z.of_nat r) (Z.of_nat c)) as [Hd _]; [lia..|].
    rewrite !Nat2Z.id in Hd. apply Hd. unfold done_. lia.
Qed.

(** A well-formed pixmap saved as P3 is read back unchanged. *)
Lemma PPM_read_back ppm :
  PPM.wf ppm -> PPM.magicNumber ppm = "P3"%string ->
  Forall (Forall uint8_pixel) (PPM.data ppm) ->
  PPM.width ppm < 2 ^ 63 -> PPM.height ppm < 2 ^ 63 ->
  0 <= PPM.max ppm < 256 ->
  ReadPPM (lit (PPM.magicNumber ppm) ++ [nl]
           ++ fmt_d (PPM.width ppm) ++ lit " " ++ fmt_d (PPM.height ppm)
           ++ [nl] ++ fmt_d (PPM.max ppm) ++ [nl]
           ++ ascii_rows pixel_text (PPM.data ppm))
  = Ok (Some ppm, None).
Proof.
  intros Hwf Hm Hu Hw' Hh' Hmx. pose proof (PPM_wf_shape _ Hwf) as Hs.
  destruct Hwf as (Hw & Hh & _). destruct ppm as [d w h mg mx].
  cbn [PPM.data PPM.width PPM.height PPM.magicNumber PPM.max] in *. subst mg.
  destruct (fmt_d_numeral w Hw) as [Hn1 Hv1].
  destruct (fmt_d_numeral h Hh) as [Hn2 Hv2].
  destruct (fmt_d_numeral mx) as [Hn3 Hv3]; [lia|].
  pose proof MaxScanTokenSize_eq as HN.
  assert (words (lit "P3" ++ [nl] ++ fmt_d w ++ lit " " ++ fmt_d h ++ [nl]
                 ++ fmt_d mx ++ [nl] ++ ascii_rows pixel_text d)
            (lit "P3" :: fmt_d w :: fmt_d h :: fmt_d mx
             :: concat (map pixel_words (concat d)))) as Hwords.
  { apply words_word; [done| |done|].
    { apply Forall_cons. split; [unfold plain; change (code "P") with 80; lia|].
      apply Forall_cons. split; [unfold plain; change (code "3") with 51; lia|].
      apply Forall_nil_2. }
    apply words_numeral; [done..|].
    apply words_numeral; [done..|].
    apply words_numeral; [lia|done|].
    by apply words_pixel_rows. }
  unfold ReadPPM.
  destruct (ScanWord_word (Scanner.NewScanner _) _ _ eq_refl Hwords)
    as (r1 & -> & Hw1); [cbn [lit list_ascii_of_string length]; lia|].
  destruct (ScanWord_word (Scanner.mk r1 (lit "P3") Scanner.Running)
              _ _ eq_refl Hw1) as (r2 & -> & Hw2).
  { pose proof (length_fmt_d w 63 ltac:(simpl; lia)). lia. }
  destruct (ScanWord_word (Scanner.mk r2 (fmt_d w) Scanner.Running)
              _ _ eq_refl Hw2) as (r3 & -> & Hw3).
  { pose proof (length_fmt_d h 63 ltac:(simpl; lia)). lia. }
  destruct (ScanWord_word (Scanner.mk r3 (fmt_d h) Scanner.Running)
              _ _ eq_refl Hw3) as (r4 & -> & Hw4).
  { pose proof (length_fmt_d mx 8 ltac:(simpl; lia)). lia. }
  cbn [Scanner.Text Scanner.text].
  rewrite (Atoi_numeral _ w Hn1 Hv1), (Atoi_numeral _ h Hn2 Hv2),
    (Atoi_numeral _ mx Hn3 Hv3) by lia.
  cbn [fst]. rewrite make2_Ok by done. cbn [bind].
  match goal with
  | |- context [for_lt 0 h (fun i st => for_lt 0 w (@?body i) st) ?s] =>
      destruct (read_pixels d h w (fmt_d mx) r4 (fun i j st => body i j st))
        as (sc' & Hrows)
  end.
  { intros i j scanner data. reflexivity. }
  { done. }
  { done. }
  { done. }
  { done. }
  { done. }
  rewrite Hrows. cbn [bind snd].
  cbn [lit string_of_list_ascii list_ascii_of_string].
  unfold uint8. by rewrite Z.mod_small by lia.
Qed.

(** ** Round trips of the ASCII encodings *)

(** [PBM.Save] then [ReadPBM], P1: a well-formed bitmap with magic number
    [P1] is written as the header followed by one line per row, every
    sample as [0] or [1] followed by a space, and [ReadPBM] of these bytes
    returns the same bitmap and no error. *)
Theorem PBM_ascii_round_trip pbm :
  PBM.wf pbm -> PBM.magicNumber pbm = "P1"%string ->
  PBM.width pbm < 2 ^ 63 -> PBM.height pbm < 2 ^ 63 ->
  exists stream,
    PBM.Save pbm = Ok stream /\
    stream = PBM.header pbm ++ ascii_rows bit_text (PBM.data pbm) /\
    ReadPBM stream = Ok (Some pbm, None).
Proof.
  intros Hwf Hm Hw Hh. eexists. split; [by apply PBM_Save_ascii|].
  split; [done|]. by apply PBM_ascii_read_back.
Qed.

Lemma PBM_ascii_round_trip_witness :
  exists stream,
    PBM.Save (PBM.mk [[true; false; true]; [false; true; false]] 3 2 "P1")
    = Ok stream /\
    ReadPBM stream
    = Ok (Some (PBM.mk [[true; false; true]; [false; true; false]] 3 2 "P1"),
          None).
Proof.
  destruct (PBM_ascii_round_trip
              (PBM.mk [[true; false; true]; [false; true; false]] 3 2 "P1"))
    as (stream & Hs & _ & Hr).
  - unfold PBM.wf; simpl. repeat split; try lia. repeat constructor.
  - reflexivity.
  - simpl. lia.
  - simpl. lia.
  - exists stream. split; [exact Hs|exact Hr].
Defined.

(** [PGM.Save] then [ReadPGM]: a well-formed graymap with magic number
    [P2], [uint8] samples, and a width below 16384 (so that a row of text
    fits the 64 KiB token buffer of the line scanner) is written as three
    header lines and one line per row, every sample in decimal followed by
    a space, and [ReadPGM] of these bytes returns the same graymap and no
    error. *)
Theorem PGM_round_trip pgm :
  PGM.wf pgm -> PGM.magicNumber pgm = "P2"%string ->
  PGM.samples_uint8 pgm ->
  PGM.width pgm < 16384 -> PGM.height pgm < 2 ^ 63 ->
  0 <= PGM.max pgm < 2 ^ 63 ->
  exists stream,
    PGM.Save pgm = Ok stream /\
    stream = lit "P2" ++ [nl]
             ++ fmt_d (PGM.width pgm) ++ lit " " ++ fmt_d (PGM.height pgm)
             ++ [nl] ++ fmt_d (PGM.max pgm) ++ [nl]
             ++ ascii_rows sample_text (PGM.data pgm) /\
    ReadPGM stream = Ok (Some pgm, None).
Proof.
  intros Hwf Hm Hu Hw Hh Hmx. eexists.
  split; [by apply PGM_Save_spec|]. rewrite Hm. split; [done|].
  rewrite <- Hm. apply PGM_read_back; (done || lia).
Qed.

Lemma PGM_round_trip_witness :
  exists stream,
    PGM.Save (PGM.mk [[0; 7]; [255; 128]] 2 2 "P2" 255) = Ok stream /\
    ReadPGM stream = Ok (Some (PGM.mk [[0; 7]; [255; 128]] 2 2 "P2" 255), None).
Proof.
  destruct (PGM_round_trip (PGM.mk [[0; 7]; [255; 128]] 2 2 "P2" 255))
    as (stream & Hs & _ & Hr).
  - unfold PGM.wf; simpl. repeat split; try lia. repeat constructor.
  - reflexivity.
  - unfold PGM.samples_uint8; simpl. repeat constructor; lia.
  - simpl. lia.
  - simpl. lia.
  - simpl. lia.
  - exists stream. split; [exact Hs|exact Hr].
Defined.

(** [PPM.Save] then [ReadPPM]: a well-formed pixmap with magic number
    [P3], [uint8] channels and a maximum below 256 is written as three
    header lines and one line per row, every channel in decimal followed by
    a space, and [ReadPPM] of these bytes returns the same pixmap and no
    error. *)
Theorem PPM_round_trip ppm :
  PPM.wf ppm -> PPM.magicNumber ppm = "P3"%string ->
  Forall (Forall uint8_pixel) (PPM.data ppm) ->
  PPM.width ppm < 2 ^ 63 -> PPM.height ppm < 2 ^ 63 ->
  0 <= PPM.max ppm < 256 ->
  exists stream,
    PPM.Save ppm = Ok stream /\
    stream = lit "P3" ++ [nl]
             ++ fmt_d (PPM.width ppm) ++ lit " " ++ fmt_d (PPM.height ppm)
             ++ [nl] ++ fmt_d (PPM.max ppm) ++ [nl]
             ++ ascii_rows pixel_text (PPM.data ppm) /\
    ReadPPM stream = Ok (Some ppm, None).
Proof.
  intros Hwf Hm Hu Hw Hh Hmx. eexists.
  split; [by apply PPM_Save_spec|]. rewrite Hm. split; [done|].
  rewrite <- Hm. by apply PPM_read_back.
Qed.

Lemma PPM_round_trip_witness :
  exists stream,
    PPM.Save (PPM.mk [[mkPixel 255 0 0; mkPixel 0 128 7]] 2 1 "P3" 255)
    = Ok stream /\
    ReadPPM stream
    = Ok (Some (PPM.mk [[mkPixel 255 0 0; mkPixel 0 128 7]] 2 1 "P3" 255),
          None).
Proof.
  destruct (PPM_round_trip
              (PPM.mk [[mkPixel 255 0 0; mkPixel 0 128 7]] 2 1 "P3" 255))
    as (stream & Hs & _ & Hr).
  - unfold PPM.wf; simpl. repeat split; try lia. repeat constructor.
  - reflexivity.
  - simpl. repeat constructor; simpl; lia.
  - simpl. lia.
  - simpl. lia.
  - simpl. lia.
  - exists stream. split; [exact Hs|exact Hr].
Defined.

(** ** The buffered reader on a stream that fits its buffer *)

Lemma cut_line_found delim l rest :
  delim ∉ l -> Reader.cut delim (l ++ delim :: rest) = Some (l ++ [delim], rest).
Proof.
  induction l as [|a l IH]; intros Hl.
  - cbn [app Reader.cut]. by rewrite Ascii.eqb_refl.
  - apply not_elem_of_cons in Hl as [Ha Hl]. cbn [app Reader.cut].
    assert (Ascii.eqb a delim = false) as ->
      by (apply Ascii.eqb_neq; congruence).
    by rewrite IH.
Qed.

(** A line that is in the buffer is cut from it; the file is not
    touched. *)
Lemma ReadString_buffered delim l rest rd :
  delim ∉ l ->
  Reader.ReadString delim (Reader.mk (l ++ delim :: rest) rd)
  = (l ++ [delim], true, Reader.mk rest rd).
Proof.
  intros Hl. unfold Reader.ReadString. cbn [Reader.rd].
  replace (2 * length rd + 2)%nat with (S (S (2 * length rd))) by lia.
  rewrite read_string_S. cbn [Reader.buf Reader.rd].
  by rewrite cut_line_found.
Qed.

(** The first read fills the buffer with the first [size] bytes of the
    file; a first line shorter than that is cut from them. *)
Lemma ReadString_fill delim l rest :
  delim ∉ l -> (S (length l) <= Reader.size)%nat ->
  Reader.ReadString delim (Reader.NewReader (l ++ delim :: rest))
  = (l ++ [delim], true,
     Reader.mk (take (Reader.size - S (length l)) rest)
               (drop (Reader.size - S (length l)) rest)).
Proof.
  intros Hl Hlen. unfold Reader.ReadString, Reader.NewReader.
  cbn [Reader.rd].
  replace (2 * length (l ++ delim :: rest) + 2)%nat
    with (S (S (2 * length (l ++ delim :: rest)))) by lia.
  rewrite read_string_S. cbn [Reader.buf Reader.rd Reader.cut].
  destruct (l ++ delim :: rest) as [|a s] eqn:E; [by destruct l|].
  rewrite <- E in *. cbn [length].
  assert ((Reader.size <=? 0)%nat = false) as -> by reflexivity.
  cbv zeta. rewrite Nat.sub_0_r. cbn [app].
  rewrite read_string_S. cbn [Reader.buf Reader.rd].
  rewrite take_app, drop_app.
  rewrite take_ge, drop_ge by lia. cbn [app].
  destruct (Reader.size - length l)%nat as [|k] eqn:Ek; [lia|].
  cbn [take drop]. rewrite cut_line_found by done.
  by replace (Reader.size - S (length l))%nat with k by lia.
Qed.

Lemma Read_buffered n buf rd :
  buf <> [] -> n <> O ->
  Reader.Read n (Reader.mk buf rd)
  = (take n buf, true, Reader.mk (drop n buf) rd).
Proof. intros Hb Hn. unfold Reader.Read. destruct n, buf; done. Qed.

(** The header of a bitmap: after it the reader holds, in its buffer, the
    bytes that followed the header in the first [size] bytes of the
    file. *)
Lemma ReadPBM_header_fill l1 l2 rest w h :
  nl ∉ l1 -> bitmap_magic (TrimSpace (l1 ++ [nl])) -> nl ∉ l2 ->
  Sscanf_d_d (TrimSpace (l2 ++ [nl])) = Some (w, h) ->
  0 <= w -> 0 <= h ->
  (length l1 + length l2 + 2 <= Reader.size)%nat ->
  ReadPBM (l1 ++ nl :: l2 ++ nl :: rest) =
  let magicNumber := TrimSpace (l1 ++ [nl]) in
  let data := replicate (Z.to_nat h) (replicate (Z.to_nat w) false) in
  let k := (Reader.size - (length l1 + length l2 + 2))%nat in
  let reader := Reader.mk (take k rest) (drop k rest) in
  let* r :=
    if bytes_eqb magicNumber (lit "P1") then
      for_lt_until 0 h (read_ascii_row w) (reader, data)
    else if bytes_eqb magicNumber (lit "P4") then
      for_lt_until 0 h (read_binary_row w (Z.quot (int_add w 7) 8))
        (reader, data)
    else Ok (inl (reader, data)) in
  match r with
  | inl (_, data) =>
      Ok (Some (PBM.mk data w h (string_of_list_ascii magicNumber)), None)
  | inr e => Ok (None, Some e)
  end.
Proof.
  intros Hnl Hm Hnl2 Hs Hw Hh Hlen.
  unfold ReadPBM. rewrite ReadString_fill by (done || lia).
  cbv beta iota zeta. cbn [negb].
  apply bitmap_magic_test in Hm. rewrite Hm.
  rewrite take_app, drop_app.
  rewrite take_ge, drop_ge by lia. cbn [app].
  destruct (Reader.size - S (length l1) - length l2)%nat as [|k] eqn:Ek; [lia|].
  cbn [take drop].
  rewrite ReadString_buffered by done. cbv beta iota zeta.
  cbn [negb]. rewrite Hs. cbv beta iota. rewrite make2_Ok by done.
  by replace (Reader.size - (length l1 + length l2 + 2))%nat with k by lia.
Qed.

(** ** Bits and bytes *)

Lemma code_byte_of c : code (byte_of c) = c mod 256.
Proof.
  unfold code, byte_of.
  pose proof (Z.mod_pos_bound c 256 ltac:(lia)) as Hb.
  rewrite N_ascii_embedding by lia. lia.
Qed.

Lemma testbit_byte_of c j :
  0 <= j < 8 -> Z.testbit (code (byte_of c)) j = Z.testbit c j.
Proof.
  intros Hj. rewrite code_byte_of.
  change 256 with (2 ^ 8). apply Z.mod_pow2_bits_low. lia.
Qed.

(** The bit that [ReadPBM] extracts. *)
Lemma bit_extract c i :
  0 <= i -> negb (Z.land (Z.shiftr c i) 1 =? 0) = Z.testbit c i.
Proof.
  intros Hi. change 1 with (Z.ones 1) at 1. rewrite Z.land_ones by lia.
  change (2 ^ 1) with 2. rewrite <- Z.bit0_mod, Z.shiftr_spec by lia.
  rewrite Z.add_0_l. by destruct (Z.testbit c i).
Qed.

(** The bit that [Save] sets. *)
Lemma bit_set cur (v : bool) i j :
  0 <= i < 8 -> 0 <= j ->
  Z.testbit (Z.lor cur (uint8 (Z.shiftl (if v then 1 else 0) i))) j
  = Z.testbit cur j || (v && (j =? i)).
Proof.
  intros Hi Hj. rewrite Z.lor_spec. f_equal. destruct v.
  - rewrite Z.shiftl_1_l. unfold uint8.
    rewrite Z.mod_small
      by (split; [lia|]; change (2 ^ 8) with (2 ^ 7 * 2);
          pose proof (Z.pow_le_mono_r 2 i 7); lia).
    rewrite Z.pow2_bits_eqb by lia. cbn [andb]. apply Z.eqb_sym.
  - rewrite Z.shiftl_0_l. unfold uint8. rewrite Z.mod_0_l by lia.
    apply Z.bits_0.
Qed.

(** ** Packing a row *)

Lemma bits_ok_next row cur k r (v : bool) :
  0 <= k -> 0 <= r < 8 -> bits_ok row cur k r ->
  row !! Z.to_nat (8 * k + r) = Some v ->
  bits_ok row (Z.lor cur (uint8 (Z.shiftl (if v then 1 else 0) (7 - r)))) k
    (r + 1).
Proof.
  intros Hk Hr Hbits Hv j Hj. rewrite bit_set by lia.
  specialize (Hbits j Hj).
  destruct (Z.eqb_spec j (7 - r)) as [->|Hne].
  - replace (8 * k + 7 - (7 - r)) with (8 * k + r) by lia. rewrite Hv.
    destruct v; rewrite ?orb_true_r, ?andb_false_r, ?orb_false_r.
    + split; [intros _; split; [lia|done]|done].
    + rewrite Hbits. split; [lia|]. intros [_ ?]. done.
  - rewrite andb_false_r, orb_false_r, Hbits. split; intros [? ?]; split;
      (done || lia).
Qed.

Lemma bytes_ok_snoc row bs cur k r :
  0 <= r <= 8 -> Z.of_nat (length bs) = k ->
  bytes_ok row bs -> bits_ok row cur k r ->
  (forall r', 0 <= r' < 8 -> is_Some (row !! Z.to_nat (8 * k + r')) -> r' < r) ->
  bytes_ok row (bs ++ [byte_of cur]).
Proof.
  intros Hr Hlen Hbs Hbits Hlast k' r' v Hk' Hr' Hv.
  rewrite length_app in Hk'. cbn [length] in Hk'.
  destruct (decide (k' < k)) as [Hlt|Hge].
  - destruct (Hbs k' r' v) as (b & Hb & Ht); [lia|done|done|].
    exists b. split; [|done]. rewrite lookup_app_l by lia. done.
  - assert (k' = k) as -> by lia. exists (byte_of cur). split.
    + rewrite lookup_app_r by lia.
      replace (Z.to_nat k - length bs)%nat with O by lia. done.
    + rewrite testbit_byte_of by lia.
      specialize (Hbits (7 - r') ltac:(lia)).
      replace (8 * k + 7 - (7 - r')) with (8 * k + r') in Hbits by lia.
      replace (7 - (7 - r')) with r' in Hbits by lia.
      pose proof (Hlast r' Hr' (mk_is_Some _ _ Hv)).
      destruct (Z.testbit cur (7 - r')) eqn:Ht, v; try done.
      * destruct (proj1 Hbits eq_refl) as [_ ?]. congruence.
      * assert (false = true) as ?; [|done]. apply Hbits. by split.
Qed.

(** The inner loop of the P4 branch of [Save]. *)
Lemma pack_row_loop (row : list bool) (w : Z) (out : bytes)
  (body : Z -> Z * bytes -> result (Z * bytes)) :
  Z.of_nat (length row) = w ->
  (forall x (v : bool) cur o, row !! Z.to_nat x = Some v -> 0 <= x ->
     body x (cur, o) =
     let currentByte :=
       Z.lor cur (uint8 (Z.shiftl (if v then 1 else 0) (7 - Z.rem x 8))) in
     if (Z.rem (x + 1) 8 =? 0) || (x =? w - 1)
     then Ok (0, o ++ [byte_of currentByte])
     else Ok (currentByte, o)) ->
  exists bs, for_lt 0 w body (0, out) = Ok (0, out ++ bs) /\ packs row bs.
Proof.
  intros Hw Hbody.
  set (I := fun (x : Z) (st : Z * bytes) =>
    exists bs k r,
      st.2 = out ++ bs /\ x = 8 * k + r /\ 0 <= k /\ 0 <= r < 8 /\
      bytes_ok row bs /\
      ((Z.of_nat (length bs) = k /\ (r = 0 -> st.1 = 0) /\
        (r <> 0 -> x < w) /\ bits_ok row st.1 k r)
       \/ (x = w /\ r <> 0 /\ st.1 = 0 /\ Z.of_nat (length bs) = k + 1))).
  destruct (for_lt_inv I 0 w body (0, out)) as ([cur o] & Hl & HI); [lia| | |].
  - exists [], 0, 0. cbn [fst snd length]. rewrite app_nil_r.
    split; [done|]. split; [done|]. split; [done|]. split; [lia|].
    split; [intros k r v Hk; simpl in Hk; lia|].
    left. split; [done|]. split; [done|]. split; [done|].
    intros j Hj. rewrite Z.bits_0. split; [done|lia].
  - intros x [cur o] Hx (bs & k & r & Ho & Hxk & Hk & Hr & Hbs & Hst).
    cbn [fst snd] in *. subst o.
    destruct Hst as [(Hlen & Hz & Hlt & Hbits)|(Hxw & _)]; [|lia].
    destruct (lookup_lt_is_Some_2 row (Z.to_nat x)) as [v Hv]; [lia|].
    rewrite (Hbody x v cur _ Hv) by lia. cbv zeta.
    assert (Z.rem x 8 = r) as Hrem.
    { rewrite Z.rem_mod_nonneg by lia. symmetry.
      apply (Z.mod_unique x 8 k r); lia. }
    assert (Z.rem (x + 1) 8 = (r + 1) mod 8) as Hrem1.
    { rewrite Z.rem_mod_nonneg by lia. subst x.
      replace (8 * k + r + 1) with ((r + 1) + k * 8) by lia.
      by rewrite Z.mod_add by lia. }
    rewrite Hrem, Hrem1. rewrite Hxk in Hv.
    pose proof (bits_ok_next row cur k r v Hk Hr Hbits Hv) as Hbits'.
    set (cur' := Z.lor cur (uint8 (Z.shiftl (if v then 1 else 0) (7 - r))))
      in *.
    destruct (decide (r = 7)) as [->|Hr7].
    + (* the byte is full *)
      change ((7 + 1) mod 8 =? 0) with true. cbn [orb].
      eexists. split; [done|]. exists (bs ++ [byte_of cur']), (k + 1), 0.
      cbn [fst snd]. split; [by rewrite app_assoc|].
      split; [lia|]. split; [lia|]. split; [lia|]. split.
      { apply (bytes_ok_snoc row bs cur' k 8); [lia|done|done|done|]. intros; lia. }
      left. rewrite length_app. cbn [length].
      split; [lia|]. split; [done|]. split; [done|].
      intros j Hj. rewrite Z.bits_0. split; [done|lia].
    + rewrite (Z.mod_small (r + 1) 8) by lia.
      replace (r + 1 =? 0) with false by lia. cbn [orb].
      destruct (Z.eqb_spec x (w - 1)) as [Hlast|Hnot].
      * (* the row ends inside a byte *)
        eexists. split; [done|]. exists (bs ++ [byte_of cur']), k, (r + 1).
        cbn [fst snd]. split; [by rewrite app_assoc|].
        split; [lia|]. split; [lia|]. split; [lia|]. split.
        { apply (bytes_ok_snoc row bs cur' k (r + 1)); [lia|done|done|done|].
          intros r' Hr' [v' Hv']. apply lookup_lt_Some in Hv'. lia. }
        right. rewrite length_app. cbn [length]. lia.
      * eexists. split; [done|]. exists bs, k, (r + 1).
        cbn [fst snd]. split; [done|].
        split; [lia|]. split; [lia|]. split; [lia|]. split; [done|].
        left. split; [done|]. split; [lia|]. split; [lia|]. done.
  - destruct HI as (bs & k & r & Ho & Hxk & Hk & Hr & Hbs & Hst).
    cbn [fst snd] in *. subst o. exists bs.
    assert (cur = 0 /\ Z.of_nat (length bs) = (w + 7) / 8) as [-> Hlen].
    { destruct Hst as [(Hlen & Hz & Hlt & _)|(_ & Hr0 & Hc & Hlen)].
      - assert (r = 0) as -> by lia. split; [by apply Hz|].
        rewrite Hlen. apply (Z.div_unique (w + 7) 8 k 7); lia.
      - split; [done|]. rewrite Hlen.
        apply (Z.div_unique (w + 7) 8 (k + 1) (r - 1)); lia. }
    split; [done|]. split; [by rewrite Hw|].
    intros x v Hx Hv. pose proof (lookup_lt_Some _ _ _ Hv) as Hxl.
    pose proof (Z.div_mod x 8 ltac:(lia)) as Hdm.
    pose proof (Z.mod_pos_bound x 8 ltac:(lia)) as Hmb.
    apply (Hbs (x / 8) (x mod 8) v); [|done|by rewrite <- Hdm].
    split; [apply Z.div_pos; lia|]. rewrite Hlen.
    apply Z.div_lt_upper_bound; [lia|].
    pose proof (Z.div_mod (w + 7) 8 ltac:(lia)).
    pose proof (Z.mod_pos_bound (w + 7) 8 ltac:(lia)). lia.
Qed.


(** The P4 branch of [Save]: one packed row after the other. *)
Lemma save_binary_rows pbm out :
  PBM.wf pbm ->
  exists bss,
    PBM.save_binary pbm out = Ok (out ++ concat bss) /\
    Forall2 packs (PBM.data pbm) bss.
Proof.
  intros (Hw & Hh & Hl & Hf). unfold PBM.save_binary.
  destruct (for_lt_inv
    (fun y o => exists bss,
       o = out ++ concat bss /\
       Forall2 packs (take (Z.to_nat y) (PBM.data pbm)) bss)
    0 (PBM.height pbm)
    (fun y out =>
       let* st :=
         for_lt 0 (PBM.width pbm) (fun x '(currentByte, out) =>
           let bitIndex := 7 - Z.rem x 8 in
           let* v := index2 (PBM.data pbm) y x in
           let bitValue := if v : bool then 1 else 0 in
           let currentByte :=
             Z.lor currentByte (uint8 (Z.shiftl bitValue bitIndex)) in
           if (Z.rem (x + 1) 8 =? 0) || (x =? PBM.width pbm - 1)
           then Ok (0, out ++ [byte_of currentByte])
           else Ok (currentByte, out)) (0, out) in
       Ok (snd st)) out) as (o & Hl' & bss & -> & HF); [done| | |].
  - exists []. split; [by rewrite app_nil_r|]. apply Forall2_nil_2.
  - intros y o Hy (bss & -> & HF).
    destruct (lookup_lt_is_Some_2 (PBM.data pbm) (Z.to_nat y)) as [row Hrow];
      [lia|].
    assert (length row = Z.to_nat (PBM.width pbm)) as Hlr
      by (rewrite Forall_lookup in Hf; by apply (Hf (Z.to_nat y))).
    match goal with
    | |- context [for_lt 0 (PBM.width pbm) ?body ?s] =>
        destruct (pack_row_loop row (PBM.width pbm) (out ++ concat bss) body)
          as (bs & Hbs & Hp)
    end.
    { lia. }
    { intros x v cur o Hv Hx. unfold index2.
      rewrite (proj2 (index_Ok (PBM.data pbm) y row)) by (split; [lia|done]).
      cbn [bind].
      by rewrite (proj2 (index_Ok row x v)) by (split; [lia|done]). }
    rewrite Hbs. cbn [bind snd]. eexists. split; [done|].
    exists (bss ++ [bs]). split.
    { by rewrite concat_app, app_assoc; cbn [concat]; rewrite app_nil_r. }
    replace (Z.to_nat (y + 1)) with (S (Z.to_nat y)) by lia.
    rewrite (take_S_r _ _ _ Hrow). apply Forall2_app; [done|].
    by apply Forall2_cons.
  - exists bss. split; [done|].
    by rewrite take_ge in HF by lia.
Qed.

(** ** Unpacking a row *)

Lemma fill_row_lt {A} (row old : list A) (data0 : list (list A)) (y : nat)
  (body : Z -> list (list A) -> result (list (list A))) :
  data0 !! y = Some old -> length old = length row ->
  (forall x v data, row !! x = Some v ->
     body (Z.of_nat x) data = store2 data (Z.of_nat y) (Z.of_nat x) v) ->
  for_lt 0 (Z.of_nat (length row)) body data0 = Ok (<[y := row]> data0).
Proof.
  intros Hy Hlen Hbody.
  assert (for_lt_until (E := unit) 0 (Z.of_nat (length row))
            (fun x data => let* d := body x data in Ok (inl d)) data0
          = Ok (inl (<[y := row]> data0))) as Hfill.
  { apply (fill_row row old); [done..|].
    intros x v data Hv. by rewrite (Hbody x v data Hv). }
  unfold for_lt_until, for_lt in *.
  assert (forall n lo (s : list (list A)),
    loop_until (E := unit) n lo
      (fun x data => let* d := body x data in Ok (inl d)) s
    = let* d := loop n lo body s in Ok (inl d)) as Hconv.
  { induction n as [|n IH]; intros lo s; [done|]. cbn [loop_until loop].
    destruct (body lo s) as [s'|]; cbn [bind]; [apply IH|done]. }
  rewrite Hconv in Hfill.
  destruct (loop _ _ body data0) as [d|]; cbn [bind] in Hfill.
  - by injection Hfill as ->.
  - discriminate Hfill.
Qed.

(** One row of a P4 raster read back from the buffer. *)
Lemma read_binary_row_packed (w : Z) (row old : list bool)
  (bs rest rd : bytes) (data : list (list bool)) (y : nat) :
  0 <= w < 2 ^ 63 - 7 ->
  Z.of_nat (length row) = w -> packs row bs ->
  data !! y = Some old -> length old = length row ->
  read_binary_row w (Z.quot (int_add w 7) 8) (Z.of_nat y)
    (Reader.mk (bs ++ rest) rd, data)
  = Ok (inl (Reader.mk rest rd, <[y := row]> data)).
Proof.
  intros Hw Hlr Hp Hy Hlo.
  assert (Z.quot (int_add w 7) 8 = Z.of_nat (length bs)) as He.
  { unfold int_add. rewrite wrap64_small by lia. destruct Hp as [-> _].
    rewrite Z.quot_div_nonneg by lia. f_equal. lia. }
  rewrite He. unfold read_binary_row.
  rewrite make_Ok by lia. cbn [bind]. rewrite Nat2Z.id.
  destruct (decide (length bs = 0%nat)) as [H0|H0].
  - (* an image of width 0 *)
    destruct bs; [|done]. cbn [length app]. cbn [Reader.Read].
    cbv beta iota zeta. cbn [negb length replicate drop app].
    destruct Hp as [Hlen _]. cbn [length] in Hlen.
    assert (w = 0) as ->.
    { destruct (Z.eq_dec w 0); [done|].
      assert (1 <= (Z.of_nat (length row) + 7) / 8)
        by (apply Z.div_le_lower_bound; lia). lia. }
    destruct row; [|done]. destruct old; [|done].
    unfold for_lt. cbn [Z.sub Z.to_nat loop bind Z.ltb Z.compare].
    by rewrite list_insert_id.
  - rewrite Read_buffered by (try done; by destruct bs).
    rewrite take_app_length, drop_app_length.
    cbv beta iota zeta. cbn [negb].
    rewrite Z.ltb_irrefl.
    rewrite drop_replicate, Nat.sub_diag. cbn [replicate].
    rewrite app_nil_r. rewrite <- Hlr.
    rewrite (fill_row_lt row old data y); [done..|].
    intros x v d Hv.
    destruct Hp as [_ Hbits].
    destruct (Hbits (Z.of_nat x) v) as (b & Hb & Ht);
      [lia|by rewrite Nat2Z.id|].
    rewrite Z.quot_div_nonneg, Z.rem_mod_nonneg by lia.
    rewrite (proj2 (index_Ok bs (Z.of_nat x / 8) b)).
    2:{ split; [apply Z.div_pos; lia|done]. }
    cbn [bind]. rewrite bit_extract.
    2:{ pose proof (Z.mod_pos_bound (Z.of_nat x) 8). lia. }
    by rewrite Ht.
Qed.

(** The first rows of a P4 raster, from a reader that holds them in its
    buffer. *)
Lemma read_binary_rows (w : Z) (d : list (list bool)) (bss : list bytes)
  (tail rd : bytes) (m : nat) :
  0 <= w < 2 ^ 63 - 7 ->
  Forall (fun row => length row = Z.to_nat w) d ->
  Forall2 packs d bss ->
  for_lt_until 0 (Z.of_nat (length d))
    (read_binary_row w (Z.quot (int_add w 7) 8))
    (Reader.mk (concat bss ++ tail) rd,
     replicate (length d + m) (replicate (Z.to_nat w) false))
  = Ok (inl (Reader.mk tail rd,
             d ++ replicate m (replicate (Z.to_nat w) false))).
Proof.
  intros Hw Hf HF. unfold for_lt_until. rewrite Z.sub_0_r, Nat2Z.id.
  pose proof (Forall2_length _ _ _ HF) as Hlen.
  destruct (loop_until_inv
    (fun k (st : Reader.t * list (list bool)) =>
       st = (Reader.mk (concat (drop k bss) ++ tail) rd,
             take k d ++ replicate (length d + m - k)
                           (replicate (Z.to_nat w) false)))
    (length d) 0 (read_binary_row w (Z.quot (int_add w 7) 8))
    (Reader.mk (concat bss ++ tail) rd,
     replicate (length d + m) (replicate (Z.to_nat w) false)))
    as (s & Hl & Hs).
  - by rewrite drop_0, take_0, Nat.sub_0_r.
  - intros k s Hk ->.
    destruct (lookup_lt_is_Some_2 d k) as [row Hrow]; [lia|].
    destruct (lookup_lt_is_Some_2 bss k) as [bs Hbs]; [lia|].
    assert (packs row bs) as Hp by (by eapply Forall2_lookup_lr).
    assert (length row = Z.to_nat w) as Hlr
      by (rewrite Forall_lookup in Hf; by apply (Hf k)).
    rewrite (drop_S _ _ _ Hbs). cbn [concat]. rewrite Z.add_0_l.
    rewrite <- app_assoc.
    rewrite (read_binary_row_packed w row (replicate (Z.to_nat w) false));
      [| done | lia | done | | by rewrite length_replicate].
    2:{ rewrite lookup_app_r by (rewrite length_take; lia).
        rewrite length_take, Nat.min_l by lia.
        apply lookup_replicate_2. lia. }
    eexists. split; [done|]. f_equal.
    rewrite (take_S_r _ _ _ Hrow).
    rewrite insert_app_r_alt by (rewrite length_take; lia).
    rewrite length_take, Nat.min_l, Nat.sub_diag by lia.
    replace (length d + m - k)%nat with (S (length d + m - S k)) by lia.
    cbn [replicate]. cbn. by rewrite <- app_assoc.
  - rewrite Hl, Hs. rewrite drop_ge by lia. rewrite take_ge by lia.
    cbn [concat app].
    by replace (length d + m - length d)%nat with m by lia.
Qed.

Lemma length_packed_rows (w : Z) (d : list (list bool)) (bss : list bytes) :
  Forall (fun row => length row = Z.to_nat w) d -> 0 <= w ->
  Forall2 packs d bss ->
  Z.of_nat (length (concat bss)) = Z.of_nat (length d) * ((w + 7) / 8).
Proof.
  intros Hf Hw HF. induction HF as [|row bs d bss [Hp _] HF IH].
  - done.
  - apply Forall_cons in Hf as [Hr Hf]. cbn [concat length].
    rewrite length_app, Nat2Z.inj_add, IH, Hp, Hr, Z2Nat.id by done. lia.
Qed.

Lemma PBM_Save_binary pbm :
  PBM.wf pbm -> PBM.magicNumber pbm = "P4"%string ->
  exists bss,
    PBM.Save pbm = Ok (PBM.header pbm ++ concat bss) /\
    Forall2 packs (PBM.data pbm) bss.
Proof.
  intros Hwf Hm. unfold PBM.Save. rewrite Hm.
  cbn [String.eqb Ascii.eqb Bool.eqb]. by apply save_binary_rows.
Qed.

Lemma PBM_binary_read_back pbm (bss : list bytes) :
  PBM.wf pbm -> PBM.magicNumber pbm = "P4"%string ->
  PBM.width pbm < 2 ^ 63 - 7 -> PBM.height pbm < 2 ^ 63 ->
  Forall2 packs (PBM.data pbm) bss ->
  (length (PBM.header pbm ++ concat bss) <= Reader.size)%nat ->
  ReadPBM (PBM.header pbm ++ concat bss) = Ok (Some pbm, None).
Proof.
  intros (Hw & Hh & Hl & Hf) Hm Hw' Hh' HF. destruct pbm as [d w h mg].
  cbn [PBM.data PBM.width PBM.height PBM.magicNumber] in *. subst mg.
  unfold PBM.header. cbn [PBM.magicNumber PBM.width PBM.height].
  destruct (dimensions_line w h) as [Hnl Hscan]; [lia..|].
  assert ((lit "P4" ++ [nl] ++ fmt_d w ++ lit " " ++ fmt_d h ++ [nl])
            ++ concat bss
          = lit "P4" ++ nl :: (fmt_d w ++ lit " " ++ fmt_d h)
              ++ nl :: concat bss) as ->.
  { cbn [lit list_ascii_of_string app]. do 3 f_equal.
    repeat (rewrite <- app_assoc; cbn [app]). done. }
  intros Hlen.
  assert (length (lit "P4") + length (fmt_d w ++ lit " " ++ fmt_d h) + 2
          <= Reader.size)%nat as Hhdr.
  { rewrite !length_app in Hlen. cbn [length] in Hlen.
    rewrite !length_app in Hlen. cbn [length] in Hlen.
    rewrite !length_app. cbn [length]. lia. }
  rewrite (ReadPBM_header_fill (lit "P4") _ _ w h);
    [| |by right|done|done|done|done|done].
  2:{ intros Hin.
      repeat (apply elem_of_cons in Hin as [?|Hin]; [discriminate|]).
      by apply elem_of_nil in Hin. }
  cbv zeta.
  change (TrimSpace (lit "P4" ++ [nl])) with (lit "P4").
  change (bytes_eqb (lit "P4") (lit "P1")) with false.
  change (bytes_eqb (lit "P4") (lit "P4")) with true. cbv iota.
  rewrite take_ge, drop_ge.
  2,3: rewrite !length_app in Hlen; cbn [length] in Hlen;
       rewrite !length_app in Hlen; cbn [length] in Hlen;
       rewrite !length_app; cbn [length]; lia.
  pose proof (read_binary_rows w d bss [] [] 0) as Hrows.
  rewrite Hl, Nat.add_0_r, !app_nil_r, !Z2Nat.id in Hrows by lia.
  rewrite Hrows by (done || lia). done.
Qed.

(** ** A raster that does not fit the buffer *)

Lemma loop_until_app {St E} n1 n2 lo (body : Z -> St -> result (St + E)) s s1 :
  loop_until n1 lo body s = Ok (inl s1) ->
  loop_until (n1 + n2) lo body s = loop_until n2 (lo + Z.of_nat n1) body s1.
Proof.
  revert lo s. induction n1 as [|n1 IH]; intros lo s H.
  - injection H as <-. cbn [Nat.add]. f_equal. lia.
  - cbn [Nat.add loop_until] in *.
    destruct (body lo s) as [[s2|e]|]; cbn [bind] in *; [|done..].
    rewrite (IH _ _ H). f_equal. lia.
Qed.

(** A [Read] that finds fewer bytes in the buffer than a row needs returns
    them, short; the decoder then gives up. *)
Lemma read_binary_row_short (w e y : Z) (tail rd : bytes)
  (data : list (list bool)) :
  0 < Z.of_nat (length tail) < e ->
  read_binary_row w e y (Reader.mk tail rd, data)
  = Ok (inr (ErrShortRow y e (Z.of_nat (length tail)))).
Proof.
  intros Ht. unfold read_binary_row. rewrite make_Ok by lia. cbn [bind].
  assert (tail <> []) as Hne by (intros ->; cbn in Ht; lia).
  rewrite Read_buffered by (done || lia).
  rewrite take_ge by lia. cbv beta iota zeta. cbn [negb].
  destruct (Z.ltb_spec (Z.of_nat (length tail)) e); [done|lia].
Qed.

Lemma length_header pbm :
  0 <= PBM.width pbm < 2 ^ 63 -> 0 <= PBM.height pbm < 2 ^ 63 ->
  (length (PBM.header pbm)
   = length (lit (PBM.magicNumber pbm)) + length (fmt_d (PBM.width pbm))
     + length (fmt_d (PBM.height pbm)) + 3)%nat /\
  (length (fmt_d (PBM.width pbm)) + length (fmt_d (PBM.height pbm))
   <= 126)%nat.
Proof.
  intros Hw Hh. split.
  - unfold PBM.header. rewrite !length_app.
    change (length (lit " ")) with 1%nat. cbn [length]. lia.
  - pose proof (length_fmt_d (PBM.width pbm) 63 Hw).
    pose proof (length_fmt_d (PBM.height pbm) 63 Hh). lia.
Qed.

(** [ReadPBM] of a P4 stream whose raster goes beyond the first buffer:
    the rows that are whole in the buffer are decoded, and the row that is
    not stops the decoder. *)
Lemma PBM_binary_read_past_buffer pbm (bss : list bytes) :
  PBM.wf pbm -> PBM.magicNumber pbm = "P4"%string ->
  PBM.width pbm < 2 ^ 63 - 7 -> PBM.height pbm < 2 ^ 63 ->
  Forall2 packs (PBM.data pbm) bss ->
  let free := Z.of_nat Reader.size - Z.of_nat (length (PBM.header pbm)) in
  let e := (PBM.width pbm + 7) / 8 in
  (Reader.size < length (PBM.header pbm ++ concat bss))%nat ->
  free mod e <> 0 ->
  ReadPBM (PBM.header pbm ++ concat bss)
  = Ok (None, Some (ErrShortRow (free / e) e (free mod e))).
Proof.
  intros Hwf Hm Hw' Hh' HF free e Hlen Hrem.
  assert (0 <= PBM.width pbm < 2 ^ 63) as Hwb by (destruct Hwf; lia).
  assert (0 <= PBM.height pbm < 2 ^ 63) as Hhb
    by (destruct Hwf as (?&?&?); lia).
  destruct (length_header pbm Hwb Hhb) as [Hhdr Hdig].
  rewrite Hm in Hhdr. cbn [lit list_ascii_of_string length] in Hhdr.
  pose proof (length_packed_rows (PBM.width pbm) (PBM.data pbm) bss) as Hcat.
  destruct Hwf as (Hw & Hh & Hl & Hf).
  specialize (Hcat Hf Hw HF). rewrite Hl, Z2Nat.id in Hcat by done.
  fold e in Hcat.
  assert (0 <= free) as Hfree by (unfold free, Reader.size; lia).
  assert (Z.of_nat (length (concat bss)) > free) as Hbig
    by (rewrite length_app in Hlen; unfold free; lia).
  assert (0 < e) as He by nia.
  pose proof (Z.mod_pos_bound free e He) as Hr.
  pose proof (Z.div_mod free e ltac:(lia)) as Hqr.
  assert (0 <= free / e) as Hq0 by (apply Z.div_pos; lia).
  assert (free / e < PBM.height pbm) as Hq by nia.
  destruct pbm as [d w h mg].
  cbn [PBM.data PBM.width PBM.height PBM.magicNumber] in *. subst mg.
  unfold PBM.header in *. cbn [PBM.magicNumber PBM.width PBM.height] in *.
  destruct (dimensions_line w h) as [Hnl Hscan]; [lia..|].
  assert ((lit "P4" ++ [nl] ++ fmt_d w ++ lit " " ++ fmt_d h ++ [nl])
            ++ concat bss
          = lit "P4" ++ nl :: (fmt_d w ++ lit " " ++ fmt_d h)
              ++ nl :: concat bss) as ->.
  { cbn [lit list_ascii_of_string app]. do 3 f_equal.
    repeat (rewrite <- app_assoc; cbn [app]). done. }
  assert (length (lit "P4") + length (fmt_d w ++ lit " " ++ fmt_d h) + 2
          = length (lit "P4" ++ [nl] ++ fmt_d w ++ lit " " ++ fmt_d h ++ [nl]))%nat
    as Hsame by (rewrite !length_app; cbn [length]; lia).
  rewrite (ReadPBM_header_fill (lit "P4") _ _ w h);
    [| |by right|done|done|done|done|unfold Reader.size; lia].
  2:{ intros Hin.
      repeat (apply elem_of_cons in Hin as [?|Hin]; [discriminate|]).
      by apply elem_of_nil in Hin. }
  cbv zeta. rewrite Hsame.
  change (TrimSpace (lit "P4" ++ [nl])) with (lit "P4").
  change (bytes_eqb (lit "P4") (lit "P1")) with false.
  change (bytes_eqb (lit "P4") (lit "P4")) with true. cbv iota.
  set (hdr := length (lit "P4" ++ [nl] ++ fmt_d w ++ lit " " ++ fmt_d h ++ [nl]))
    in *.
  set (q := Z.to_nat (free / e)). set (r := Z.to_nat (free mod e)).
  assert (Reader.size - hdr = length (concat (take q bss)) + r)%nat as HB.
  { pose proof (length_packed_rows w (take q d) (take q bss)) as Hc.
    rewrite length_take, Nat.min_l in Hc by lia.
    rewrite <- (Nat2Z.id (length (concat (take q bss)))).
    rewrite Hc; [|by apply Forall_take|done|by apply Forall2_take].
    fold e. unfold q, r, free in *. lia. }
  rewrite <- (take_drop q bss) at 1 2. rewrite concat_app.
  rewrite HB, take_app_add', drop_app_add' by done.
  set (tail := take r (concat (drop q bss))).
  assert (length tail = r) as Htail.
  { unfold tail. rewrite length_take. apply Nat.min_l.
    pose proof (length_packed_rows w (drop q d) (drop q bss)) as Hc.
    rewrite length_drop in Hc. fold e in Hc.
    apply Nat2Z.inj_le. rewrite Hc;
      [|by apply Forall_drop|done|by apply Forall2_drop].
    unfold r, q. nia. }
  unfold for_lt_until. rewrite Z.sub_0_r.
  replace (Z.to_nat h) with (length (take q d) + S (Z.to_nat h - S q))%nat
    by (rewrite length_take; lia).
  pose proof (read_binary_rows w (take q d) (take q bss) tail
                (drop r (concat (drop q bss))) (S (Z.to_nat h - S q))) as Hrows.
  unfold for_lt_until in Hrows. rewrite Z.sub_0_r, Nat2Z.id in Hrows.
  rewrite (loop_until_app _ _ _ _ _ _
             (Hrows ltac:(lia) ltac:(by apply Forall_take)
                ltac:(by apply Forall2_take))).
  cbn [loop_until].
  assert (Z.quot (int_add w 7) 8 = e) as ->.
  { unfold int_add. rewrite wrap64_small by lia.
    by rewrite Z.quot_div_nonneg by lia. }
  rewrite read_binary_row_short by (rewrite Htail; unfold r; lia).
  cbn [bind]. rewrite Htail, length_take, Nat.min_l by lia.
  unfold q, r. rewrite !Z2Nat.id by lia. by rewrite Z.add_0_l.
Qed.

(** ** Round trip of the binary bitmap encoding *)

(** [PBM.Save] then [ReadPBM], P4: a well-formed bitmap with magic number
    [P4] is written as the header followed, row by row, by the bytes that
    pack the row, sample [x] in bit [7 - x mod 8] of byte [x / 8]; and
    when these bytes fit the 4096-byte buffer of the reader, [ReadPBM] of
    them returns the same bitmap and no error. *)
Theorem PBM_binary_round_trip_in_buffer pbm :
  PBM.wf pbm -> PBM.magicNumber pbm = "P4"%string ->
  PBM.width pbm < 2 ^ 63 - 7 -> PBM.height pbm < 2 ^ 63 ->
  exists rows : list bytes,
    PBM.Save pbm = Ok (PBM.header pbm ++ concat rows) /\
    Forall2 packs (PBM.data pbm) rows /\
    Z.of_nat (length (concat rows))
    = PBM.height pbm * ((PBM.width pbm + 7) / 8) /\
    ((length (PBM.header pbm ++ concat rows) <= Reader.size)%nat ->
     ReadPBM (PBM.header pbm ++ concat rows) = Ok (Some pbm, None)).
Proof.
  intros Hwf Hm Hw Hh.
  destruct (PBM_Save_binary pbm Hwf Hm) as (bss & Hs & HF).
  exists bss. split; [done|]. split; [done|]. split.
  - destruct Hwf as (Hw0 & Hh0 & Hl & Hf).
    rewrite (length_packed_rows (PBM.width pbm) (PBM.data pbm)) by done.
    rewrite Hl, Z2Nat.id by done. done.
  - intros Hlen. by apply PBM_binary_read_back.
Qed.

Lemma PBM_binary_round_trip_in_buffer_witness :
  exists stream,
    PBM.Save
      (PBM.mk [[true; false; true; true; false; false; true; false; true; true];
               [false; true; false; false; true; true; false; true; false; false]]
         10 2 "P4")
    = Ok stream /\
    length stream = 12%nat /\
    ReadPBM stream
    = Ok (Some
            (PBM.mk
               [[true; false; true; true; false; false; true; false; true; true];
                [false; true; false; false; true; true; false; true; false; false]]
               10 2 "P4"), None).
Proof.
  destruct (PBM_binary_round_trip_in_buffer
    (PBM.mk [[true; false; true; true; false; false; true; false; true; true];
             [false; true; false; false; true; true; false; true; false; false]]
       10 2 "P4")) as (rows & Hs & _ & Hn & Hr).
  - unfold PBM.wf; simpl. repeat split; try lia. repeat constructor.
  - reflexivity.
  - simpl. lia.
  - simpl. lia.
  - assert (length (PBM.header
      (PBM.mk [[true; false; true; true; false; false; true; false; true; true];
               [false; true; false; false; true; true; false; true; false; false]]
         10 2 "P4") ++ concat rows) = 12%nat) as Hlen.
    { rewrite length_app. apply Nat2Z.inj. rewrite Nat2Z.inj_add, Hn.
      vm_compute. reflexivity. }
    eexists. split; [exact Hs|]. split; [exact Hlen|].
    apply Hr. rewrite Hlen. vm_compute. lia.
Defined.

(** [PBM.Save] then [ReadPBM], P4, when the stream is longer than the
    4096-byte buffer of the reader: with [free] the room that the header
    leaves in the buffer and [e] the number of bytes of a row, if [free] is
    not a multiple of [e] then row [free / e] is only partly in the buffer,
    the [Read] for it returns the [free mod e] bytes that are there, and
    [ReadPBM] returns no bitmap but the error of a short row. *)
Theorem PBM_binary_round_trip_past_buffer pbm :
  PBM.wf pbm -> PBM.magicNumber pbm = "P4"%string ->
  PBM.width pbm < 2 ^ 63 - 7 -> PBM.height pbm < 2 ^ 63 ->
  let free := Z.of_nat Reader.size - Z.of_nat (length (PBM.header pbm)) in
  let e := (PBM.width pbm + 7) / 8 in
  exists rows : list bytes,
    PBM.Save pbm = Ok (PBM.header pbm ++ concat rows) /\
    Z.of_nat (length (concat rows)) = PBM.height pbm * e /\
    ((Reader.size < length (PBM.header pbm ++ concat rows))%nat ->
     free mod e <> 0 ->
     ReadPBM (PBM.header pbm ++ concat rows)
     = Ok (None, Some (ErrShortRow (free / e) e (free mod e)))).
Proof.
  intros Hwf Hm Hw Hh free e.
  destruct (PBM_Save_binary pbm Hwf Hm) as (bss & Hs & HF).
  exists bss. split; [done|]. split.
  - destruct Hwf as (Hw0 & Hh0 & Hl & Hf).
    rewrite (length_packed_rows (PBM.width pbm) (PBM.data pbm)) by done.
    rewrite Hl, Z2Nat.id by done. done.
  - intros Hlen Hrem. by apply PBM_binary_read_past_buffer.
Qed.

Lemma PBM_binary_round_trip_past_buffer_witness :
  exists rows : list bytes,
    PBM.Save (PBM.mk (replicate 3000 (replicate 16 true)) 16 3000 "P4")
    = Ok (PBM.header (PBM.mk (replicate 3000 (replicate 16 true)) 16 3000 "P4")
          ++ concat rows) /\
    ReadPBM
      (PBM.header (PBM.mk (replicate 3000 (replicate 16 true)) 16 3000 "P4")
       ++ concat rows)
    = Ok (None, Some (ErrShortRow 2042 2 1)).
Proof.
  destruct (PBM_binary_round_trip_past_buffer
    (PBM.mk (replicate 3000 (replicate 16 true)) 16 3000 "P4"))
    as (rows & Hs & Hn & Hr).
  - unfold PBM.wf. cbn [PBM.width PBM.height PBM.data].
    rewrite length_replicate. repeat split; try lia.
    apply Forall_replicate. rewrite length_replicate. lia.
  - reflexivity.
  - cbn [PBM.width]. lia.
  - cbn [PBM.height]. lia.
  - exists rows. split; [exact Hs|].
    cbn [PBM.width PBM.height] in Hn.
    change ((16 + 7) / 8) with 2 in Hn.
    apply Hr.
    + rewrite length_app. apply Nat2Z.inj_lt. rewrite Nat2Z.inj_add, Hn.
      vm_compute. reflexivity.
    + vm_compute. discriminate.
Defined.

(** ** The grids the decoders return *)

(** What holds after a loop that ran to its end. *)
Lemma loop_post {St} (P : nat -> St -> Prop) n lo
  (body : Z -> St -> result St) s s' :
  P O s ->
  (forall k s s', (k < n)%nat -> P k s ->
     body (lo + Z.of_nat k) s = Ok s' -> P (S k) s') ->
  loop n lo body s = Ok s' -> P n s'.
Proof.
  revert P lo s. induction n as [|n IH]; intros P lo s H0 Hstep Hl.
  - by injection Hl as <-.
  - cbn [loop] in Hl. destruct (body lo s) as [s1|] eqn:Hb; [|done].
    cbn [bind] in Hl.
    apply (IH (fun k => P (S k)) (lo + 1) s1); [| |done].
    + apply (Hstep O s); [lia|done|]. by rewrite Z.add_0_r.
    + intros k t t' Hk Ht Hbt. apply (Hstep (S k) t); [lia|done|].
      rewrite <- Hbt. f_equal. lia.
Qed.

Lemma loop_until_post {St E} (P : nat -> St -> Prop) n lo
  (body : Z -> St -> result (St + E)) s s' :
  P O s ->
  (forall k s s', (k < n)%nat -> P k s ->
     body (lo + Z.of_nat k) s = Ok (inl s') -> P (S k) s') ->
  loop_until n lo body s = Ok (inl s') -> P n s'.
Proof.
  revert P lo s. induction n as [|n IH]; intros P lo s H0 Hstep Hl.
  - by injection Hl as <-.
  - cbn [loop_until] in Hl. destruct (body lo s) as [[s1|e]|] eqn:Hb; [|done..].
    cbn [bind] in Hl.
    apply (IH (fun k => P (S k)) (lo + 1) s1); [| |done].
    + apply (Hstep O s); [lia|done|]. by rewrite Z.add_0_r.
    + intros k t t' Hk Ht Hbt. apply (Hstep (S k) t); [lia|done|].
      rewrite <- Hbt. f_equal. lia.
Qed.

(** [d[y][x] = v] changes the length of no row. *)
Lemma store2_row_lengths {A} (d d' : list (list A)) y x v :
  store2 d y x v = Ok d' -> length <$> d' = length <$> d.
Proof.
  unfold store2. destruct (index d y) as [row|] eqn:Hi; [|done].
  cbn [bind]. apply index_Ok in Hi as [Hy Hrow].
  unfold store. destruct (_ && _); [|done]. cbn [bind].
  destruct (_ && _); [|done]. injection 1 as <-.
  rewrite list_fmap_insert, length_insert.
  apply list_insert_id. by rewrite list_lookup_fmap, Hrow.
Qed.

Lemma shape_row_lengths {A} (d : list (list A)) (h w : nat) :
  shape d h w <-> length <$> d = replicate h w.
Proof.
  unfold shape. split.
  - intros [<- Hf]. induction Hf as [|row d Hr Hf IH]; [done|].
    cbn. by rewrite Hr, IH.
  - intros H. split.
    + by rewrite <- (length_fmap length d), H, length_replicate.
    + assert (Forall (fun n => n = w) (length <$> d)) as Hf
        by (rewrite H; by apply Forall_replicate).
      by apply Forall_fmap in Hf.
Qed.

(** [make2] returns a grid, or panics. *)
Lemma make2_post {A} (n m : Z) (zero : A) d :
  make2 n m zero = Ok d ->
  0 <= n /\ (0 < n -> 0 <= m) /\ shape d (Z.to_nat n) (Z.to_nat m).
Proof.
  intros H. destruct (Z.ltb_spec n 0) as [Hn|Hn].
  { unfold make2, make in H. destruct (Z.ltb_spec n 0); [done|lia]. }
  destruct (Z.ltb_spec m 0) as [Hm|Hm].
  - destruct (Z.eq_dec n 0) as [->|Hn0].
    + injection H as <-. split; [done|]. split; [lia|]. by split.
    + exfalso. unfold make2 in H. rewrite make_Ok in H by done.
      cbn [bind] in H. rewrite length_replicate in H.
      unfold for_lt in H. rewrite Z.sub_0_r, Nat2Z.id in H.
      destruct (Z.to_nat n) as [|k] eqn:Hk; [lia|].
      cbn [loop] in H. unfold make at 1 in H.
      destruct (Z.ltb_spec m 0); [done|lia].
  - rewrite make2_Ok in H by done. injection H as <-.
    split; [done|]. split; [done|]. apply shape_replicate.
Qed.

Lemma ReadPBM_shape file pbm e :
  ReadPBM file = Ok (Some pbm, e) ->
  0 <= PBM.height pbm /\ (0 < PBM.height pbm -> 0 <= PBM.width pbm) /\
  shape (PBM.data pbm) (Z.to_nat (PBM.height pbm))
    (Z.to_nat (PBM.width pbm)) /\
  (PBM.magicNumber pbm = "P1"%string \/ PBM.magicNumber pbm = "P4"%string).
Proof.
  intros H. unfold ReadPBM in H.
  destruct (Reader.ReadString nl (Reader.NewReader file)) as [[m ok] r1].
  destruct ok; cbn [negb] in H; [|done].
  destruct (negb _ && negb _) eqn:Hm in H; [done|].
  destruct (Reader.ReadString nl r1) as [[dims ok] r2].
  destruct ok; cbn [negb] in H; [|done].
  destruct (Sscanf_d_d _) as [[w h]|]; [|done].
  destruct (make2 h w false) as [d0|] eqn:Hmk; [|done]. cbn [bind] in H.
  apply make2_post in Hmk as (Hh & Hw & Hs).
  match type of H with
  | (let* r := ?loops in _) = _ =>
      destruct loops as [[[rd d]|err]|] eqn:Hr; cbn [bind] in H; [|done..]
  end.
  injection H as <- <-.
  cbn [PBM.data PBM.width PBM.height PBM.magicNumber].
  split; [done|]. split; [done|]. split.
  - apply shape_row_lengths. apply shape_row_lengths in Hs.
    set (P := fun (_ : nat) (st : Reader.t * list (list bool)) =>
                length <$> st.2 = replicate (Z.to_nat h) (Z.to_nat w)).
    destruct (bytes_eqb (TrimSpace m) (lit "P1")).
    + apply (loop_until_post P) in Hr; [done|done|].
      intros k [rd1 d1] [rd2 d2] _ Hd Hb. unfold P in *. cbn [snd] in *.
      unfold read_ascii_row in Hb.
      destruct (Reader.ReadString nl rd1) as [[line ok] rd3].
      destruct ok; cbn [negb] in Hb; [|done].
      match type of Hb with
      | (let* r := ?inner in _) = _ =>
          destruct inner as [[d3|err]|] eqn:Hin; cbn [bind] in Hb; [|done..]
      end.
      injection Hb as <- <-.
      apply (loop_until_post
               (fun _ d => length <$> d
                           = replicate (Z.to_nat h) (Z.to_nat w))) in Hin;
        [done|done|].
      intros j d4 d5 _ Hd4 Hb.
      destruct (index (Fields line) _) as [field|]; [|done]. cbn [bind] in Hb.
      destruct (w <=? _); [done|].
      destruct (store2 d4 _ _ _) as [d6|] eqn:Hst; [|done].
      injection Hb as <-. by rewrite (store2_row_lengths _ _ _ _ _ Hst).
    + destruct (bytes_eqb (TrimSpace m) (lit "P4")).
      * apply (loop_until_post P) in Hr; [done|done|].
        intros k [rd1 d1] [rd2 d2] _ Hd Hb. unfold P in *. cbn [snd] in *.
        unfold read_binary_row in Hb.
        destruct (make _ _) as [row|]; [|done]. cbn [bind] in Hb.
        destruct (Reader.Read _ rd1) as [[got ok] rd3].
        destruct ok; cbn [negb] in Hb; [|done].
        destruct (_ <? _); [done|].
        match type of Hb with
        | (let* r := ?inner in _) = _ =>
            destruct inner as [d3|] eqn:Hin; cbn [bind] in Hb; [|done]
        end.
        injection Hb as <- <-. unfold for_lt in Hin.
        apply (loop_post
                 (fun _ d => length <$> d
                             = replicate (Z.to_nat h) (Z.to_nat w))) in Hin;
          [done|done|].
        intros j d4 d5 _ Hd4 Hb.
        destruct (index _ _) as [b|]; [|done]. cbn [bind] in Hb.
        by rewrite (store2_row_lengths _ _ _ _ _ Hb).
      * by injection Hr as <- <-.
  - apply bitmap_magic_test in Hm as [Hm|Hm]; rewrite Hm; [by left|by right].
Qed.

Lemma store2_Forall {A} (P : A -> Prop) (d d' : list (list A)) y x v :
  store2 d y x v = Ok d' -> P v -> Forall (Forall P) d -> Forall (Forall P) d'.
Proof.
  unfold store2. destruct (index d y) as [row|] eqn:Hi; [|done].
  cbn [bind]. apply index_Ok in Hi as [Hy Hrow].
  unfold store. destruct (_ && _); [|done]. cbn [bind].
  destruct (_ && _); [|done]. injection 1 as <-. intros Hv Hd.
  apply Forall_insert; [done|]. apply Forall_insert; [|done].
  rewrite Forall_lookup in Hd. by apply (Hd (Z.to_nat y)).
Qed.

Lemma ReadPGM_shape file pgm e :
  ReadPGM file = Ok (Some pgm, e) ->
  0 <= PGM.height pgm /\ (0 < PGM.height pgm -> 0 <= PGM.width pgm) /\
  shape (PGM.data pgm) (Z.to_nat (PGM.height pgm))
    (Z.to_nat (PGM.width pgm)) /\
  PGM.samples_uint8 pgm.
Proof.
  intros H. unfold ReadPGM in H.
  destruct (Scanner.ScanLine (Scanner.NewScanner file)) as [ok1 s1].
  destruct (Scanner.ScanLine s1) as [ok2 s2].
  destruct (index _ 0) as [ws|]; [|done]. cbn [bind] in H.
  destruct (Atoi ws) as [w [err|]]; [done|].
  destruct (index _ 1) as [hs|]; [|done]. cbn [bind] in H.
  destruct (Atoi hs) as [h [err|]]; [done|].
  destruct (Scanner.ScanLine s2) as [ok3 s3].
  destruct (Atoi _) as [mx [err|]]; [done|].
  destruct (make h []) as [d0|] eqn:Hmk; [|done]. cbn [bind] in H.
  unfold make in Hmk. destruct (Z.ltb_spec h 0) as [|Hh]; [done|].
  injection Hmk as <-.
  match type of H with
  | (let* r := ?loops in _) = _ =>
      destruct loops as [[[sc d]|err]|] eqn:Hr; cbn [bind] in H; [|done..]
  end.
  injection H as <- <-.
  cbn [PGM.data PGM.width PGM.height PGM.magicNumber PGM.max].
  unfold PGM.samples_uint8. cbn [PGM.data].
  set (W := Z.to_nat w) in *.
  set (I := fun (k : nat) (d : list (list Z)) =>
              length d = Z.to_nat h /\
              take k (length <$> d) = replicate k W /\
              Forall (Forall (fun v => 0 <= v < 256)) d).
  unfold for_lt_until in Hr. rewrite Z.sub_0_r in Hr.
  assert (I (Z.to_nat h) d /\ (0 < h -> 0 <= w)) as [(Hl & Ht & Hv) Hw].
  { apply (loop_until_post
             (fun k (st : Scanner.t * list (list Z)) =>
                I k st.2 /\ ((0 < k)%nat -> 0 <= w))) in Hr.
    - destruct Hr as [HI Hw]. split; [done|]. intros ?. apply Hw. lia.
    - cbn [snd]. split; [|lia]. split; [by rewrite length_replicate|].
      split; [done|]. apply Forall_replicate. apply Forall_nil_2.
    - intros k [sc1 d1] [sc2 d2] Hk [(Hl & Ht & Hv) _] Hb. cbn [snd] in *.
      rewrite Z.add_0_l in Hb.
      destruct (make w 0) as [fresh|] eqn:Hf; [|done]. cbn [bind] in Hb.
      unfold make in Hf. destruct (Z.ltb_spec w 0) as [|Hw]; [done|].
      injection Hf as <-.
      unfold store in Hb. destruct (_ && _); [|done]. cbn [bind] in Hb.
      rewrite Nat2Z.id in Hb.
      destruct (Scanner.ScanLine sc1) as [ok4 sc3].
      match type of Hb with
      | (let* r := ?inner in _) = _ =>
          destruct inner as [[d3|err]|] eqn:Hin; cbn [bind] in Hb; [|done..]
      end.
      injection Hb as <- <-. split; [|done].
      unfold for_lt_until in Hin.
      apply (loop_until_post (fun _ d => I (S k) d)) in Hin; [done| |].
      + unfold I. rewrite length_insert. split; [done|]. split.
        * rewrite list_fmap_insert, length_replicate.
          assert (k < length (length <$> d1))%nat
            by (rewrite length_fmap; lia).
          rewrite (take_S_r _ _ W) by (by apply list_lookup_insert_eq).
          rewrite take_insert_ge by lia. rewrite Ht.
          change [W] with (replicate 1 W). rewrite <- replicate_add.
          f_equal. lia.
        * apply Forall_insert; [done|]. apply Forall_replicate. lia.
      + intros j d4 d5 _ (Hl4 & Ht4 & Hv4) Hb.
        destruct (index _ _) as [tok|]; [|done]. cbn [bind] in Hb.
        destruct (ParseUint8 tok) as [value [err|]]; [done|].
        destruct (store2 d4 _ _ _) as [d6|] eqn:Hst; [|done].
        injection Hb as <-. unfold I.
        rewrite (store2_row_lengths _ _ _ _ _ Hst).
        split; [|split; [done|]].
        * rewrite <- (length_fmap length), (store2_row_lengths _ _ _ _ _ Hst).
          by rewrite length_fmap.
        * apply (store2_Forall _ _ _ _ _ _ Hst); [|done]. unfold uint8.
          apply Z.mod_pos_bound. lia. }
  split; [done|]. split; [done|]. split; [|done].
  apply shape_row_lengths. rewrite <- Ht.
  rewrite take_ge; [done|]. rewrite length_fmap. lia.
Qed.

Lemma ReadPPM_shape file ppm e :
  ReadPPM file = Ok (Some ppm, e) ->
  0 <= PPM.height ppm /\ (0 < PPM.height ppm -> 0 <= PPM.width ppm) /\
  shape (PPM.data ppm) (Z.to_nat (PPM.height ppm))
    (Z.to_nat (PPM.width ppm)) /\
  0 <= PPM.max ppm < 256 /\ e = None.
Proof.
  intros H. unfold ReadPPM in H.
  destruct (Scanner.ScanWord (Scanner.NewScanner file)) as [ok1 s1].
  destruct (Scanner.ScanWord s1) as [ok2 s2].
  destruct (Scanner.ScanWord s2) as [ok3 s3].
  destruct (Scanner.ScanWord s3) as [ok4 s4].
  destruct (make2 _ _ zeroPixel) as [d0|] eqn:Hmk; [|done]. cbn [bind] in H.
  apply make2_post in Hmk as (Hh & Hw & Hs).
  match type of H with
  | (let* r := ?loops in _) = _ =>
      destruct loops as [[sc d]|] eqn:Hr; cbn [bind] in H; [|done]
  end.
  injection H as <- <-.
  cbn [PPM.data PPM.width PPM.height PPM.magicNumber PPM.max snd].
  split; [done|]. split; [done|]. split.
  - apply shape_row_lengths. apply shape_row_lengths in Hs.
    unfold for_lt in Hr.
    apply (loop_post
             (fun _ (st : Scanner.t * list (list Pixel)) =>
                length <$> st.2 = length <$> d0)) in Hr;
      [by rewrite <- Hs|done|].
    intros i st1 st2 _ Hd Hb. unfold for_lt in Hb.
    apply (loop_post
             (fun _ (st : Scanner.t * list (list Pixel)) =>
                length <$> st.2 = length <$> d0)) in Hb; [done|done|].
    intros j [sc1 d1] [sc2 d2] _ Hd1 Hb1. cbn [snd] in *.
    destruct (Scanner.ScanWord sc1) as [ok5 sc5].
    destruct (Scanner.ScanWord sc5) as [ok6 sc6].
    destruct (Scanner.ScanWord sc6) as [ok7 sc7].
    destruct (store2 d1 _ _ _) as [d3|] eqn:Hst; [|done].
    injection Hb1 as <- <-. by rewrite (store2_row_lengths _ _ _ _ _ Hst).
  - split; [|done]. unfold uint8. apply Z.mod_pos_bound. lia.
Qed.

(** Every image a decoder returns is a grid of the size it declares:
    [height] is not negative, [data] has [height] rows, every row has
    [width] samples, and [width] is not negative unless there is no row.
    Moreover a bitmap carries the magic number [P1] or [P4], the samples of
    a graymap are [uint8] values, and [ReadPPM] returns a pixmap with no
    error and a maximum value below 256. *)
Theorem decoders_return_grids :
  (forall file pbm e, ReadPBM file = Ok (Some pbm, e) ->
     0 <= PBM.height pbm /\ (0 < PBM.height pbm -> 0 <= PBM.width pbm) /\
     length (PBM.data pbm) = Z.to_nat (PBM.height pbm) /\
     Forall (fun row => length row = Z.to_nat (PBM.width pbm))
       (PBM.data pbm) /\
     (PBM.magicNumber pbm = "P1"%string \/
      PBM.magicNumber pbm = "P4"%string)) /\
  (forall file pgm e, ReadPGM file = Ok (Some pgm, e) ->
     0 <= PGM.height pgm /\ (0 < PGM.height pgm -> 0 <= PGM.width pgm) /\
     length (PGM.data pgm) = Z.to_nat (PGM.height pgm) /\
     Forall (fun row => length row = Z.to_nat (PGM.width pgm))
       (PGM.data pgm) /\
     PGM.samples_uint8 pgm) /\
  (forall file ppm e, ReadPPM file = Ok (Some ppm, e) ->
     0 <= PPM.height ppm /\ (0 < PPM.height ppm -> 0 <= PPM.width ppm) /\
     length (PPM.data ppm) = Z.to_nat (PPM.height ppm) /\
     Forall (fun row => length row = Z.to_nat (PPM.width ppm))
       (PPM.data ppm) /\
     0 <= PPM.max ppm < 256 /\ e = None).
Proof.
  split; [|split].
  - intros file pbm e H.
    destruct (ReadPBM_shape file pbm e H) as (Hh & Hw & [Hl Hf] & Hm). done.
  - intros file pgm e H.
    destruct (ReadPGM_shape file pgm e H) as (Hh & Hw & [Hl Hf] & Hm). done.
  - intros file ppm e H.
    destruct (ReadPPM_shape file ppm e H) as (Hh & Hw & [Hl Hf] & Hm). done.
Qed.

Lemma decoders_return_grids_witness :
  length (PBM.data (PBM.mk [[true; false; true]] 3 1 "P4")) = 1%nat /\
  PGM.samples_uint8 (PGM.mk [[7; 200]] 2 1 "P2" 255) /\
  length (PPM.data (PPM.mk [[mkPixel 7 255 0]] 1 1 "P3" 255)) = 1%nat.
Proof.
  destruct decoders_return_grids as (Hpbm & Hpgm & Hppm).
  split; [|split].
  - apply (Hpbm (lit "P4" ++ nl :: lit "3 1" ++ [nl; ascii_of_nat 160])
             (PBM.mk [[true; false; true]] 3 1 "P4") None).
    vm_compute. reflexivity.
  - apply (Hpgm (lit "P2" ++ nl :: lit "2 1" ++ nl :: lit "255"
                   ++ nl :: lit "7 200" ++ [nl])
             (PGM.mk [[7; 200]] 2 1 "P2" 255) None).
    vm_compute. reflexivity.
  - apply (Hppm (lit "P3" ++ nl :: lit "1 1" ++ nl :: lit "255"
                   ++ nl :: lit "7 300 x" ++ [nl])
             (PPM.mk [[mkPixel 7 255 0]] 1 1 "P3" 255) None).
    vm_compute. reflexivity.
Defined.

(** ** Filled rectangles *)

Lemma elem_of_filled_rectangle_points p width height q :
  q ∈ filled_rectangle_points p width height <->
  exists i j, 0 <= i < height /\ 0 <= j < width /\
    q = mkPoint (int_add (X p) j) (int_add (Y p) i).
Proof.
  unfold filled_rectangle_points. rewrite list_elem_of_bind. split.
  - intros (i & Hq & Hi). apply list_elem_of_bind in Hq as (j & Hq & Hj).
    apply elem_of_range_lt in Hi, Hj. apply list_elem_of_singleton in Hq.
    by exists i, j.
  - intros (i & j & Hi & Hj & ->). exists i.
    split; [|by apply elem_of_range_lt].
    apply list_elem_of_bind. exists j. split; [|by apply elem_of_range_lt].
    by apply list_elem_of_singleton.
Qed.

(** [DrawFilledRectangle] paints the columns [X .. X + width - 1] of the
    rows [Y .. Y + height - 1], and nothing else: with a width or a height
    that is not positive it leaves the image as it is; with the rectangle
    inside the image it succeeds and exactly those pixels take the colour;
    and with a rectangle that reaches outside the image it panics. *)
Theorem DrawFilledRectangle_fills ppm p width height color :
  PPM.wf ppm -> PPM.width ppm < 2 ^ 62 -> PPM.height ppm < 2 ^ 62 ->
  - 2 ^ 62 <= X p <= 2 ^ 62 -> - 2 ^ 62 <= Y p <= 2 ^ 62 ->
  width <= 2 ^ 62 -> height <= 2 ^ 62 ->
  let inside :=
    0 <= X p /\ X p + width <= PPM.width ppm /\
    0 <= Y p /\ Y p + height <= PPM.height ppm in
  (width <= 0 \/ height <= 0 ->
   PPM.DrawFilledRectangle ppm p width height color = Ok ppm) /\
  (0 < width -> 0 < height -> inside ->
   exists ppm',
     PPM.DrawFilledRectangle ppm p width height color = Ok ppm' /\
     PPM.wf ppm' /\ PPM.Size ppm' = PPM.Size ppm /\
     forall x y, 0 <= x < PPM.width ppm -> 0 <= y < PPM.height ppm ->
       PPM.At ppm' x y =
       if decide (X p <= x < X p + width /\ Y p <= y < Y p + height)
       then Ok color else PPM.At ppm x y) /\
  (0 < width -> 0 < height -> ~ inside ->
   PPM.DrawFilledRectangle ppm p width height color = Panic).
Proof.
  intros Hwf HW HH HX HY Hwd Hht inside.
  rewrite DrawFilledRectangle_points.
  pose proof Hwf as (HW0 & HH0 & _).
  assert (forall i j, 0 <= i < height -> 0 <= j < width ->
            int_add (X p) j = X p + j /\ int_add (Y p) i = Y p + i) as Hadd.
  { intros i j Hi Hj. unfold int_add. rewrite !wrap64_small by lia. done. }
  split; [|split].
  - intros Hempty.
    destruct (filled_rectangle_points p width height) as [|q pts] eqn:E;
      [done|].
    assert (q ∈ filled_rectangle_points p width height) as Hq
      by (rewrite E; apply elem_of_cons; by left).
    apply elem_of_filled_rectangle_points in Hq as (i & j & Hi & Hj & _).
    lia.
  - intros Hw0 Hh0 (Hx0 & Hx1 & Hy0 & Hy1).
    destruct (draw_points_in_bounds ppm
                (filled_rectangle_points p width height) color Hwf)
      as (ppm' & Hd & Hwf' & Hw' & Hh' & _ & _ & Hc).
    + apply Forall_forall. intros q Hq.
      apply elem_of_filled_rectangle_points in Hq as (i & j & Hi & Hj & ->).
      destruct (Hadd i j Hi Hj) as [-> ->]. unfold in_bounds. cbn [X Y]. lia.
    + exists ppm'. split; [done|]. split; [done|].
      split; [unfold PPM.Size; by rewrite Hw', Hh'|].
      intros x y Hx Hy. rewrite Hc by done.
      destruct (decide (X p <= x < X p + width /\ Y p <= y < Y p + height))
        as [[Hin1 Hin2]|Hout].
      * rewrite decide_True; [done|].
        apply elem_of_filled_rectangle_points.
        exists (y - Y p), (x - X p).
        split; [lia|]. split; [lia|].
        destruct (Hadd (y - Y p) (x - X p)) as [-> ->]; [lia..|].
        f_equal; lia.
      * rewrite decide_False; [done|].
        intros (i & j & Hi & Hj & Heq)%elem_of_filled_rectangle_points.
        destruct (Hadd i j Hi Hj) as [Ex Ey]. rewrite Ex, Ey in Heq.
        injection Heq as -> ->. apply Hout. lia.
  - intros Hw0 Hh0 Hout. apply draw_points_Panic; [done|].
    apply Exists_exists.
    assert (exists i j, 0 <= i < height /\ 0 <= j < width /\
              ~ (0 <= X p + j < PPM.width ppm /\
                 0 <= Y p + i < PPM.height ppm)) as (i & j & Hi & Hj & Hbad).
    { unfold inside in Hout.
      destruct (Z.lt_ge_cases (X p) 0); [exists 0, 0; lia|].
      destruct (Z.lt_ge_cases (Y p) 0); [exists 0, 0; lia|].
      destruct (Z.lt_ge_cases (PPM.width ppm) (X p + width));
        [exists 0, (width - 1); lia|].
      exists (height - 1), 0. lia. }
    exists (mkPoint (int_add (X p) j) (int_add (Y p) i)). split.
    + apply elem_of_filled_rectangle_points. by exists i, j.
    + destruct (Hadd i j Hi Hj) as [-> ->]. unfold in_bounds. by cbn [X Y].
Qed.

Lemma DrawFilledRectangle_fills_witness :
  exists ppm',
    PPM.DrawFilledRectangle (blank 4 3) (mkPoint 1 1) 2 2 red = Ok ppm' /\
    PPM.At ppm' 2 2 = Ok red /\
    PPM.At ppm' 3 2 = Ok zeroPixel.
Proof.
  assert (PPM.wf (blank 4 3)) as Hwf.
  { unfold PPM.wf, blank; simpl. repeat split; try lia. repeat constructor. }
  destruct (DrawFilledRectangle_fills (blank 4 3) (mkPoint 1 1) 2 2 red Hwf)
    as (_ & Hin & _); try (simpl; lia).
  destruct Hin as (ppm' & Hd & _ & _ & Hc); try (simpl; lia).
  exists ppm'. split; [exact Hd|]. split.
  - rewrite Hc by (simpl; lia). reflexivity.
  - rewrite Hc by (simpl; lia). reflexivity.
Defined.
